(** * Philips air purifier CoAP integration: the device-state coordinator

    A shallow embedding of [coordinator.py] (class [Coordinator]), of the
    write commands of [philips.py] (classes [PhilipsEntity] and
    [PhilipsGenericCoAPFanBase]) and of [async_setup_entry] of
    [__init__.py], with the properties of the coordination engine stated
    and proved over it.

    Python objects become records, attribute assignment becomes record
    update, and the coroutines become computations in a small monad that
    threads the world, may raise, and records the calls made to the
    external collaborators (device client, listener callbacks) in a trace.
    Asyncio tasks are entries of a task table; the coroutines that run as
    tasks are cut at their [await]s into resumption steps. *)

From stdpp Require Import base strings list gmap.
From Stdlib Require Import ZArith Lia.

Open Scope nat_scope.

(** ** Python values, exceptions and results *)

Module Py.

(** The exceptions that occur in the modelled code.  [DeviceError] stands
    for any other exception an external collaborator raises. *)
Inductive Exn : Type :=
| ValueError
| AttributeError
| TimeoutError
| IndexError
| ConfigEntryNotReady
| DeviceError (code : nat).

#[global] Instance Exn_eq_dec : EqDecision Exn.
Proof. solve_decision. Defined.

Inductive Result (A : Type) : Type :=
| Ok (a : A)
| Raise (e : Exn).
Arguments Ok {A} a.
Arguments Raise {A} e.

(** Values of a status map: strings and integers. *)
Inductive Value : Type :=
| VStr (s : string)
| VInt (z : Z).

#[global] Instance Value_eq_dec : EqDecision Value.
Proof. solve_decision. Defined.

(** [list.remove(x)]: drops the first occurrence of [x]; [None] stands for
    the [ValueError] Python raises when [x] does not occur. *)
Fixpoint list_remove {A} `{EqDecision A} (x : A) (l : list A) : option (list A) :=
  match l with
  | [] => None
  | y :: l' =>
      if decide (x = y) then Some l'
      else match list_remove x l' with
           | Some r => Some (y :: r)
           | None => None
           end
  end.

End Py.
Export Py.

(** ** The data model *)

(** A status snapshot: protocol key to value.  The claims never depend on the
    insertion order of the Python dict. *)
Abbreviation Status := (gmap string Value).

(** A [CoAPClient] session, an asyncio task and an entity are identified by
    a number. *)
Definition CoAPClient := nat.
Definition TaskId := nat.
Definition EntityId := nat.

(** What can be registered with [async_add_listener]: the bound method
    [_handle_coordinator_update] of an entity, or any other callable. *)
Inductive Callback : Type :=
| EntityUpdate (e : EntityId)
| Foreign (n : nat).

#[global] Instance Callback_eq_dec : EqDecision Callback.
Proof. solve_decision. Defined.

(** Modelled from the spec: the watchdog [Timer] class ([timer.py] is not part
    of the sources at hand).  The spec gives it a timeout duration, an
    auto-restart flag, a running/stopped state and the callback to invoke on
    expiry; [remaining] is [None] when the timer is stopped and [Some n] when
    it is armed with [n] time units left. *)
Module Timer.

(** Modelled from the spec: the callback a timer is configured with; the
    coordinator only ever passes [self.reconnect]. *)
Inductive TimerCallback : Type := CallReconnect.

(** Modelled from the spec: the attributes of a timer. *)
Record Timer : Type := mkTimer {
  timeout : nat;
  callback : TimerCallback;
  auto_restart : bool;
  remaining : option nat;
}.

(** Modelled from the spec: [Timer(timeout=..., callback=..., autostart=...)];
    the timer runs from the start only when [autostart] is set. *)
Definition create (timeout : nat) (callback : TimerCallback) (autostart : bool) : Timer :=
  {| timeout := timeout; callback := callback; auto_restart := false;
     remaining := if autostart then Some timeout else None |}.

(** Modelled from the spec: the assignment [timer.auto_restart = b]. *)
Definition set_auto_restart (b : bool) (t : Timer) : Timer :=
  {| timeout := timeout t; callback := callback t; auto_restart := b;
     remaining := remaining t |}.

(** Modelled from the spec: [reset()] (re)arms the countdown with the full
    timeout. *)
Definition reset (t : Timer) : Timer :=
  {| timeout := timeout t; callback := callback t; auto_restart := auto_restart t;
     remaining := Some (timeout t) |}.

(** Modelled from the spec: [cancel()] stops the countdown. *)
Definition cancel (t : Timer) : Timer :=
  {| timeout := timeout t; callback := callback t; auto_restart := auto_restart t;
     remaining := None |}.

(** Modelled from the spec: the timer after its callback has fired; with
    the auto-restart flag it is armed again. *)
Definition fired (t : Timer) : Timer :=
  if auto_restart t then reset t else cancel t.

(** Modelled from the spec: the running/stopped state. *)
Definition running (t : Timer) : bool :=
  match remaining t with Some _ => true | None => false end.

(** Modelled from the spec: an armed timer with no time left expires when
    time moves on. *)
Definition expires (t : Timer) : bool :=
  match remaining t with Some 0 => true | _ => false end.

(** Modelled from the spec: one time unit passes on a timer that does not
    expire. *)
Definition count_down (t : Timer) : Timer :=
  match remaining t with
  | Some (S n) =>
      {| timeout := timeout t; callback := callback t; auto_restart := auto_restart t;
         remaining := Some n |}
  | _ => t
  end.

End Timer.

(** The coroutines that run as tasks, with the [await] they are suspended
    at.  [_reconnect] awaits twice: [client.shutdown()] and
    [CoAPClient.create(host)]. *)
Inductive Coro : Type :=
| ObserveStatus
| ReconnectAtShutdown
| ReconnectAtCreate.

Inductive TaskState : Type :=
| Active
| Cancelled
| Finished.

Record Task : Type := mkTask {
  coro : Coro;
  state : TaskState;
}.

#[global] Instance Coro_eq_dec : EqDecision Coro.
Proof. solve_decision. Defined.
#[global] Instance TaskState_eq_dec : EqDecision TaskState.
Proof. solve_decision. Defined.
#[global] Instance Task_eq_dec : EqDecision Task.
Proof. solve_decision. Defined.

(** The attributes of a [Coordinator] instance ([hass] is the event loop,
    modelled by the task table of the world). *)
Record Coordinator : Type := mkCoordinator {
  client : option CoAPClient;
  host : string;
  status : Status;
  _listeners : list Callback;
  _task : option TaskId;
  _reconnect_task : option TaskId;
  _timeout : nat;
  _timer_disconnected : Timer.Timer;
}.

(** The world: the coordinator, [config_entry_data.latest_status], and the
    tasks of the event loop.  A task is named by its index in [tasks].
    [latest_status] holds the snapshot as it was when the attribute was
    assigned; nothing modelled here reads it. *)
Record World : Type := mkWorld {
  self : Coordinator;
  latest_status : option Status;
  tasks : list Task;
}.

(** What a computation is seen to do, in the order it does it: a callback
    being called (with the snapshot it finds), the client being shut down, a
    session being created, a write being handed to the client (with the
    client's answer), and [reconnect] being entered. *)
Inductive Event : Type :=
| EvInvoke (cb : Callback) (seen : Status)
| EvClientShutdown (c : CoAPClient)
| EvClientCreate (h : string)
| EvSetControlValue (c : CoAPClient) (k : string) (v : Value) (r : Result unit)
| EvSetControlValues (c : CoAPClient) (data : Status) (r : Result unit)
| EvReconnectCalled.

(** The behaviour of the external collaborators: what each awaited or called
    operation answers.  Every theorem quantifies over it. *)
Record Environment : Type := mkEnvironment {
  client_shutdown : CoAPClient → Result unit;
  client_create : string → Result CoAPClient;
  client_set_control_value : CoAPClient → string → Value → Result unit;
  client_set_control_values : CoAPClient → Status → Result unit;
  async_write_ha_state : EntityId → Status → Result unit;
  foreign_callback : nat → Status → Result unit;
}.

(** ** Attribute updates *)

Definition with_client (x : option CoAPClient) (c : Coordinator) : Coordinator :=
  {| client := x; host := host c; status := status c; _listeners := _listeners c;
     _task := _task c; _reconnect_task := _reconnect_task c; _timeout := _timeout c;
     _timer_disconnected := _timer_disconnected c |}.

Definition with_status (x : Status) (c : Coordinator) : Coordinator :=
  {| client := client c; host := host c; status := x; _listeners := _listeners c;
     _task := _task c; _reconnect_task := _reconnect_task c; _timeout := _timeout c;
     _timer_disconnected := _timer_disconnected c |}.

Definition with_listeners (x : list Callback) (c : Coordinator) : Coordinator :=
  {| client := client c; host := host c; status := status c; _listeners := x;
     _task := _task c; _reconnect_task := _reconnect_task c; _timeout := _timeout c;
     _timer_disconnected := _timer_disconnected c |}.

Definition with_task (x : option TaskId) (c : Coordinator) : Coordinator :=
  {| client := client c; host := host c; status := status c; _listeners := _listeners c;
     _task := x; _reconnect_task := _reconnect_task c; _timeout := _timeout c;
     _timer_disconnected := _timer_disconnected c |}.

Definition with_reconnect_task (x : option TaskId) (c : Coordinator) : Coordinator :=
  {| client := client c; host := host c; status := status c; _listeners := _listeners c;
     _task := _task c; _reconnect_task := x; _timeout := _timeout c;
     _timer_disconnected := _timer_disconnected c |}.

Definition with_timer (x : Timer.Timer) (c : Coordinator) : Coordinator :=
  {| client := client c; host := host c; status := status c; _listeners := _listeners c;
     _task := _task c; _reconnect_task := _reconnect_task c; _timeout := _timeout c;
     _timer_disconnected := x |}.

Definition upd_self (f : Coordinator → Coordinator) (w : World) : World :=
  {| self := f (self w); latest_status := latest_status w; tasks := tasks w |}.

Definition with_latest_status (x : option Status) (w : World) : World :=
  {| self := self w; latest_status := x; tasks := tasks w |}.

Definition with_tasks (x : list Task) (w : World) : World :=
  {| self := self w; latest_status := latest_status w; tasks := x |}.

(** ** The monad of the modelled code

    A computation takes the world and returns its result (a value or a raised
    exception), the world it leaves, and the external calls it made.  The
    world changes made before an exception is raised stay, as in Python. *)

Definition M (A : Type) : Type := World → Result A * World * list Event.

Definition ret {A} (a : A) : M A := λ w, (Ok a, w, []).

Definition raise {A} (e : Exn) : M A := λ w, (Raise e, w, []).

Definition bind {A B} (m : M A) (k : A → M B) : M B := λ w,
  match m w with
  | (Ok a, w1, t1) =>
      match k a w1 with
      | (r, w2, t2) => (r, w2, t1 ++ t2)
      end
  | (Raise e, w1, t1) => (Raise e, w1, t1)
  end.

#[global] Instance M_ret : MRet M := @ret.
#[global] Instance M_bind : MBind M := λ A B k m, bind m k.

Definition get_self : M Coordinator := λ w, (Ok (self w), w, []).
Definition modify (f : World → World) : M unit := λ w, (Ok tt, f w, []).
Definition set_self (f : Coordinator → Coordinator) : M unit := modify (upd_self f).
Definition emit (ev : Event) : M unit := λ w, (Ok tt, w, [ev]).
Definition lift {A} (r : Result A) : M A := λ w, (r, w, []).

(** [with contextlib.suppress(Exception): m] *)
Definition suppress (m : M unit) : M unit := λ w,
  match m w with
  | (_, w1, t1) => (Ok tt, w1, t1)
  end.

(** [try: m  except: handler] (a bare [except], as in [reconnect]). *)
Definition try_except (m : M unit) (handler : Exn → M unit) : M unit := λ w,
  match m w with
  | (Ok a, w1, t1) => (Ok a, w1, t1)
  | (Raise e, w1, t1) =>
      match handler e w1 with
      | (r, w2, t2) => (r, w2, t1 ++ t2)
      end
  end.

(** [for x in l: body x] *)
Fixpoint for_each {A} (l : list A) (body : A → M unit) : M unit :=
  match l with
  | [] => ret tt
  | x :: l' => body x;; for_each l' body
  end.

Definition result_of {A} (o : Result A * World * list Event) : Result A := o.1.1.
Definition world_of {A} (o : Result A * World * list Event) : World := o.1.2.
Definition trace_of {A} (o : Result A * World * list Event) : list Event := o.2.

(** ** The event loop: creating and cancelling tasks *)

(** [asyncio.create_task(coro)] and [hass.async_create_task(coro)]: a new
    active task, named by the next free index. *)
Definition create_task (c : Coro) : M TaskId := λ w,
  (Ok (length (tasks w)), with_tasks (tasks w ++ [mkTask c Active]) w, []).

(** [task.cancel()]: an active task becomes cancelled; a task that is
    already done is left as it is. *)
Definition cancel_in (t : TaskId) (ts : list Task) : list Task :=
  match ts !! t with
  | Some tk =>
      match state tk with
      | Active => <[t := mkTask (coro tk) Cancelled]> ts
      | _ => ts
      end
  | None => ts
  end.

Definition cancel_task (t : TaskId) : M unit :=
  modify (λ w, with_tasks (cancel_in t (tasks w)) w).

Definition finish_in (t : TaskId) (ts : list Task) : list Task :=
  match ts !! t with
  | Some tk => <[t := mkTask (coro tk) Finished]> ts
  | None => ts
  end.

Definition finish_task (t : TaskId) : M unit :=
  modify (λ w, with_tasks (finish_in t (tasks w)) w).

Definition suspend_at (t : TaskId) (c : Coro) : M unit :=
  modify (λ w, with_tasks (<[t := mkTask c Active]> (tasks w)) w).

(** ** [coordinator.py]: class [Coordinator] *)

Module Coordinator.
Section WithEnvironment.

Context (env : Environment).

(** [MISSED_PACKAGE_COUNT] of [const.py], which is not part of the sources at
    hand. *)
Context (MISSED_PACKAGE_COUNT : nat).

(** [Coordinator.__init__(hass, client, host, status)] *)
Definition __init__ (client0 : CoAPClient) (host0 : string) (status0 : Status) : Coordinator :=
  {| client := Some client0;
     host := host0;
     status := status0;
     _listeners := [];
     _task := None;
     _reconnect_task := None;
     _timeout := 60;
     _timer_disconnected :=
       Timer.set_auto_restart true
         (Timer.create (60 * MISSED_PACKAGE_COUNT) Timer.CallReconnect false) |}.

(** [await self.client.shutdown()] on a given session. *)
Definition await_client_shutdown (c : CoAPClient) : M unit :=
  emit (EvClientShutdown c);; lift (client_shutdown env c).

(** [await CoAPClient.create(host)] *)
Definition await_client_create (h : string) : M CoAPClient :=
  emit (EvClientCreate h);; lift (client_create env h).

(** [Coordinator.shutdown] *)
Definition shutdown : M unit :=
  c ← get_self;
  match _reconnect_task c with
  | Some t => cancel_task t
  | None => ret tt
  end;;
  set_self (with_timer (Timer.cancel (_timer_disconnected c)));;
  match client c with
  | Some cl => await_client_shutdown cl
  | None => ret tt
  end.

(** [Coordinator._start_observing]: the [reset()] of the timer at its end is
    commented out in the source and so has no counterpart here. *)
Definition _start_observing : M unit :=
  c ← get_self;
  match _task c with
  | Some t => cancel_task t;; set_self (with_task None)
  | None => ret tt
  end;;
  t ← create_task ObserveStatus;
  set_self (with_task (Some t)).

(** [Coordinator.reconnect] *)
Definition reconnect : M unit :=
  emit EvReconnectCalled;;
  try_except
    (c ← get_self;
     match _reconnect_task c with
     | Some t => cancel_task t;; set_self (with_reconnect_task None)
     | None => ret tt
     end;;
     t ← create_task ReconnectAtShutdown;
     set_self (with_reconnect_task (Some t)))
    (λ _, ret tt).

(** [Coordinator._reconnect], first part: up to the completion of
    [await self.client.shutdown()] under [contextlib.suppress(Exception)].
    Without a client the attribute access raises, which is suppressed too. *)
Definition _reconnect_shutdown : M unit :=
  suppress
    (c ← get_self;
     match client c with
     | Some cl => await_client_shutdown cl
     | None => raise AttributeError
     end).

(** [Coordinator._reconnect], second part: [CoAPClient.create], the
    assignment of the new client and [_start_observing]; the bare [except]
    logs and swallows what is raised. *)
Definition _reconnect_create : M unit :=
  try_except
    (c ← get_self;
     cl ← await_client_create (host c);
     set_self (with_client (Some cl));;
     _start_observing)
    (λ _, ret tt).

(** The whole of [_reconnect] when it is not cancelled on the way. *)
Definition _reconnect : M unit :=
  _reconnect_shutdown;; _reconnect_create.

(** [PhilipsEntity._handle_coordinator_update] of entity [e] (it lives in
    [philips.py]; it is here because it is what the entities register).
    [_device_status] is [self.coordinator.status]. *)
Definition _handle_coordinator_update (e : EntityId) : M unit :=
  c ← get_self;
  emit (EvInvoke (EntityUpdate e) (status c));;
  modify (with_latest_status (Some (status c)));;
  lift (async_write_ha_state env e (status c)).

(** [update_callback()]: calling a registered callback. *)
Definition invoke (cb : Callback) : M unit :=
  match cb with
  | EntityUpdate e => _handle_coordinator_update e
  | Foreign n =>
      c ← get_self;
      emit (EvInvoke (Foreign n) (status c));;
      lift (foreign_callback env n (status c))
  end.

(** [Coordinator.async_add_listener].  It returns the closure
    [remove_listener], which is [async_remove_listener] applied to the
    callback: the callback itself serves as the handle. *)
Definition async_add_listener (update_callback : Callback) : M Callback :=
  c ← get_self;
  let start_observing := bool_decide (_listeners c = []) in
  set_self (with_listeners (_listeners c ++ [update_callback]));;
  (if start_observing then _start_observing else ret tt);;
  ret update_callback.

(** [Coordinator.async_remove_listener] *)
Definition async_remove_listener (update_callback : Callback) : M unit :=
  c ← get_self;
  match list_remove update_callback (_listeners c) with
  | None => raise ValueError
  | Some l =>
      set_self (with_listeners l);;
      match l, _task c with
      | [], Some t => cancel_task t;; set_self (with_task None)
      | _, _ => ret tt
      end
  end.

(** [update_callback()] for a callable that also unsubscribes.  Before it
    answers, it calls the closures [remove_listener] that
    [async_add_listener] returned for the callbacks [unsubscribes] names (its
    own or those of others), in that order; what such a call raises leaves
    the callable.  For the handler of an entity this is part of what
    [async_write_ha_state] sets off.  With nothing to unsubscribe this is
    [invoke]. *)
Definition invoke_unsubscribing (unsubscribes : Callback → Status → list Callback)
    (cb : Callback) : M unit :=
  c ← get_self;
  emit (EvInvoke cb (status c));;
  match cb with
  | EntityUpdate e => modify (with_latest_status (Some (status c)))
  | Foreign n => ret tt
  end;;
  for_each (unsubscribes cb (status c)) async_remove_listener;;
  match cb with
  | EntityUpdate e => lift (async_write_ha_state env e (status c))
  | Foreign n => lift (foreign_callback env n (status c))
  end.

(** [for update_callback in self._listeners: update_callback()].  The
    iterator of a Python list keeps a position and reads the list as it is
    when the next item is asked for, so a callback that changes the registry
    changes what the loop visits.  [call] is what calling a callback does.
    No callable modelled here lengthens the registry, so the loop ends by
    running past the end of the list and never by [bound], which is the
    length of the registry when the loop starts. *)
Fixpoint notify (call : Callback → M unit) (bound position : nat) : M unit :=
  match bound with
  | 0 => ret tt
  | S bound' =>
      c ← get_self;
      match _listeners c !! position with
      | Some update_callback =>
          call update_callback;; notify call bound' (S position)
      | None => ret tt
      end
  end.

(** The body of the [async for] of [_async_observe_status] for one snapshot:
    the [reset()] of the timer is commented out in the source. *)
Definition observe_round (call : Callback → M unit) (snapshot : Status) : M unit :=
  set_self (with_status snapshot);;
  c ← get_self;
  notify call (length (_listeners c)) 0.

(** The round with callables that only answer. *)
Definition observe_body (snapshot : Status) : M unit :=
  observe_round invoke snapshot.

(** The round with callables that may unsubscribe. *)
Definition observe_body_unsubscribing (unsubscribes : Callback → Status → list Callback)
    (snapshot : Status) : M unit :=
  observe_round (invoke_unsubscribing unsubscribes) snapshot.

(** [Coordinator._async_observe_status] over the snapshots the stream
    yields before it ends. *)
Fixpoint _async_observe_status (stream : list Status) : M unit :=
  match stream with
  | [] => ret tt
  | snapshot :: rest => observe_body snapshot;; _async_observe_status rest
  end.

End WithEnvironment.
End Coordinator.

(** ** [philips.py]: the write commands of [PhilipsGenericCoAPFanBase]

    The methods are those of the base class; the models that override them
    ([PhilipsAC1214]) are not covered. *)

Module Fan.

(** The [SWITCH_ON] entry of an oscillation table: an integer or a list. *)
Inductive OnValue : Type :=
| OnInt (z : Z)
| OnList (l : list Value).

(** The class constants and the tables collected by [__init__];
    [entity] identifies the instance, whose bound method
    [_handle_coordinator_update] is the callback [EntityUpdate entity].
    [KEY_OSCILLATION], a dict with one key, is the key with its [SWITCH_ON]
    and [SWITCH_OFF] values. *)
Record FanBase : Type := mkFanBase {
  entity : EntityId;
  KEY_PHILIPS_POWER : string;
  STATE_POWER_ON : Value;
  STATE_POWER_OFF : Value;
  KEY_OSCILLATION : option (string * OnValue * Value);
  _available_preset_modes : gmap string Status;
  _speeds : list string;
  _available_speeds : gmap string Status;
}.

Section WithEnvironment.

Context (env : Environment).

(** [homeassistant.util.percentage.percentage_to_ordered_list_item], a
    function of the host framework. *)
Context (percentage_to_ordered_list_item : list string → Z → Result string).

(** [await self.coordinator.client.set_control_value(key, value)] *)
Definition set_control_value (k : string) (v : Value) : M unit :=
  c ← get_self;
  match client c with
  | None => raise AttributeError
  | Some cl =>
      let r := client_set_control_value env cl k v in
      emit (EvSetControlValue cl k v r);; lift r
  end.

(** [await self.coordinator.client.set_control_values(data=data)] *)
Definition set_control_values (data : Status) : M unit :=
  c ← get_self;
  match client c with
  | None => raise AttributeError
  | Some cl =>
      let r := client_set_control_values env cl data in
      emit (EvSetControlValues cl data r);; lift r
  end.

(** [self._device_status[key] = value] *)
Definition status_setitem (k : string) (v : Value) : M unit :=
  set_self (λ c, with_status (<[k := v]> (status c)) c).

(** [self._device_status.update(data)] *)
Definition status_update (data : Status) : M unit :=
  set_self (λ c, with_status (data ∪ status c) c).

(** A dict found by [get] and tested with [if status_pattern:]. *)
Definition truthy_pattern (o : option Status) : option Status :=
  match o with
  | Some data => if decide (data = ∅) then None else Some data
  | None => None
  end.

(** [async_turn_off] *)
Definition async_turn_off (fan : FanBase) : M unit :=
  set_control_value (KEY_PHILIPS_POWER fan) (STATE_POWER_OFF fan);;
  status_setitem (KEY_PHILIPS_POWER fan) (STATE_POWER_OFF fan);;
  Coordinator._handle_coordinator_update env (entity fan).

(** [async_set_preset_mode] *)
Definition async_set_preset_mode (fan : FanBase) (preset_mode : string) : M unit :=
  match truthy_pattern (_available_preset_modes fan !! preset_mode) with
  | Some status_pattern =>
      set_control_values status_pattern;;
      status_update status_pattern;;
      Coordinator._handle_coordinator_update env (entity fan)
  | None => ret tt
  end.

(** [async_set_percentage] *)
Definition async_set_percentage (fan : FanBase) (percentage : Z) : M unit :=
  if decide (percentage = 0%Z) then async_turn_off fan
  else
    speed ← lift (percentage_to_ordered_list_item (_speeds fan) percentage);
    match truthy_pattern (_available_speeds fan !! speed) with
    | Some status_pattern =>
        set_control_values status_pattern;;
        Coordinator._handle_coordinator_update env (entity fan)
    | None => ret tt
    end.

(** [if preset_mode:] and [if percentage:] of [async_turn_on]. *)
Definition truthy_str (o : option string) : option string :=
  match o with
  | Some s => if decide (s = "") then None else Some s
  | None => None
  end.

Definition truthy_int (o : option Z) : option Z :=
  match o with
  | Some z => if decide (z = 0%Z) then None else Some z
  | None => None
  end.

(** [async_turn_on] *)
Definition async_turn_on (fan : FanBase)
    (percentage : option Z) (preset_mode : option string) : M unit :=
  match truthy_str preset_mode with
  | Some pm => async_set_preset_mode fan pm
  | None =>
      match truthy_int percentage with
      | Some p => async_set_percentage fan p
      | None =>
          set_control_value (KEY_PHILIPS_POWER fan) (STATE_POWER_ON fan);;
          status_setitem (KEY_PHILIPS_POWER fan) (STATE_POWER_ON fan);;
          Coordinator._handle_coordinator_update env (entity fan)
      end
  end.

(** [on if isinstance(on, int) else on[0]] *)
Definition on_value (on : OnValue) : Result Value :=
  match on with
  | OnInt z => Ok (VInt z)
  | OnList (v :: _) => Ok v
  | OnList [] => Raise IndexError
  end.

(** [async_oscillate] *)
Definition async_oscillate (fan : FanBase) (oscillating : bool) : M unit :=
  match KEY_OSCILLATION fan with
  | None => ret tt
  | Some (key, on, off) =>
      on_v ← lift (on_value on);
      (if oscillating then set_control_value key on_v
       else set_control_value key off);;
      status_setitem key (if oscillating then on_v else off);;
      Coordinator._handle_coordinator_update env (entity fan)
  end.

(** The write commands an entity can be asked to carry out. *)
Inductive Command : Type :=
| TurnOn (percentage : option Z) (preset_mode : option string)
| TurnOff
| SetPresetMode (preset_mode : string)
| SetPercentage (percentage : Z)
| Oscillate (oscillating : bool).

Definition run_command (fan : FanBase) (cmd : Command) : M unit :=
  match cmd with
  | TurnOn percentage preset_mode => async_turn_on fan percentage preset_mode
  | TurnOff => async_turn_off fan
  | SetPresetMode preset_mode => async_set_preset_mode fan preset_mode
  | SetPercentage percentage => async_set_percentage fan percentage
  | Oscillate oscillating => async_oscillate fan oscillating
  end.

End WithEnvironment.

(** Whether a command takes the branch of [async_set_percentage] that looks
    the pattern up in the speed table. *)
Definition via_speed_table (cmd : Command) : bool :=
  match cmd with
  | SetPercentage p => bool_decide (p ≠ 0%Z)
  | TurnOn percentage preset_mode =>
      match truthy_str preset_mode, truthy_int percentage with
      | None, Some _ => true
      | _, _ => false
      end
  | _ => false
  end.

End Fan.

(** ** [__init__.py]: [async_setup_entry] *)

Module Setup.

(** [entry.data] with the keys [async_setup_entry] reads, and [entry_id]. *)
Record ConfigEntry : Type := mkConfigEntry {
  entry_id : string;
  CONF_HOST : string;
  CONF_MODEL : string;
  CONF_NAME : string;
  CONF_DEVICE_ID : string;
  CONF_STATUS : Status;
}.

Record DeviceInformation : Type := mkDeviceInformation {
  di_host : string;
  di_mac : option string;
  di_model : string;
  di_name : string;
  di_device_id : string;
}.

(** [config_entry_data.py]: [ConfigEntryData] *)
Record ConfigEntryData : Type := mkConfigEntryData {
  device_information : DeviceInformation;
  ced_client : CoAPClient;
  coordinator : Coordinator;
  ced_latest_status : option Status;
}.

(** [hass.data[DOMAIN]], keyed by entry id. *)
Abbreviation HassData := (gmap string ConfigEntryData).

(** What the setup path asks of its surroundings.  [create_within h t] is
    the outcome of [CoAPClient.create(h)] when it completes within [t] time
    units, and [None] when it does not. *)
Record SetupEnvironment : Type := mkSetupEnvironment {
  async_get_mac_address_from_host : string → option string;
  create_within : string → nat → option (Result CoAPClient);
  async_forward_entry_setups : Result unit;
}.

Inductive SetupEvent : Type :=
| EvCreateSession (h : string) (timeout : nat)
| EvForwardEntrySetups.

(** [asyncio.wait_for(aw, timeout)]: the outcome of [aw] when it completes
    in time, [TimeoutError] otherwise. *)
Definition wait_for {A} (aw : nat → option (Result A)) (timeout : nat) : Result A :=
  match aw timeout with
  | Some r => r
  | None => Raise TimeoutError
  end.

Section WithEnvironment.

Context (env : SetupEnvironment).
Context (MISSED_PACKAGE_COUNT : nat).

(** [async_setup_entry(hass, entry)]: the result, [hass.data[DOMAIN]] as it
    leaves it, and the calls made. *)
Definition async_setup_entry (entry : ConfigEntry) (data : HassData)
    : Result bool * HassData * list SetupEvent :=
  let host := CONF_HOST entry in
  let model := CONF_MODEL entry in
  let name := CONF_NAME entry in
  let device_id := CONF_DEVICE_ID entry in
  let status := CONF_STATUS entry in
  let mac := async_get_mac_address_from_host env host in
  match wait_for (create_within env host) 25 with
  | Raise TimeoutError =>
      (Raise ConfigEntryNotReady, data, [EvCreateSession host 25])
  | Raise e =>
      (Raise e, data, [EvCreateSession host 25])
  | Ok client =>
      let device_information :=
        {| di_host := host; di_mac := mac; di_model := model; di_name := name;
           di_device_id := device_id |} in
      let coordinator :=
        Coordinator.__init__ MISSED_PACKAGE_COUNT client host status in
      let config_entry_data :=
        {| device_information := device_information; coordinator := coordinator;
           ced_latest_status := Some status; ced_client := client |} in
      let data' := <[entry_id entry := config_entry_data]> data in
      match async_forward_entry_setups env with
      | Ok _ => (Ok true, data', [EvCreateSession host 25; EvForwardEntrySetups])
      | Raise e => (Raise e, data', [EvCreateSession host 25; EvForwardEntrySetups])
      end
  end.

End WithEnvironment.

(** The session creations a run of the setup path attempted. *)
Definition creations (evs : list SetupEvent) : list (string * nat) :=
  omap (λ ev, match ev with
              | EvCreateSession h t => Some (h, t)
              | EvForwardEntrySetups => None
              end) evs.

End Setup.

(** ** The event loop around one coordinator *)

Module Loop.

(** What can happen to a coordinator: calls from outside, the stream of an
    observation task yielding a snapshot or ending, a reconnect task being
    resumed at its [await], and time passing for the watchdog. *)
Inductive Action : Type :=
| AddListener (cb : Callback)
| RemoveListener (cb : Callback)
| Reconnect
| Shutdown
| Command (fan : Fan.FanBase) (cmd : Fan.Command)
| Snapshot (t : TaskId) (snapshot : Status)
| StreamEnd (t : TaskId)
| Resume (t : TaskId)
| Tick.

(** The coroutine of task [t] when the task is active. *)
Definition active_coro (ts : list Task) (t : TaskId) : option Coro :=
  match ts !! t with
  | Some tk => match state tk with Active => Some (coro tk) | _ => None end
  | None => None
  end.

Definition get_world : M World := λ w, (Ok w, w, []).

Section WithEnvironment.

Context (env : Environment).
Context (percentage_to_ordered_list_item : list string → Z → Result string).

(** The stream of observation task [t] yields a snapshot: one round of the
    [async for].  What a listener raises ends the task. *)
Definition on_snapshot (t : TaskId) (snapshot : Status) : M unit :=
  w ← get_world;
  match active_coro (tasks w) t with
  | Some ObserveStatus =>
      try_except (Coordinator.observe_body env snapshot) (λ _, finish_task t)
  | _ => ret tt
  end.

(** The stream of observation task [t] ends or raises. *)
Definition on_stream_end (t : TaskId) : M unit :=
  w ← get_world;
  match active_coro (tasks w) t with
  | Some ObserveStatus => finish_task t
  | _ => ret tt
  end.

(** Reconnect task [t] is resumed.  A cancelled task gets [CancelledError]
    at its [await], which [_reconnect] catches and passes: it does nothing
    more. *)
Definition on_resume (t : TaskId) : M unit :=
  w ← get_world;
  match active_coro (tasks w) t with
  | Some ReconnectAtShutdown =>
      Coordinator._reconnect_shutdown env;; suspend_at t ReconnectAtCreate
  | Some ReconnectAtCreate =>
      Coordinator._reconnect_create env;; finish_task t
  | _ => ret tt
  end.

(** Modelled from the spec: the watchdog [Timer] at work.  One time unit
    passes; an armed timer that has no time left fires its callback. *)
Definition on_tick : M unit :=
  c ← get_self;
  let timer := _timer_disconnected c in
  if Timer.expires timer then
    set_self (with_timer (Timer.fired timer));;
    match Timer.callback timer with
    | Timer.CallReconnect => Coordinator.reconnect
    end
  else set_self (with_timer (Timer.count_down timer)).

Definition run (a : Action) : M unit :=
  match a with
  | AddListener cb => Coordinator.async_add_listener cb;; ret tt
  | RemoveListener cb => Coordinator.async_remove_listener cb
  | Reconnect => Coordinator.reconnect
  | Shutdown => Coordinator.shutdown env
  | Command fan cmd => Fan.run_command env percentage_to_ordered_list_item fan cmd
  | Snapshot t snapshot => on_snapshot t snapshot
  | StreamEnd t => on_stream_end t
  | Resume t => on_resume t
  | Tick => on_tick
  end.

End WithEnvironment.

(** A history: the actions in order, each with the behaviour the
    surroundings show while it runs. *)
Definition History : Type :=
  list (Environment * (list string → Z → Result string) * Action).

Fixpoint exec (h : History) (w : World) : World :=
  match h with
  | [] => w
  | (env, ptoi, a) :: h' => exec h' (world_of (run env ptoi a w))
  end.

(** Calls of [async_add_listener] and [async_remove_listener] alone. *)
Inductive ListenerCall : Type :=
| Add (cb : Callback)
| Remove (cb : Callback).

Definition call (c : ListenerCall) : M unit :=
  match c with
  | Add cb => Coordinator.async_add_listener cb;; ret tt
  | Remove cb => Coordinator.async_remove_listener cb
  end.

Fixpoint call_all (cs : list ListenerCall) (w : World) : World :=
  match cs with
  | [] => w
  | c :: cs' => call_all cs' (world_of (call c w))
  end.

(** The world of a coordinator that has just been constructed. *)
Definition fresh (missed : nat) (client0 : CoAPClient) (host0 : string)
    (status0 : Status) : World :=
  {| self := Coordinator.__init__ missed client0 host0 status0;
     latest_status := Some status0;
     tasks := [] |}.

(** The active tasks that run a coroutine of a given kind. *)
Definition is_observe (c : Coro) : bool :=
  match c with ObserveStatus => true | _ => false end.

Definition is_reconnect (c : Coro) : bool :=
  match c with ObserveStatus => false | _ => true end.

Definition runs (kind : Coro → bool) (ts : list Task) (t : TaskId) : bool :=
  match active_coro ts t with
  | Some c => kind c
  | None => false
  end.

Definition active_tasks (kind : Coro → bool) (w : World) : list TaskId :=
  filter (λ t, runs kind (tasks w) t = true) (seq 0 (length (tasks w))).

Definition active_observers : World → list TaskId := active_tasks is_observe.
Definition active_reconnects : World → list TaskId := active_tasks is_reconnect.

End Loop.

(** ** Reading traces *)

(** The callbacks a trace shows being called, in order. *)
Definition invoked (evs : list Event) : list Callback :=
  omap (λ ev, match ev with EvInvoke cb _ => Some cb | _ => None end) evs.

(** How often a callback was called. *)
Definition invocations (cb : Callback) (evs : list Event) : nat :=
  length (filter (λ x, x = cb) (invoked evs)).

(** What a callback answers when it is called on a snapshot. *)
Definition callback_result (env : Environment) (cb : Callback) (seen : Status)
    : Result unit :=
  match cb with
  | EntityUpdate e => async_write_ha_state env e seen
  | Foreign n => foreign_callback env n seen
  end.

(** The write events of a trace. *)
Definition write_ok (ev : Event) : Prop :=
  match ev with
  | EvSetControlValue _ _ _ (Ok _) => True
  | EvSetControlValues _ _ (Ok _) => True
  | _ => False
  end.

Definition write_failed (e : Exn) (ev : Event) : Prop :=
  match ev with
  | EvSetControlValue _ _ _ (Raise e') => e' = e
  | EvSetControlValues _ _ (Raise e') => e' = e
  | _ => False
  end.

(** A snapshot holds what a successful write wrote. *)
Definition reflects (st : Status) (ev : Event) : Prop :=
  match ev with
  | EvSetControlValue _ k v (Ok _) => st !! k = Some v
  | EvSetControlValues _ data (Ok _) => data ⊆ st
  | _ => True
  end.

(** ** Invariants and outcomes *)

(** The coroutine of task [t], whatever the state of the task. *)
Definition kind_of (ts : list Task) (t : TaskId) : option Coro := coro <$> ts !! t.

(** [task.cancel()] on the task an attribute holds, if it holds one. *)
Definition cancel_opt (o : option TaskId) (ts : list Task) : list Task :=
  match o with
  | Some t => cancel_in t ts
  | None => ts
  end.

(** The attribute [_task] (and likewise [_reconnect_task]) accounts for the
    tasks of its kind: every active task of the kind is the one the
    attribute names, and the task the attribute names is of the kind. *)
Definition wf_kind (kind : Coro → bool) (ts : list Task) (field : option TaskId) : Prop :=
  (∀ t, Loop.runs kind ts t = true → field = Some t)
  ∧ (∀ t, field = Some t → kind <$> kind_of ts t = Some true).

Definition wf (w : World) : Prop :=
  wf_kind Loop.is_observe (tasks w) (_task (self w))
  ∧ wf_kind Loop.is_reconnect (tasks w) (_reconnect_task (self w))
  ∧ Timer.remaining (_timer_disconnected (self w)) = None.

(** The part of the world that only the coordinator's own task and registry
    management changes. *)
Definition same_frame (w w' : World) : Prop :=
  tasks w' = tasks w
  ∧ _task (self w') = _task (self w)
  ∧ _reconnect_task (self w') = _reconnect_task (self w)
  ∧ _timer_disconnected (self w') = _timer_disconnected (self w)
  ∧ _listeners (self w') = _listeners (self w)
  ∧ client (self w') = client (self w)
  ∧ host (self w') = host (self w).

(** A computation keeps the frame. *)
Definition keeps {A} (m : M A) : Prop := ∀ w, same_frame w (world_of (m w)).

(** What calls of [async_add_listener] and [async_remove_listener] keep:
    with listeners there is an active observation task, named by [_task];
    without, [_task] is empty. *)
Definition registry_inv (w : World) : Prop :=
  wf w
  ∧ match _listeners (self w) with
    | [] => _task (self w) = None
    | _ :: _ => ∃ t, _task (self w) = Some t
                     ∧ Loop.runs Loop.is_observe (tasks w) t = true
    end.

(** The steps that go well for the registry: everything but a stream that
    ends, a snapshot some callback raises on, and the resumption of a
    reconnect task. *)
Definition calm_step
    (x : Environment * (list string → Z → Result string) * Loop.Action) : Prop :=
  match x with
  | (env, _, Loop.Snapshot _ s) => ∀ cb, callback_result env cb s = Ok tt
  | (_, _, Loop.StreamEnd _) => False
  | (_, _, Loop.Resume _) => False
  | _ => True
  end.

(** What a write command can come to.  It makes no write and leaves the
    world as it was; or its write fails, the error is raised and the world is
    as it was; or its write succeeds and the entity's own handler is called
    on the snapshot the command leaves.  A [faithful] command leaves a
    snapshot that holds what was written; the other kind leaves the snapshot
    as it was. *)
Inductive Outcome (env : Environment) (own : EntityId) (w : World) (faithful : bool)
  : Result unit * World * list Event → Prop :=
| out_no_write (r : Result unit) :
    Outcome env own w faithful (r, w, [])
| out_failed (ev : Event) (e : Exn) :
    write_failed e ev →
    Outcome env own w faithful (Raise e, w, [ev])
| out_written (ev : Event) (w' : World) :
    write_ok ev →
    (if faithful then reflects (status (self w')) ev
     else status (self w') = status (self w)) →
    same_frame w w' →
    Outcome env own w faithful
      (async_write_ha_state env own (status (self w')), w',
       [ev; EvInvoke (EntityUpdate own) (status (self w'))]).

(** ** Concrete surroundings, devices and worlds *)

Module Examples.

(** Surroundings in which everything succeeds; a new session is number 1. *)
Definition calm : Environment :=
  {| client_shutdown := λ _, Ok tt;
     client_create := λ _, Ok 1;
     client_set_control_value := λ _ _ _, Ok tt;
     client_set_control_values := λ _ _, Ok tt;
     async_write_ha_state := λ _ _, Ok tt;
     foreign_callback := λ _ _, Ok tt |}.

(** The device refuses every write. *)
Definition refusing : Environment :=
  {| client_shutdown := λ _, Ok tt;
     client_create := λ _, Ok 1;
     client_set_control_value := λ _ _ _, Raise (DeviceError 5);
     client_set_control_values := λ _ _, Raise (DeviceError 5);
     async_write_ha_state := λ _ _, Ok tt;
     foreign_callback := λ _ _, Ok tt |}.

(** The foreign callback number 1 raises. *)
Definition faulty : Environment :=
  {| client_shutdown := λ _, Ok tt;
     client_create := λ _, Ok 1;
     client_set_control_value := λ _ _ _, Ok tt;
     client_set_control_values := λ _ _, Ok tt;
     async_write_ha_state := λ _ _, Ok tt;
     foreign_callback := λ n _, if decide (n = 1) then Raise (DeviceError 7) else Ok tt |}.

(** The foreign callback number 0 unsubscribes itself when it is called;
    no other callback unsubscribes anything. *)
Definition leaving : Callback → Status → list Callback :=
  λ cb _, if decide (cb = Foreign 0) then [Foreign 0] else [].

(** A stand-in for the framework's speed lookup: the first speed. *)
Definition first_speed (l : list string) (p : Z) : Result string :=
  match l with
  | [] => Raise ValueError
  | s :: _ => Ok s
  end.

Definition status_P : Status := {[ "pwr" := VStr "1"; "mode" := VStr "P" ]}.
Definition status_A : Status := {[ "pwr" := VStr "1"; "mode" := VStr "A" ]}.

Definition purifier : World := Loop.fresh 3 0 "192.168.0.17" status_P.

Definition fan : Fan.FanBase :=
  {| Fan.entity := 0;
     Fan.KEY_PHILIPS_POWER := "pwr";
     Fan.STATE_POWER_ON := VStr "1";
     Fan.STATE_POWER_OFF := VStr "0";
     Fan.KEY_OSCILLATION := None;
     Fan._available_preset_modes :=
       {[ "auto" := {[ "mode" := VStr "P" ]}; "allergen" := {[ "mode" := VStr "A" ]} ]};
     Fan._speeds := ["speed 1"];
     Fan._available_speeds :=
       {[ "speed 1" := {[ "mode" := VStr "M"; "om" := VStr "1" ]} ]} |}.

(** The purifier with the fan entity and a sensor entity listening. *)
Definition watched : World :=
  Loop.call_all [Loop.Add (EntityUpdate 0); Loop.Add (EntityUpdate 1)] purifier.

(** The purifier with three foreign listeners, of which number 1 raises
    under [faulty]. *)
Definition crowded : World :=
  Loop.call_all [Loop.Add (Foreign 0); Loop.Add (Foreign 1); Loop.Add (Foreign 2)] purifier.

(** The purifier with its watchdog armed and out of time; no history of the
    coordinator leads here. *)
Definition armed : World :=
  upd_self (with_timer (Timer.mkTimer 180 Timer.CallReconnect true (Some 0))) purifier.

Definition entry : Setup.ConfigEntry :=
  {| Setup.entry_id := "entry-1";
     Setup.CONF_HOST := "192.168.0.17";
     Setup.CONF_MODEL := "AC2729";
     Setup.CONF_NAME := "bedroom";
     Setup.CONF_DEVICE_ID := "d-17";
     Setup.CONF_STATUS := status_P |}.

(** The device does not answer in time. *)
Definition silent : Setup.SetupEnvironment :=
  {| Setup.async_get_mac_address_from_host := λ _, None;
     Setup.create_within := λ _ _, None;
     Setup.async_forward_entry_setups := Ok tt |}.

End Examples.

(** * More of the code *)

(** ** Reading histories and registries *)

(** The actions that can change the cached snapshot: a snapshot from the
    stream and a write command of an entity. *)
Definition writes_status (a : Loop.Action) : bool :=
  match a with
  | Loop.Snapshot _ _ | Loop.Command _ _ => true
  | _ => false
  end.

(** What a history is seen to do: the calls of its actions, in order. *)
Fixpoint history_trace (h : Loop.History) (w : World) : list Event :=
  match h with
  | [] => []
  | (env, ptoi, a) :: h' =>
      trace_of (Loop.run env ptoi a w)
      ++ history_trace h' (world_of (Loop.run env ptoi a w))
  end.

(** The action that is a call of [reconnect] from outside. *)
Definition calls_reconnect (a : Loop.Action) : bool :=
  match a with
  | Loop.Reconnect => true
  | _ => false
  end.

(** The events of a reconnect: [reconnect] being entered and a session being
    created. *)
Definition reconnecting (ev : Event) : bool :=
  match ev with
  | EvReconnectCalled | EvClientCreate _ => true
  | _ => false
  end.


(** How often a callback is registered. *)
Definition registrations (cb : Callback) (l : list Callback) : nat :=
  length (filter (λ x, x = cb) l).

(** ** Failing with [KeyError] *)

(** How the code below can fail: with one of the exceptions above, or with
    the [KeyError] of a dict lookup. *)
Inductive Failure : Type :=
| Exception (e : Exn)
| KeyError (key : string).

Inductive Ended (A : Type) : Type :=
| Returned (a : A)
| Failed (f : Failure).
Arguments Returned {A} a.
Arguments Failed {A} f.

(** ** [__init__.py]: [async_unload_entry] *)

Module Unload.

(** [PLATFORMS] of [__init__.py]. *)
Definition PLATFORMS : list string :=
  ["fan"; "binary_sensor"; "sensor"; "switch"; "light"; "select"; "number"].

(** What the unload path asks of its surroundings: the answer of
    [hass.config_entries.async_forward_entry_unload(entry, p)] for each
    platform, and the behaviour of the device client. *)
Record UnloadEnvironment : Type := mkUnloadEnvironment {
  async_forward_entry_unload : string → Result bool;
  device : Environment;
}.

Inductive UnloadEvent : Type :=
| EvForwardEntryUnload (platform : string)
| EvCoordinator (ev : Event).

Section WithEnvironment.

Context (env : UnloadEnvironment).

(** [for p in PLATFORMS: await ...async_forward_entry_unload(entry, p)]: the
    result of each call is dropped, an exception ends the loop. *)
Fixpoint unload_platforms (ps : list string) : Result unit * list UnloadEvent :=
  match ps with
  | [] => (Ok tt, [])
  | p :: ps' =>
      match async_forward_entry_unload env p with
      | Ok _ =>
          match unload_platforms ps' with
          | (r, evs) => (r, EvForwardEntryUnload p :: evs)
          end
      | Raise e => (Raise e, [EvForwardEntryUnload p])
      end
  end.

(** [async_unload_entry(hass, entry)].  [data] is [hass.data[DOMAIN]]; [w]
    is the state of the coordinator that the entry's [ConfigEntryData]
    refers to.  The result, [hass.data[DOMAIN]] and the coordinator as the
    call leaves them, and the calls made. *)
Definition async_unload_entry (entry : Setup.ConfigEntry)
    (data : gmap string Setup.ConfigEntryData) (w : World)
    : Ended bool * gmap string Setup.ConfigEntryData * World * list UnloadEvent :=
  match unload_platforms PLATFORMS with
  | (Raise e, evs) => (Failed (Exception e), data, w, evs)
  | (Ok _, evs) =>
      match data !! Setup.entry_id entry with
      | None => (Failed (KeyError (Setup.entry_id entry)), data, w, evs)
      | Some config_entry_data =>
          match Coordinator.shutdown (device env) w with
          | (Raise e, w', evs') =>
              (Failed (Exception e), data, w', evs ++ map EvCoordinator evs')
          | (Ok _, w', evs') =>
              (Returned true, delete (Setup.entry_id entry) data, w',
               evs ++ map EvCoordinator evs')
          end
      end
  end.

End WithEnvironment.

End Unload.

(** ** Python dicts that keep their order *)

(** A dict is the list of its items in insertion order. *)
Module Dict.
Section Dict.

Context {K V : Type} `{EqDecision K}.

(** [d.get(k)] *)
Fixpoint get (k : K) (d : list (K * V)) : option V :=
  match d with
  | [] => None
  | (k', v) :: d' => if decide (k = k') then Some v else get k d'
  end.

(** [d[k] = v]: a key that is there keeps its place, a new key goes to the
    end. *)
Fixpoint setitem (k : K) (v : V) (d : list (K * V)) : list (K * V) :=
  match d with
  | [] => [(k, v)]
  | (k', v') :: d' =>
      if decide (k = k') then (k, v) :: d' else (k', v') :: setitem k v d'
  end.

(** [d.update(other)] *)
Definition update (d other : list (K * V)) : list (K * V) :=
  fold_left (λ acc kv, setitem kv.1 kv.2 acc) other d.

(** [list(d.keys())] *)
Definition keys (d : list (K * V)) : list K := map fst d.

End Dict.
End Dict.

(** ** [philips.py]: the tables and the state properties of
    [PhilipsGenericCoAPFanBase] *)

Module Entity.

(** A status pattern: the items of a dict from protocol key to value. *)
Abbreviation Pattern := (list (string * Value)).

(** [_collect_available_preset_modes] and [_collect_available_speeds]:
    [class_tables] holds what [getattr(cls, ..., {})] finds for each class of
    [reversed(self.__class__.__mro__)], in that order; the result is the
    merged dict, whose keys are [_preset_modes] (or [_speeds]). *)
Definition collect (class_tables : list (list (string * Pattern)))
    : list (string * Pattern) :=
  fold_left Dict.update class_tables [].

Section WithClasses.

(** The class hierarchy as far as one class attribute goes
    ([AVAILABLE_PRESET_MODES] or [AVAILABLE_SPEEDS]): [own c] is what the
    body of class [c] assigns to the attribute, if it assigns it, and [mro c]
    is [c.__mro__], the classes by name. *)
Context (own : string → option (list (string * Pattern))).
Context (mro : string → list string).

(** [getattr(cls, "AVAILABLE_PRESET_MODES", {})]: the attribute as the first
    class of [cls.__mro__] that assigns it has it, and [{}] when none
    does.  A class that does not assign the attribute inherits it. *)
Definition getattr (cls : string) : list (string * Pattern) :=
  default [] (head (omap own (mro cls))).

(** What the loop of [_collect_available_preset_modes] reads: a table for
    each class of [reversed(self.__class__.__mro__)]. *)
Definition class_tables (cls : string) : list (list (string * Pattern)) :=
  map getattr (reverse (mro cls)).

(** [_collect_available_preset_modes] (and [_collect_available_speeds]) of
    an instance of class [cls]. *)
Definition _collect_available (cls : string) : list (string * Pattern) :=
  collect (class_tables cls).

End WithClasses.

(** What [__init__] leaves in the instance, with the dicts in their order. *)
Record Tables : Type := mkTables {
  REPLACE_PRESET : option (string * string);
  REPLACE_SPEED : option (string * string);
  _available_preset_modes : list (string * Pattern);
  _available_speeds : list (string * Pattern);
}.

Definition _preset_modes (tb : Tables) : list string :=
  Dict.keys (_available_preset_modes tb).

Definition _speeds (tb : Tables) : list string :=
  Dict.keys (_available_speeds tb).

(** The same instance as the write commands see it. *)
Definition as_map (d : list (string * Pattern)) : gmap string Status :=
  list_to_map (map (λ kp, (kp.1, list_to_map kp.2)) d).

Definition fan_base (entity : EntityId) (KEY_PHILIPS_POWER : string)
    (STATE_POWER_ON STATE_POWER_OFF : Value)
    (KEY_OSCILLATION : option (string * Fan.OnValue * Value)) (tb : Tables)
    : Fan.FanBase :=
  {| Fan.entity := entity;
     Fan.KEY_PHILIPS_POWER := KEY_PHILIPS_POWER;
     Fan.STATE_POWER_ON := STATE_POWER_ON;
     Fan.STATE_POWER_OFF := STATE_POWER_OFF;
     Fan.KEY_OSCILLATION := KEY_OSCILLATION;
     Fan._available_preset_modes := as_map (_available_preset_modes tb);
     Fan._speeds := _speeds tb;
     Fan._available_speeds := as_map (_available_speeds tb) |}.

(** [is_on] *)
Definition is_on (fan : Fan.FanBase) (st : Status) : bool :=
  bool_decide (st !! Fan.KEY_PHILIPS_POWER fan = Some (Fan.STATE_POWER_ON fan)).

(** The key a pattern key is looked up under: [REPLACE_PRESET[0]] (or
    [REPLACE_SPEED[0]]) is replaced by its second component. *)
Definition replaced (replace : option (string * string)) (k : string) : string :=
  match replace with
  | Some (a, b) => if decide (k = a) then b else k
  | None => k
  end.

(** The inner [for ... else] of [preset_mode] and [percentage]: no item of
    the pattern differs from the status. *)
Definition matches (replace : option (string * string)) (st : Status)
    (pattern : Pattern) : bool :=
  forallb (λ kv, bool_decide (st !! replaced replace kv.1 = Some kv.2)) pattern.

(** [preset_mode] *)
Definition preset_mode (tb : Tables) (st : Status) : option string :=
  fst <$> find (λ kp, matches (REPLACE_PRESET tb) st kp.2) (_available_preset_modes tb).

(** [speed_count] *)
Definition speed_count (tb : Tables) : nat := length (_speeds tb).

Section WithFramework.

(** [homeassistant.util.percentage.ordered_list_item_to_percentage], a
    function of the host framework. *)
Context (ordered_list_item_to_percentage : list string → string → Result Z).

(** [percentage] *)
Definition percentage (tb : Tables) (st : Status) : Result (option Z) :=
  match find (λ kp, matches (REPLACE_SPEED tb) st kp.2) (_available_speeds tb) with
  | Some (speed, _) =>
      match ordered_list_item_to_percentage (_speeds tb) speed with
      | Ok p => Ok (Some p)
      | Raise e => Raise e
      end
  | None => Ok None
  end.

End WithFramework.

(** [oscillating] *)
Definition oscillating (fan : Fan.FanBase) (st : Status) : option bool :=
  match Fan.KEY_OSCILLATION fan with
  | None => None
  | Some (key, on, _) =>
      match st !! key with
      | None => None
      | Some status =>
          match on with
          | Fan.OnInt z => Some (bool_decide (status = VInt z))
          | Fan.OnList l => Some (bool_decide (status ∈ l))
          end
      end
  end.

End Entity.

(** ** [fan.py] and the constructors of [philips.py] *)

Module Platform.

(** The truth value Python gives a status value. *)
Definition truthy (v : Value) : bool :=
  match v with
  | VStr s => negb (bool_decide (s = ""))
  | VInt z => negb (bool_decide (z = 0%Z))
  end.

(** [list(filter(None, map(status.get, keys)))[0]] *)
Definition first_truthy (st : Status) (keys : list string) : Result Value :=
  match filter (λ v, truthy v = true) (omap (λ k, st !! k) keys) with
  | v :: _ => Ok v
  | [] => Raise IndexError
  end.

(** [DeviceInfo(...)] as [PhilipsGenericFan.__init__] fills it. *)
Record DeviceInfo : Type := mkDeviceInfo {
  name : Value;
  manufacturer : string;
  model : Value;
  sw_version : Value;
  serial_number : Value;
  identifiers : string * Value;
  connections : option string;
}.

(** The attributes [PhilipsGenericFan.__init__] sets. *)
Record GenericFan : Type := mkGenericFan {
  _attr_name : Value;
  _attr_unique_id : string;
  _attr_device_info : DeviceInfo;
}.

(** What a model class contributes: the tables found along its hierarchy
    and its replacement pairs. *)
Record ModelClass : Type := mkModelClass {
  preset_tables : list (list (string * Entity.Pattern));
  speed_tables : list (list (string * Entity.Pattern));
  replace_preset : option (string * string);
  replace_speed : option (string * string);
}.

(** An instance of a model class. *)
Record FanEntity : Type := mkFanEntity {
  generic : GenericFan;
  tables : Entity.Tables;
}.

Section WithConstants.

(** Constants of [const.py], which is not part of the sources at hand:
    [PhilipsApi.NAME], [NEW_NAME], [NEW2_NAME], [MODEL_ID], [NEW_MODEL_ID],
    [NEW2_MODEL_ID], [DEVICE_ID], and [MANUFACTURER] and [DOMAIN]. *)
Context (NAME NEW_NAME NEW2_NAME MODEL_ID NEW_MODEL_ID NEW2_MODEL_ID DEVICE_ID : string).
Context (MANUFACTURER DOMAIN : string).

(** [homeassistant.util.slugify], a function of the host framework. *)
Context (slugify : string → string).

(** [PhilipsGenericFan.__init__]; [st] is [self._device_status]. *)
Definition GenericFan__init__ (di : Setup.DeviceInformation) (st : Status)
    : Ended GenericFan :=
  match first_truthy st [NAME; NEW_NAME; NEW2_NAME] with
  | Raise e => Failed (Exception e)
  | Ok attr_name =>
      let unique_id := (slugify (Setup.di_device_id di) ++ "_fan")%string in
      match first_truthy st [MODEL_ID; NEW_MODEL_ID; NEW2_MODEL_ID] with
      | Raise e => Failed (Exception e)
      | Ok model_id =>
          match st !! "WifiVersion" with
          | None => Failed (KeyError "WifiVersion")
          | Some wifi =>
              match st !! DEVICE_ID with
              | None => Failed (KeyError DEVICE_ID)
              | Some device_id =>
                  Returned
                    {| _attr_name := attr_name;
                       _attr_unique_id := unique_id;
                       _attr_device_info :=
                         {| name := attr_name;
                            manufacturer := MANUFACTURER;
                            model := model_id;
                            sw_version := wifi;
                            serial_number := device_id;
                            identifiers := (DOMAIN, device_id);
                            connections := Setup.di_mac di |} |}
              end
          end
      end
  end.

(** [PhilipsGenericCoAPFanBase.__init__] for an instance of [cls]. *)
Definition CoAPFanBase__init__ (cls : ModelClass) (di : Setup.DeviceInformation)
    (st : Status) : Ended FanEntity :=
  match GenericFan__init__ di st with
  | Failed f => Failed f
  | Returned g =>
      Returned
        {| generic := g;
           tables :=
             {| Entity.REPLACE_PRESET := replace_preset cls;
                Entity.REPLACE_SPEED := replace_speed cls;
                Entity._available_preset_modes := Entity.collect (preset_tables cls);
                Entity._available_speeds := Entity.collect (speed_tables cls) |} |}
  end.

(** [fan.py]: [async_setup_entry(hass, entry, async_add_entities)] with the
    dict [model_to_class]; the result is the entities added (none when
    [async_add_entities] is not called). *)
Definition async_setup_entry (model_to_class : list (string * ModelClass))
    (entry : Setup.ConfigEntry) (data : gmap string Setup.ConfigEntryData)
    : Ended (list FanEntity) :=
  match data !! Setup.entry_id entry with
  | None => Failed (KeyError (Setup.entry_id entry))
  | Some config_entry_data =>
      let di := Setup.device_information config_entry_data in
      match Dict.get (Setup.di_model di) model_to_class with
      | Some model_class =>
          match CoAPFanBase__init__ model_class di
                  (status (Setup.coordinator config_entry_data)) with
          | Returned fan_entity => Returned [fan_entity]
          | Failed f => Failed f
          end
      | None => Returned []
      end
  end.

(** The status holds what the constructor reads: a name and a model id
    under one of their three keys each, the wifi version and the device
    id. *)
Definition has_truthy (st : Status) (keys : list string) : Prop :=
  ∃ k v, k ∈ keys ∧ st !! k = Some v ∧ truthy v = true.

Definition complete (st : Status) : Prop :=
  has_truthy st [NAME; NEW_NAME; NEW2_NAME]
  ∧ has_truthy st [MODEL_ID; NEW_MODEL_ID; NEW2_MODEL_ID]
  ∧ is_Some (st !! "WifiVersion")
  ∧ is_Some (st !! DEVICE_ID).

End WithConstants.

End Platform.

(** ** [philips.py]: [extra_state_attributes] *)

Module Attributes.

(** What a value map holds for a value: a plain value, or a tuple, of which
    the first item is shown. *)
Inductive Mapped : Type :=
| Plain (v : Value)
| Tuple (items : list Value).

(** The optional third item of an entry of [AVAILABLE_ATTRIBUTES]: nothing,
    a dict, or a callable taking the value and the status. *)
Inductive ValueMap : Type :=
| NoMap
| MapDict (d : list (Value * Mapped))
| MapCallable (f : Value → Status → Result Value).

(** An entry of [AVAILABLE_ATTRIBUTES]: [(key, philips_key, *rest)]. *)
Abbreviation Attribute := (string * string * ValueMap)%type.

(** [_collect_available_attributes]: the lists of the classes of
    [reversed(self.__class__.__mro__)], one after the other. *)
Definition _collect_available_attributes (class_attributes : list (list Attribute))
    : list Attribute :=
  concat class_attributes.

(** [philips_key.partition("#")[0]] *)
Definition partition_head (philips_key : string) : string :=
  match String.index 0 "#" philips_key with
  | Some n => String.substring 0 n philips_key
  | None => philips_key
  end.

(** The value [append] stores for [value], the value of the status under
    the cleaned key. *)
Definition shown (value_map : ValueMap) (value : Value) (st : Status) : Result Value :=
  match value_map with
  | MapDict d =>
      if bool_decide (is_Some (Dict.get value d)) then
        match default (Plain (VStr "unknown")) (Dict.get value d) with
        | Plain v => Ok v
        | Tuple (v :: _) => Ok v
        | Tuple [] => Raise IndexError
        end
      else Ok value
  | MapCallable f => f value st
  | NoMap => Ok value
  end.

(** The local function [append] of [extra_state_attributes]; the dict
    [attributes] it updates is passed and given back. *)
Definition append (st : Status) (attributes : list (string * Value))
    (key philips_key : string) (value_map : ValueMap)
    : Result (list (string * Value)) :=
  let philips_clean_key := partition_head philips_key in
  match st !! philips_clean_key with
  | Some value =>
      match shown value_map value st with
      | Ok value' => Ok (Dict.setitem key value' attributes)
      | Raise e => Raise e
      end
  | None => Ok attributes
  end.

(** The loop of [extra_state_attributes] over [self._available_attributes]. *)
Fixpoint append_all (st : Status) (available : list Attribute)
    (device_attributes : list (string * Value)) : Result (list (string * Value)) :=
  match available with
  | [] => Ok device_attributes
  | (key, philips_key, value_map) :: rest =>
      match append st device_attributes key philips_key value_map with
      | Ok device_attributes' => append_all st rest device_attributes'
      | Raise e => Raise e
      end
  end.

(** [extra_state_attributes]; [st] is [self._device_status]. *)
Definition extra_state_attributes (st : Status) (_available_attributes : list Attribute)
    : Result (list (string * Value)) :=
  append_all st _available_attributes [].

End Attributes.

(** ** More concrete surroundings *)

Module Samples.

(** The device answers at once with session 7; the platforms load. *)
Definition welcoming : Setup.SetupEnvironment :=
  {| Setup.async_get_mac_address_from_host := λ _, Some "aa:bb:cc:dd:ee:ff";
     Setup.create_within := λ _ _, Some (Ok 7);
     Setup.async_forward_entry_setups := Ok tt |}.

(** The device refuses the session at once. *)
Definition unreachable : Setup.SetupEnvironment :=
  {| Setup.async_get_mac_address_from_host := λ _, None;
     Setup.create_within := λ _ _, Some (Raise (DeviceError 3));
     Setup.async_forward_entry_setups := Ok tt |}.

(** Every platform unloads and the client shuts down. *)
Definition orderly : Unload.UnloadEnvironment :=
  {| Unload.async_forward_entry_unload := λ _, Ok true;
     Unload.device := Examples.calm |}.

(** Every platform answers that it did not unload; the client shuts down. *)
Definition reluctant : Unload.UnloadEnvironment :=
  {| Unload.async_forward_entry_unload := λ _, Ok false;
     Unload.device := Examples.calm |}.

(** Every platform unloads, but the client fails to shut down. *)
Definition stuck : Unload.UnloadEnvironment :=
  {| Unload.async_forward_entry_unload := λ _, Ok true;
     Unload.device :=
       mkEnvironment (λ _, Raise (DeviceError 4)) (λ _, Ok 1) (λ _ _ _, Ok tt)
         (λ _ _, Ok tt) (λ _ _, Ok tt) (λ _ _, Ok tt) |}.

(** The preset tables of a part of the hierarchy of [philips.py]:
    [PhilipsAC2936(PhilipsAC29xx)], [PhilipsAC29xx(PhilipsGenericCoAPFan)],
    [PhilipsGenericCoAPFan(PhilipsGenericCoAPFanBase)].  The class
    [PhilipsAC2936] assigns no table of its own. *)
Definition preset_modes_of (c : string) : option (list (string * Entity.Pattern)) :=
  if decide (c = "PhilipsAC29xx") then
    Some [("auto", [("pwr", VStr "1"); ("mode", VStr "AG")]);
          ("sleep", [("pwr", VStr "1"); ("mode", VStr "S")]);
          ("turbo", [("pwr", VStr "1"); ("mode", VStr "T")])]
  else if decide (c = "PhilipsGenericCoAPFan") then Some []
  else if decide (c = "PhilipsGenericCoAPFanBase") then Some []
  else None.

Definition mro_of (c : string) : list string :=
  if decide (c = "PhilipsAC2936") then
    ["PhilipsAC2936"; "PhilipsAC29xx"; "PhilipsGenericCoAPFan";
     "PhilipsGenericCoAPFanBase"; "object"]
  else if decide (c = "PhilipsAC29xx") then
    ["PhilipsAC29xx"; "PhilipsGenericCoAPFan"; "PhilipsGenericCoAPFanBase"; "object"]
  else if decide (c = "PhilipsGenericCoAPFan") then
    ["PhilipsGenericCoAPFan"; "PhilipsGenericCoAPFanBase"; "object"]
  else if decide (c = "PhilipsGenericCoAPFanBase") then
    ["PhilipsGenericCoAPFanBase"; "object"]
  else [c].

(** A hierarchy of the shape of
    [PhilipsAC2729(PhilipsHumidifierMixin, PhilipsGenericCoAPFan)], with
    tables that make the order of the merge visible: the model and the
    generic class assign a table, the mixin does not. *)
Definition diamond_tables (c : string) : option (list (string * Entity.Pattern)) :=
  if decide (c = "Model") then Some [("auto", [("mode", VStr "P")])]
  else if decide (c = "Generic") then Some [("sleep", [("mode", VStr "S")])]
  else if decide (c = "Base") then Some [("sleep", [("mode", VStr "N")])]
  else None.

Definition diamond_mro (c : string) : list string :=
  if decide (c = "Model") then ["Model"; "Mixin"; "Generic"; "Base"; "object"]
  else if decide (c = "Mixin") then ["Mixin"; "Base"; "object"]
  else if decide (c = "Generic") then ["Generic"; "Base"; "object"]
  else if decide (c = "Base") then ["Base"; "object"]
  else [c].

(** The tables of a purifier with two automatic modes and one manual speed,
    and the entity built on them, which can oscillate. *)
Definition tables : Entity.Tables :=
  {| Entity.REPLACE_PRESET := None;
     Entity.REPLACE_SPEED := None;
     Entity._available_preset_modes :=
       [("auto", [("mode", VStr "P")]);
        ("allergen", [("mode", VStr "A")]);
        ("speed 1", [("mode", VStr "M"); ("om", VStr "1")])];
     Entity._available_speeds :=
       [("speed 1", [("mode", VStr "M"); ("om", VStr "1")])] |}.

(** The classes of two models, one of them with tables of its own. *)
Definition model_to_class : list (string * Platform.ModelClass) :=
  [("AC2729",
    {| Platform.preset_tables :=
         [[]; [("auto", [("mode", VStr "P")]); ("allergen", [("mode", VStr "A")])]];
       Platform.speed_tables := [[]; [("speed 1", [("mode", VStr "M"); ("om", VStr "1")])]];
       Platform.replace_preset := None;
       Platform.replace_speed := None |});
   ("AC0850",
    {| Platform.preset_tables := [[]];
       Platform.speed_tables := [[]];
       Platform.replace_preset := None;
       Platform.replace_speed := None |})].

(** A status that holds what the constructor of the entity reads. *)
Definition full_status : Status :=
  {[ "name" := VStr "bedroom"; "modelid" := VStr "AC2729/10";
     "WifiVersion" := VStr "AWS_Philips_AIR@62.1"; "DeviceId" := VStr "d-17";
     "pwr" := VStr "1" ]}.

Definition full_entry : Setup.ConfigEntry :=
  {| Setup.entry_id := "entry-2";
     Setup.CONF_HOST := "192.168.0.18";
     Setup.CONF_MODEL := "AC2729";
     Setup.CONF_NAME := "bedroom";
     Setup.CONF_DEVICE_ID := "d-17";
     Setup.CONF_STATUS := full_status |}.

(** Attributes of two classes: plain ones, one with a dict, one with a
    callable, and one whose key carries a suffix. *)
Definition attributes : list Attributes.Attribute :=
  Attributes._collect_available_attributes
    [[("name", "name", Attributes.NoMap);
      ("preferred_index", "ddp",
       Attributes.MapDict
         [(VStr "0", Attributes.Tuple [VStr "Indoor Allergen Index"; VStr "mdi:blur"]);
          (VStr "1", Attributes.Plain (VStr "PM2.5"))]);
      ("runtime", "Runtime", Attributes.MapCallable (λ v _, Ok v))];
     [("filter", "fltsts0#1", Attributes.NoMap);
      ("error", "err", Attributes.NoMap)]].

Definition attribute_status : Status :=
  {[ "name" := VStr "bedroom"; "ddp" := VStr "0"; "Runtime" := VInt 3600000;
     "fltsts0" := VInt 120 ]}.

Definition swinging : Fan.FanBase :=
  Entity.fan_base 0 "pwr" (VStr "1") (VStr "0")
    (Some ("osc", Fan.OnList [VInt 17920; VInt 17922], VInt 0)) tables.

End Samples.

(** * Properties *)

(** ** Running the monad *)

Ltac run_m :=
  unfold result_of, world_of, trace_of, mbind, M_bind, bind, mret, M_ret, ret, raise,
    get_self, set_self, modify, emit, lift, suppress, try_except, Loop.get_world in *;
  simpl in *.

Lemma bind_lift_ok {A B} (a : A) (k : A → M B) (w : World) :
  (lift (Ok a) ≫= k) w = k a w.
Proof. run_m. by destruct (k a w) as [[r w2] t2]. Qed.

Lemma bind_lift_raise {A B} (e : Exn) (k : A → M B) (w : World) :
  (lift (Raise e) ≫= k) w = (Raise e, w, []).
Proof. done. Qed.

Lemma list_remove_None {A} `{EqDecision A} (x : A) (l : list A) :
  list_remove x l = None ↔ x ∉ l.
Proof.
  induction l as [|y l IH]; simpl.
  - split; [intros _; apply not_elem_of_nil | done].
  - destruct (decide (x = y)) as [->|Hne].
    + split; [done | intros Hn; exfalso; apply Hn; left].
    + destruct (list_remove x l) eqn:E.
      * split; [done |]. intros Hn. exfalso.
        assert (x ∉ l) as Hl by (intros Hin; apply Hn; by right).
        apply IH in Hl. done.
      * split; [| done]. intros _ Hin.
        apply elem_of_cons in Hin as [?|Hin]; [done |].
        by apply (proj1 IH).
Qed.

Lemma async_remove_listener_absent (w : World) (cb : Callback) :
  cb ∉ _listeners (self w) →
  Coordinator.async_remove_listener cb w = (Raise ValueError, w, []).
Proof.
  intros Hn. apply list_remove_None in Hn.
  unfold Coordinator.async_remove_listener. run_m. by rewrite Hn.
Qed.

(** C4, as the code has it: removing a callback that is not registered raises
    [ValueError]; the registry, the observation task and the rest of the
    world are left as they were. *)
Theorem remove_absent_listener_raises (w : World) (cb : Callback) :
  cb ∉ _listeners (self w) →
  result_of (Coordinator.async_remove_listener cb w) = Raise ValueError
  ∧ _listeners (self (world_of (Coordinator.async_remove_listener cb w)))
    = _listeners (self w)
  ∧ world_of (Coordinator.async_remove_listener cb w) = w.
Proof. intros Hn. by rewrite (async_remove_listener_absent w cb Hn). Qed.

Lemma remove_absent_listener_raises_witness :
  result_of (Coordinator.async_remove_listener (Foreign 4) Examples.crowded)
  = Raise ValueError
  ∧ _listeners (self (world_of (Coordinator.async_remove_listener (Foreign 4)
                                   Examples.crowded)))
    = _listeners (self Examples.crowded)
  ∧ world_of (Coordinator.async_remove_listener (Foreign 4) Examples.crowded)
    = Examples.crowded.
Proof.
  apply (remove_absent_listener_raises Examples.crowded (Foreign 4)).
  vm_compute. intros Hin.
  repeat (apply elem_of_cons in Hin as [Hin|Hin]; [discriminate |]).
  by apply not_elem_of_nil in Hin.
Defined.

(** C4, as the claim states it, fails: on a coordinator that has just been
    built, removing a callback that was never added raises. *)
Lemma remove_absent_listener_counterexample :
  ¬ (∀ (w : World) (cb : Callback),
       cb ∉ _listeners (self w) →
       result_of (Coordinator.async_remove_listener cb w) = Ok tt
       ∧ _listeners (self (world_of (Coordinator.async_remove_listener cb w)))
         = _listeners (self w)).
Proof.
  intros H.
  destruct (H Examples.purifier (Foreign 0)) as [Hr _].
  - vm_compute. apply not_elem_of_nil.
  - vm_compute in Hr. discriminate.
Qed.

(** ** The fan-out to the listeners *)

(** The world after a callback has been called: an entity's handler stores
    the snapshot in [latest_status]. *)
Lemma invoke_run (env : Environment) (cb : Callback) (w : World) :
  ∃ w', Coordinator.invoke env cb w
        = (callback_result env cb (status (self w)), w', [EvInvoke cb (status (self w))])
        ∧ self w' = self w ∧ tasks w' = tasks w.
Proof.
  destruct cb as [e|n]; unfold Coordinator.invoke, Coordinator._handle_coordinator_update;
    run_m.
  - destruct (async_write_ha_state env e (status (self w))); eauto.
  - destruct (foreign_callback env n (status (self w))); eauto.
Qed.

(** The [for] loop over the registry: the callbacks are called in the order
    of the list, up to and including the first one that raises. *)
Lemma for_each_invoke (env : Environment) (l : list Callback) (w : World) :
  let o := for_each l (Coordinator.invoke env) w in
  let st := status (self w) in
  self (world_of o) = self w
  ∧ tasks (world_of o) = tasks w
  ∧ ((result_of o = Ok tt
      ∧ trace_of o = map (λ cb, EvInvoke cb st) l
      ∧ Forall (λ cb, callback_result env cb st = Ok tt) l)
     ∨ (∃ pre cb post e,
          l = pre ++ cb :: post
          ∧ Forall (λ c, callback_result env c st = Ok tt) pre
          ∧ callback_result env cb st = Raise e
          ∧ result_of o = Raise e
          ∧ trace_of o = map (λ c, EvInvoke c st) (pre ++ [cb]))).
Proof.
  revert w. induction l as [|cb l IH]; intros w; simpl.
  - run_m. split; [done |]. split; [done |]. left. by repeat split.
  - destruct (invoke_run env cb w) as (w1 & Hrun & Hself & Htasks).
    specialize (IH w1). simpl in IH. rewrite Hself in IH.
    unfold mbind, M_bind, bind. rewrite Hrun.
    destruct (callback_result env cb (status (self w))) as [[]|e] eqn:Hcb.
    + destruct (for_each l (Coordinator.invoke env) w1) as [[r w2] t2] eqn:Hrest.
      unfold result_of, world_of, trace_of in *. simpl in *.
      destruct IH as (Hs & Ht & IH). split; [congruence |]. split; [congruence |].
      destruct IH as [(Hr & Htr & Hall)|(pre & c & post & e & Hl & Hpre & Hc & Hr & Htr)].
      * left. subst. split; [done |]. split; [done |]. by constructor.
      * right. exists (cb :: pre), c, post, e. subst.
        split; [done |]. split; [by constructor |]. by repeat split.
    + unfold result_of, world_of, trace_of. simpl.
      split; [done |]. split; [done |]. right.
      exists [], cb, l, e. by repeat split.
Qed.

Lemma invoked_map (st : Status) (l : list Callback) :
  invoked (map (λ cb, EvInvoke cb st) l) = l.
Proof. induction l as [|cb l IH]; simpl; [done | by rewrite IH]. Qed.

(** With callables that only answer, the loop visits the registry as it was
    when the loop started. *)
Lemma notify_invoke (env : Environment) (bound position : nat) (w : World) :
  length (_listeners (self w)) ≤ bound + position →
  Coordinator.notify (Coordinator.invoke env) bound position w
  = for_each (drop position (_listeners (self w))) (Coordinator.invoke env) w.
Proof.
  revert position w. induction bound as [|bound IH]; intros position w Hlen; simpl.
  - by rewrite drop_ge by lia.
  - unfold mbind, M_bind, bind, get_self. simpl.
    destruct (_listeners (self w) !! position) as [cb|] eqn:Hcb.
    + rewrite (drop_S _ _ _ Hcb). simpl. unfold mbind, M_bind, bind.
      destruct (invoke_run env cb w) as (w1 & Hrun & Hself & _). rewrite Hrun.
      destruct (callback_result env cb (status (self w))) as [[]|e]; [| done].
      rewrite IH by (rewrite Hself; lia). rewrite Hself.
      by destruct (for_each _ _ w1) as [[r w2] t2].
    + apply lookup_ge_None in Hcb. by rewrite drop_ge by lia.
Qed.

Lemma observe_body_run (env : Environment) (s : Status) (w : World) :
  Coordinator.observe_body env s w
  = for_each (_listeners (self w)) (Coordinator.invoke env) (upd_self (with_status s) w).
Proof.
  unfold Coordinator.observe_body, Coordinator.observe_round. run_m.
  rewrite notify_invoke by (simpl; lia). simpl.
  by destruct (for_each _ _ _) as [[[[]|e] w1] t1].
Qed.

(** A raising callback splits the list at the first place where a callback
    raises, and that place is unique. *)
Lemma first_fault_unique (env : Environment) (st : Status)
    (pre1 pre2 post1 post2 : list Callback) (c1 c2 : Callback) (e1 e2 : Exn) :
  pre1 ++ c1 :: post1 = pre2 ++ c2 :: post2 →
  Forall (λ c, callback_result env c st = Ok tt) pre1 →
  Forall (λ c, callback_result env c st = Ok tt) pre2 →
  callback_result env c1 st = Raise e1 →
  callback_result env c2 st = Raise e2 →
  pre1 = pre2 ∧ c1 = c2 ∧ post1 = post2 ∧ e1 = e2.
Proof.
  revert pre2. induction pre1 as [|a pre1 IH]; intros [|b pre2] Heq H1 H2 Hc1 Hc2;
    simpl in Heq; inversion Heq; subst.
  - rewrite Hc1 in Hc2. by inversion Hc2.
  - inversion H2; subst. congruence.
  - inversion H1; subst. congruence.
  - inversion H1; inversion H2; subst.
    destruct (IH pre2) as (-> & -> & -> & ->); done.
Qed.

Lemma observe_body_ok (env : Environment) (s : Status) (w : World) :
  Forall (λ cb, callback_result env cb s = Ok tt) (_listeners (self w)) →
  ∃ w', Coordinator.observe_body env s w
        = (Ok tt, w', map (λ cb, EvInvoke cb s) (_listeners (self w)))
        ∧ self w' = with_status s (self w) ∧ tasks w' = tasks w.
Proof.
  intros Hall. rewrite observe_body_run.
  pose proof (for_each_invoke env (_listeners (self w)) (upd_self (with_status s) w)) as H.
  cbv zeta in H.
  destruct (for_each _ _ _) as [[r w1] t1].
  unfold result_of, world_of, trace_of in *. simpl in *.
  destruct H as (Hs & Ht & H). exists w1.
  destruct H as [(-> & -> & _)|(pre & c & post & e & Hl & _ & Hc & _ & _)]; [done |].
  rewrite Hl in Hall. apply Forall_app in Hall as [_ Hall].
  inversion Hall; subst. congruence.
Qed.

(** The rounds of the loop do not overlap: over a stream whose snapshots
    no callback objects to, the calls are the registry once per snapshot, in
    the order of the stream, and the last snapshot is the one that stays. *)
Lemma observe_stream_rounds (env : Environment) (stream : list Status) (w : World) :
  Forall (λ s, Forall (λ cb, callback_result env cb s = Ok tt) (_listeners (self w)))
    stream →
  let o := Coordinator._async_observe_status env stream w in
  result_of o = Ok tt
  ∧ trace_of o
    = concat (map (λ s, map (λ cb, EvInvoke cb s) (_listeners (self w))) stream)
  ∧ status (self (world_of o)) = default (status (self w)) (last stream)
  ∧ _listeners (self (world_of o)) = _listeners (self w).
Proof.
  revert w. induction stream as [|s rest IH]; intros w Hall; cbv zeta.
  - by simpl.
  - apply Forall_cons in Hall as [Hs Hrest].
    destruct (observe_body_ok env s w Hs) as (w1 & Hrun & Hself & _).
    simpl Coordinator._async_observe_status. unfold mbind, M_bind, bind. rewrite Hrun.
    specialize (IH w1). cbv zeta in IH. rewrite Hself in IH. simpl in IH.
    specialize (IH Hrest).
    destruct (Coordinator._async_observe_status env rest w1) as [[r w2] t2].
    unfold result_of, world_of, trace_of in *. simpl in *.
    destruct IH as (Hr & Ht & Hst & Hls). subst r t2.
    split; [done |]. split; [done |]. split; [| done].
    rewrite Hst. destruct rest as [|a r]; [done |].
    change (last (s :: a :: r)) with (last (a :: r)).
    destruct (last (a :: r)) eqn:E; [done |]. by apply last_None in E.
Qed.

Lemma observe_body_fault (env : Environment) (s : Status) (w : World)
    (pre post : list Callback) (cb : Callback) (e : Exn) :
  _listeners (self w) = pre ++ cb :: post →
  Forall (λ c, callback_result env c s = Ok tt) pre →
  callback_result env cb s = Raise e →
  ∃ w', Coordinator.observe_body env s w
        = (Raise e, w', map (λ c, EvInvoke c s) (pre ++ [cb]))
        ∧ self w' = with_status s (self w) ∧ tasks w' = tasks w.
Proof.
  intros Hl Hpre Hcb. rewrite observe_body_run.
  pose proof (for_each_invoke env (_listeners (self w)) (upd_self (with_status s) w)) as H.
  cbv zeta in H.
  destruct (for_each _ _ _) as [[r w1] t1].
  unfold result_of, world_of, trace_of in *. simpl in *.
  destruct H as (Hs & Ht & H). exists w1.
  destruct H as [(_ & _ & Hall)|(pre' & c' & post' & e' & Hl' & Hpre' & Hc' & Hr & Htr)].
  - rewrite Hl in Hall. apply Forall_app in Hall as [_ Hall].
    inversion Hall; subst. congruence.
  - rewrite Hl in Hl'.
    destruct (first_fault_unique env s pre pre' post post' cb c' e e')
      as (-> & -> & -> & ->); try done.
    by subst.
Qed.

Lemma lookup_finish_in (t : TaskId) (ts : list Task) (c : Coro) :
  Loop.active_coro ts t = Some c →
  finish_in t ts !! t = Some (mkTask c Finished).
Proof.
  unfold Loop.active_coro, finish_in. destruct (ts !! t) as [tk|] eqn:E; [| done].
  destruct (state tk); intros [= <-]; try done.
  apply list_lookup_insert_eq. by eapply lookup_lt_Some.
Qed.

(** C3, as the code has it: when a registered callback raises while a
    snapshot is fanned out, the callbacks registered before it have been
    called and those after it are not called for that snapshot; the stored
    status has been replaced already, and the exception ends the
    observation task, so the loop does not go on to the snapshots that
    follow. *)
Theorem listener_fault_ends_round_and_task
    (env : Environment) (t : TaskId) (s : Status) (rest : list Status) (w : World)
    (pre post : list Callback) (cb : Callback) (e : Exn) :
  Loop.active_coro (tasks w) t = Some ObserveStatus →
  _listeners (self w) = pre ++ cb :: post →
  Forall (λ c, callback_result env c s = Ok tt) pre →
  callback_result env cb s = Raise e →
  let o := Loop.on_snapshot env t s w in
  let loop := Coordinator._async_observe_status env (s :: rest) w in
  status (self (world_of o)) = s
  ∧ invoked (trace_of o) = pre ++ [cb]
  ∧ tasks (world_of o) !! t = Some (mkTask ObserveStatus Finished)
  ∧ result_of loop = Raise e
  ∧ trace_of loop = map (λ c, EvInvoke c s) (pre ++ [cb]).
Proof.
  intros Hact Hl Hpre Hcb.
  destruct (observe_body_fault env s w pre post cb e Hl Hpre Hcb)
    as (w1 & Hrun & Hself & Htasks).
  cbv zeta. unfold Loop.on_snapshot. simpl Coordinator._async_observe_status.
  run_m. rewrite Hact, Hrun. simpl. rewrite Hself, Htasks. simpl.
  rewrite app_nil_r, invoked_map.
  split; [done |]. split; [done |]. split; [| done].
  by apply lookup_finish_in.
Qed.

Lemma listener_fault_ends_round_and_task_witness :
  let o := Loop.on_snapshot Examples.faulty 0 Examples.status_A Examples.crowded in
  let loop := Coordinator._async_observe_status Examples.faulty
                [Examples.status_A; Examples.status_P] Examples.crowded in
  status (self (world_of o)) = Examples.status_A
  ∧ invoked (trace_of o) = [Foreign 0] ++ [Foreign 1]
  ∧ tasks (world_of o) !! 0 = Some (mkTask ObserveStatus Finished)
  ∧ result_of loop = Raise (DeviceError 7)
  ∧ trace_of loop = map (λ c, EvInvoke c Examples.status_A) ([Foreign 0] ++ [Foreign 1]).
Proof.
  apply (listener_fault_ends_round_and_task Examples.faulty 0 Examples.status_A
           [Examples.status_P] Examples.crowded [Foreign 0] [Foreign 2] (Foreign 1)
           (DeviceError 7)).
  - reflexivity.
  - reflexivity.
  - repeat constructor.
  - reflexivity.
Defined.

(** C3, as the claim states it, fails: with three listeners of which the
    second raises, the third is not called and the observation task is no
    longer active. *)
Lemma listener_fault_counterexample :
  ¬ (∀ (env : Environment) (t : TaskId) (s : Status) (w : World) (cb : Callback) (e : Exn),
       Loop.active_coro (tasks w) t = Some ObserveStatus →
       cb ∈ _listeners (self w) →
       callback_result env cb s = Raise e →
       let o := Loop.on_snapshot env t s w in
       (∀ cb', cb' ∈ _listeners (self w) → cb' ∈ invoked (trace_of o))
       ∧ Loop.active_coro (tasks (world_of o)) t = Some ObserveStatus).
Proof.
  intros H.
  destruct (H Examples.faulty 0 Examples.status_A Examples.crowded (Foreign 1)
              (DeviceError 7)) as [_ Hloop].
  - reflexivity.
  - vm_compute. repeat constructor.
  - reflexivity.
  - vm_compute in Hloop. discriminate.
Qed.

(** ** The task table *)

Lemma length_cancel_in (t : TaskId) (ts : list Task) :
  length (cancel_in t ts) = length ts.
Proof.
  unfold cancel_in. destruct (ts !! t) as [tk|]; [| done].
  destruct (state tk); try done. apply length_insert.
Qed.

Lemma length_cancel_opt (o : option TaskId) (ts : list Task) :
  length (cancel_opt o ts) = length ts.
Proof. destruct o; [apply length_cancel_in | done]. Qed.

Lemma active_coro_cancel_in (t t' : TaskId) (ts : list Task) :
  Loop.active_coro (cancel_in t ts) t'
  = if decide (t' = t) then None else Loop.active_coro ts t'.
Proof.
  unfold cancel_in, Loop.active_coro.
  destruct (decide (t' = t)) as [->|Hne].
  - destruct (ts !! t) as [tk|] eqn:E; [| by rewrite E].
    destruct (state tk) eqn:Es; try (by rewrite E, Es).
    rewrite list_lookup_insert_eq by (by eapply lookup_lt_Some). done.
  - destruct (ts !! t) as [tk|] eqn:E; [| done].
    destruct (state tk); try done.
    by rewrite list_lookup_insert_ne.
Qed.

Lemma kind_of_cancel_in (t t' : TaskId) (ts : list Task) :
  kind_of (cancel_in t ts) t' = kind_of ts t'.
Proof.
  unfold cancel_in, kind_of.
  destruct (ts !! t) as [tk|] eqn:E; [| done].
  destruct (state tk); try done.
  destruct (decide (t = t')) as [<-|Hne].
  - rewrite list_lookup_insert_eq by (by eapply lookup_lt_Some). by rewrite E.
  - by rewrite list_lookup_insert_ne.
Qed.

Lemma active_coro_finish_in (t t' : TaskId) (ts : list Task) :
  Loop.active_coro (finish_in t ts) t'
  = if decide (t' = t) then None else Loop.active_coro ts t'.
Proof.
  unfold finish_in, Loop.active_coro.
  destruct (decide (t' = t)) as [->|Hne].
  - destruct (ts !! t) as [tk|] eqn:E; [| by rewrite E].
    rewrite list_lookup_insert_eq by (by eapply lookup_lt_Some). done.
  - destruct (ts !! t) as [tk|] eqn:E; [| done].
    by rewrite list_lookup_insert_ne.
Qed.

Lemma kind_of_finish_in (t t' : TaskId) (ts : list Task) :
  kind_of (finish_in t ts) t' = kind_of ts t'.
Proof.
  unfold finish_in, kind_of.
  destruct (ts !! t) as [tk|] eqn:E; [| done].
  destruct (decide (t = t')) as [<-|Hne].
  - rewrite list_lookup_insert_eq by (by eapply lookup_lt_Some). by rewrite E.
  - by rewrite list_lookup_insert_ne.
Qed.

Lemma active_coro_Some_lt (ts : list Task) (t : TaskId) (c : Coro) :
  Loop.active_coro ts t = Some c → t < length ts.
Proof.
  unfold Loop.active_coro. destruct (ts !! t) eqn:E; [| done].
  intros _. by eapply lookup_lt_Some.
Qed.

Lemma kind_of_Some_lt (ts : list Task) (t : TaskId) (c : Coro) :
  kind_of ts t = Some c → t < length ts.
Proof.
  unfold kind_of. destruct (ts !! t) eqn:E; [| done].
  intros _. by eapply lookup_lt_Some.
Qed.

Lemma active_coro_kind_of (ts : list Task) (t : TaskId) (c : Coro) :
  Loop.active_coro ts t = Some c → kind_of ts t = Some c.
Proof.
  unfold Loop.active_coro, kind_of. destruct (ts !! t) as [tk|]; [| done].
  destruct (state tk); simpl; congruence.
Qed.

Lemma active_coro_spawn (ts : list Task) (c : Coro) (t' : TaskId) :
  Loop.active_coro (ts ++ [mkTask c Active]) t'
  = if decide (t' = length ts) then Some c else Loop.active_coro ts t'.
Proof.
  unfold Loop.active_coro. destruct (decide (t' = length ts)) as [->|Hne].
  - by rewrite list_lookup_middle.
  - destruct (decide (t' < length ts)).
    + by rewrite lookup_app_l.
    + rewrite !lookup_ge_None_2; [done | lia |]. rewrite length_app. simpl. lia.
Qed.

Lemma kind_of_spawn (ts : list Task) (c : Coro) (t' : TaskId) :
  kind_of (ts ++ [mkTask c Active]) t'
  = if decide (t' = length ts) then Some c else kind_of ts t'.
Proof.
  unfold kind_of. destruct (decide (t' = length ts)) as [->|Hne].
  - by rewrite list_lookup_middle.
  - destruct (decide (t' < length ts)).
    + by rewrite lookup_app_l.
    + rewrite !lookup_ge_None_2; [done | lia |]. rewrite length_app. simpl. lia.
Qed.

Lemma active_coro_resuspend (ts : list Task) (t t' : TaskId) (c0 c : Coro) :
  Loop.active_coro ts t = Some c0 →
  Loop.active_coro (<[t := mkTask c Active]> ts) t'
  = if decide (t' = t) then Some c else Loop.active_coro ts t'.
Proof.
  intros H%active_coro_Some_lt. unfold Loop.active_coro.
  destruct (decide (t' = t)) as [->|Hne].
  - by rewrite list_lookup_insert_eq.
  - by rewrite list_lookup_insert_ne.
Qed.

Lemma kind_of_resuspend (ts : list Task) (t t' : TaskId) (c0 c : Coro) :
  Loop.active_coro ts t = Some c0 →
  kind_of (<[t := mkTask c Active]> ts) t'
  = if decide (t' = t) then Some c else kind_of ts t'.
Proof.
  intros H%active_coro_Some_lt. unfold kind_of.
  destruct (decide (t' = t)) as [->|Hne].
  - by rewrite list_lookup_insert_eq.
  - by rewrite list_lookup_insert_ne.
Qed.

(** ** Well-formed worlds *)

Lemma runs_true (kind : Coro → bool) (ts : list Task) (t : TaskId) :
  Loop.runs kind ts t = true ↔ ∃ c, Loop.active_coro ts t = Some c ∧ kind c = true.
Proof.
  unfold Loop.runs. destruct (Loop.active_coro ts t) as [c|].
  - split; [eauto | by intros (c' & [= <-] & H)].
  - split; [done | by intros (c' & [=] & _)].
Qed.

Lemma wf_kind_cancel_in (kind : Coro → bool) (ts : list Task) (f : option TaskId)
    (t : TaskId) :
  wf_kind kind ts f → wf_kind kind (cancel_in t ts) f.
Proof.
  intros [Hact Hfield]. split.
  - intros t' (c & Hc & Hk)%runs_true. rewrite active_coro_cancel_in in Hc.
    destruct (decide (t' = t)); [done |]. apply Hact, runs_true. eauto.
  - intros t' Ht'. rewrite kind_of_cancel_in. by apply Hfield.
Qed.

Lemma wf_kind_cancel_opt (kind : Coro → bool) (ts : list Task) (f o : option TaskId) :
  wf_kind kind ts f → wf_kind kind (cancel_opt o ts) f.
Proof. destruct o; [apply wf_kind_cancel_in | done]. Qed.

Lemma wf_kind_finish_in (kind : Coro → bool) (ts : list Task) (f : option TaskId)
    (t : TaskId) :
  wf_kind kind ts f → wf_kind kind (finish_in t ts) f.
Proof.
  intros [Hact Hfield]. split.
  - intros t' (c & Hc & Hk)%runs_true. rewrite active_coro_finish_in in Hc.
    destruct (decide (t' = t)); [done |]. apply Hact, runs_true. eauto.
  - intros t' Ht'. rewrite kind_of_finish_in. by apply Hfield.
Qed.

(** Cancelling the task the attribute names leaves no active task of the
    kind. *)
Lemma wf_kind_cancel_own (kind : Coro → bool) (ts : list Task) (f : option TaskId) :
  wf_kind kind ts f → ∀ t, Loop.runs kind (cancel_opt f ts) t = false.
Proof.
  intros [Hact _] t. destruct (Loop.runs kind (cancel_opt f ts) t) eqn:E; [| done].
  apply runs_true in E as (c & Hc & Hk). destruct f as [t0|]; simpl in Hc.
  - rewrite active_coro_cancel_in in Hc. destruct (decide (t = t0)) as [->|Hne]; [done |].
    assert (Some t0 = Some t) as [= ->] by (apply Hact, runs_true; eauto). done.
  - assert (None = Some t) by (apply Hact, runs_true; eauto). done.
Qed.

Lemma wf_kind_cancel_none (kind : Coro → bool) (ts : list Task) (f : option TaskId) :
  wf_kind kind ts f → wf_kind kind (cancel_opt f ts) None.
Proof.
  intros H. split; [| done].
  intros t Ht. by rewrite (wf_kind_cancel_own kind ts f H t) in Ht.
Qed.

Lemma wf_kind_cancel_spawn (kind : Coro → bool) (ts : list Task) (f : option TaskId)
    (c : Coro) :
  kind c = true →
  wf_kind kind ts f →
  wf_kind kind (cancel_opt f ts ++ [mkTask c Active]) (Some (length ts)).
Proof.
  intros Hk H. split.
  - intros t (c' & Hc & Hk')%runs_true. rewrite active_coro_spawn in Hc.
    rewrite length_cancel_opt in Hc.
    destruct (decide (t = length ts)) as [->|Hne]; [done |].
    assert (Loop.runs kind (cancel_opt f ts) t = true) as Hr by (apply runs_true; eauto).
    by rewrite (wf_kind_cancel_own kind ts f H t) in Hr.
  - intros t [= <-]. rewrite kind_of_spawn, length_cancel_opt.
    rewrite decide_True by done. simpl. by rewrite Hk.
Qed.

Lemma wf_kind_spawn_other (kind : Coro → bool) (ts : list Task) (f : option TaskId)
    (c : Coro) :
  kind c = false →
  wf_kind kind ts f →
  wf_kind kind (ts ++ [mkTask c Active]) f.
Proof.
  intros Hk [Hact Hfield]. split.
  - intros t (c' & Hc & Hk')%runs_true. rewrite active_coro_spawn in Hc.
    destruct (decide (t = length ts)) as [->|Hne]; [congruence |].
    apply Hact, runs_true. eauto.
  - intros t Ht. specialize (Hfield t Ht). rewrite kind_of_spawn.
    destruct (decide (t = length ts)) as [->|Hne]; [| done].
    destruct (kind_of ts (length ts)) as [c'|] eqn:E; [| done].
    apply kind_of_Some_lt in E. lia.
Qed.

Lemma wf_kind_resuspend (kind : Coro → bool) (ts : list Task) (f : option TaskId)
    (t : TaskId) (c0 c : Coro) :
  Loop.active_coro ts t = Some c0 →
  kind c = kind c0 →
  wf_kind kind ts f →
  wf_kind kind (<[t := mkTask c Active]> ts) f.
Proof.
  intros H0 Hk [Hact Hfield]. split.
  - intros t' (c' & Hc & Hk')%runs_true.
    rewrite (active_coro_resuspend ts t t' c0 c H0) in Hc.
    destruct (decide (t' = t)) as [->|Hne].
    + inversion Hc; subst. apply Hact, runs_true. exists c0. split; [done | congruence].
    + apply Hact, runs_true. eauto.
  - intros t' Ht'. specialize (Hfield t' Ht').
    rewrite (kind_of_resuspend ts t t' c0 c H0).
    destruct (decide (t' = t)) as [->|Hne]; [| done].
    rewrite (active_coro_kind_of ts t c0 H0) in Hfield. simpl in *. congruence.
Qed.

(** ** What the methods of the coordinator leave behind *)

Lemma _start_observing_run (w : World) :
  Coordinator._start_observing w
  = (Ok tt,
     {| self := with_task (Some (length (tasks w))) (self w);
        latest_status := latest_status w;
        tasks := cancel_opt (_task (self w)) (tasks w) ++ [mkTask ObserveStatus Active] |},
     []).
Proof.
  destruct w as [[cl h st ls [t|] rt to tm] lst ts];
    unfold Coordinator._start_observing, create_task, cancel_task; run_m;
    unfold upd_self, with_task, with_tasks; simpl.
  - by rewrite length_cancel_in.
  - done.
Qed.

Lemma reconnect_run (w : World) :
  Coordinator.reconnect w
  = (Ok tt,
     {| self := with_reconnect_task (Some (length (tasks w))) (self w);
        latest_status := latest_status w;
        tasks := cancel_opt (_reconnect_task (self w)) (tasks w)
                 ++ [mkTask ReconnectAtShutdown Active] |},
     [EvReconnectCalled]).
Proof.
  destruct w as [[cl h st ls t [rt|] to tm] lst ts];
    unfold Coordinator.reconnect, create_task, cancel_task; run_m;
    unfold upd_self, with_reconnect_task, with_tasks; simpl.
  - by rewrite length_cancel_in.
  - done.
Qed.

Lemma shutdown_run (env : Environment) (w : World) :
  Coordinator.shutdown env w
  = (match client (self w) with
     | Some cl => client_shutdown env cl
     | None => Ok tt
     end,
     {| self := with_timer (Timer.cancel (_timer_disconnected (self w))) (self w);
        latest_status := latest_status w;
        tasks := cancel_opt (_reconnect_task (self w)) (tasks w) |},
     match client (self w) with
     | Some cl => [EvClientShutdown cl]
     | None => []
     end).
Proof.
  destruct w as [[[cl|] h st ls t [rt|] to tm] lst ts];
    unfold Coordinator.shutdown, Coordinator.await_client_shutdown, cancel_task; run_m;
    unfold upd_self, with_timer, with_tasks; simpl; try done;
    by destruct (client_shutdown env cl) as [[]|].
Qed.

Lemma async_add_listener_run (cb : Callback) (w : World) :
  Coordinator.async_add_listener cb w
  = (Ok cb,
     match _listeners (self w) with
     | [] =>
         {| self := with_task (Some (length (tasks w)))
                      (with_listeners [cb] (self w));
            latest_status := latest_status w;
            tasks := cancel_opt (_task (self w)) (tasks w)
                     ++ [mkTask ObserveStatus Active] |}
     | _ :: _ => upd_self (with_listeners (_listeners (self w) ++ [cb])) w
     end,
     []).
Proof.
  destruct w as [[cl h st [|c0 ls] t rt to tm] lst ts];
    unfold Coordinator.async_add_listener; run_m; [| done].
  by rewrite _start_observing_run.
Qed.

Lemma async_remove_listener_run (cb : Callback) (w : World) (l : list Callback) :
  list_remove cb (_listeners (self w)) = Some l →
  Coordinator.async_remove_listener cb w
  = (Ok tt,
     match l, _task (self w) with
     | [], Some t =>
         {| self := with_task None (with_listeners [] (self w));
            latest_status := latest_status w;
            tasks := cancel_in t (tasks w) |}
     | _, _ => upd_self (with_listeners l) w
     end,
     []).
Proof.
  intros Hl. unfold Coordinator.async_remove_listener, cancel_task. run_m. rewrite Hl.
  destruct l as [|c l]; destruct (_task (self w)) as [t|] eqn:Et; run_m; done.
Qed.

(** ** The round over the live registry *)

Lemma list_remove_sublist {A} `{EqDecision A} (x : A) (l l' : list A) :
  list_remove x l = Some l' → l' `sublist_of` l.
Proof.
  revert l'. induction l as [|y l IH]; intros l' Hrem; simpl in Hrem; [done |].
  destruct (decide (x = y)) as [->|Hne].
  - injection Hrem as <-. by apply sublist_cons.
  - destruct (list_remove x l) as [r|]; [| done]. injection Hrem as <-.
    by apply sublist_skip, IH.
Qed.

Lemma sublist_drop_mono {A} (l1 l2 : list A) (n : nat) :
  l1 `sublist_of` l2 → drop n l1 `sublist_of` drop n l2.
Proof.
  intros Hsub. revert n. induction Hsub as [|x l1 l2 Hsub IH|x l1 l2 Hsub IH]; intros n.
  - by rewrite drop_nil.
  - destruct n as [|n]; simpl; [by apply sublist_skip | apply IH].
  - destruct n as [|n]; simpl; [by apply sublist_cons |].
    etrans; [| apply (IH n)].
    replace (drop (S n) l1) with (drop 1 (drop n l1)) by (by rewrite drop_drop, Nat.add_comm).
    apply sublist_drop.
Qed.

(** What the unsubscribing of a callable leaves: the registry may have lost
    callbacks, the snapshot is as it was, and no call went out. *)
Lemma unsubscribe_all_run (us : list Callback) (w : World) :
  let o := for_each us Coordinator.async_remove_listener w in
  trace_of o = []
  ∧ status (self (world_of o)) = status (self w)
  ∧ _listeners (self (world_of o)) `sublist_of` _listeners (self w)
  ∧ (us = [] → o = (Ok tt, w, [])).
Proof.
  revert w. induction us as [|cb us IH]; intros w; simpl.
  - by repeat split.
  - unfold mbind, M_bind, bind.
    destruct (list_remove cb (_listeners (self w))) as [l|] eqn:Hrem.
    + rewrite (async_remove_listener_run cb w l Hrem).
      set (w1 := match l, _task (self w) with
                 | [], Some t => _
                 | _, _ => _
                 end).
      assert (status (self w1) = status (self w)
              ∧ _listeners (self w1) `sublist_of` _listeners (self w)) as [Hst Hsub].
      { apply list_remove_sublist in Hrem. subst w1.
        destruct l as [|c l]; destruct (_task (self w)); simpl; split; done. }
      specialize (IH w1). simpl in IH.
      destruct (for_each us Coordinator.async_remove_listener w1) as [[r w2] t2].
      unfold trace_of, world_of in *. simpl in *.
      destruct IH as (-> & Hst2 & Hsub2 & _).
      split; [done |]. split; [congruence |]. split; [by etrans | done].
    + apply list_remove_None in Hrem.
      rewrite (async_remove_listener_absent w cb Hrem). by repeat split.
Qed.

Lemma invoke_unsubscribing_run (env : Environment)
    (unsubscribes : Callback → Status → list Callback) (cb : Callback) (w : World) :
  ∃ r w', Coordinator.invoke_unsubscribing env unsubscribes cb w
          = (r, w', [EvInvoke cb (status (self w))])
          ∧ status (self w') = status (self w)
          ∧ _listeners (self w') `sublist_of` _listeners (self w).
Proof.
  unfold Coordinator.invoke_unsubscribing.
  destruct cb as [e|n]; run_m.
  - pose proof (unsubscribe_all_run (unsubscribes (EntityUpdate e) (status (self w)))
                  (with_latest_status (Some (status (self w))) w)) as H.
    cbv zeta in H.
    destruct (for_each _ _ _) as [[[[]|x] w1] t1];
      unfold trace_of, world_of in H; simpl in H; destruct H as (-> & Hst & Hsub & _).
    + destruct (async_write_ha_state env e (status (self w))); eauto.
    + eauto.
  - pose proof (unsubscribe_all_run (unsubscribes (Foreign n) (status (self w))) w) as H.
    cbv zeta in H.
    destruct (for_each _ _ _) as [[[[]|x] w1] t1];
      unfold trace_of, world_of in H; simpl in H; destruct H as (-> & Hst & Hsub & _).
    + destruct (foreign_callback env n (status (self w))); eauto.
    + eauto.
Qed.

(** A callable that unsubscribes nothing is a callable that only answers. *)
Lemma invoke_unsubscribing_quiet (env : Environment)
    (unsubscribes : Callback → Status → list Callback) (cb : Callback) (w : World) :
  unsubscribes cb (status (self w)) = [] →
  Coordinator.invoke_unsubscribing env unsubscribes cb w = Coordinator.invoke env cb w.
Proof.
  intros Hq.
  unfold Coordinator.invoke_unsubscribing, Coordinator.invoke,
    Coordinator._handle_coordinator_update.
  destruct cb as [e|n]; run_m; rewrite Hq; simpl.
  - by destruct (async_write_ha_state env e (status (self w))).
  - by destruct (foreign_callback env n (status (self w))).
Qed.

(** The loop over the live registry: every call is made on the snapshot
    the loop started with, the calls follow the registry in its order, and
    the registry can only have lost callbacks. *)
Lemma notify_unsubscribing (env : Environment)
    (unsubscribes : Callback → Status → list Callback) (bound position : nat) (w : World) :
  let o := Coordinator.notify (Coordinator.invoke_unsubscribing env unsubscribes)
             bound position w in
  status (self (world_of o)) = status (self w)
  ∧ _listeners (self (world_of o)) `sublist_of` _listeners (self w)
  ∧ trace_of o = map (λ cb, EvInvoke cb (status (self w))) (invoked (trace_of o))
  ∧ invoked (trace_of o) `sublist_of` drop position (_listeners (self w)).
Proof.
  revert position w. induction bound as [|bound IH]; intros position w; simpl.
  - repeat split; try done. apply sublist_nil_l.
  - unfold mbind, M_bind, bind, get_self. simpl.
    destruct (_listeners (self w) !! position) as [cb|] eqn:Hcb.
    + destruct (invoke_unsubscribing_run env unsubscribes cb w)
        as (r & w1 & Hrun & Hst & Hsub).
      rewrite Hrun. rewrite (drop_S _ _ _ Hcb).
      destruct r as [[]|e].
      * specialize (IH (S position) w1). simpl in IH.
        destruct (Coordinator.notify _ bound (S position) w1) as [[r2 w2] t2].
        unfold trace_of, world_of in *. simpl in *.
        destruct IH as (Hst2 & Hsub2 & Htr & Hcalls).
        split; [congruence |]. split; [by etrans |]. split.
        -- f_equal. rewrite Htr at 1. by rewrite Hst.
        -- apply sublist_skip. etrans; [exact Hcalls |]. by apply sublist_drop_mono.
      * unfold trace_of, world_of. simpl.
        split; [done |]. split; [done |]. split; [done |].
        apply sublist_skip, sublist_nil_l.
    + repeat split; try done. apply sublist_nil_l.
Qed.

Lemma notify_quiet (env : Environment)
    (unsubscribes : Callback → Status → list Callback) (bound position : nat) (w : World) :
  (∀ cb, cb ∈ _listeners (self w) → unsubscribes cb (status (self w)) = []) →
  Coordinator.notify (Coordinator.invoke_unsubscribing env unsubscribes) bound position w
  = Coordinator.notify (Coordinator.invoke env) bound position w.
Proof.
  revert position w. induction bound as [|bound IH]; intros position w Hq; simpl; [done |].
  unfold mbind, M_bind, bind, get_self. simpl.
  destruct (_listeners (self w) !! position) as [cb|] eqn:Hcb; [| done].
  rewrite invoke_unsubscribing_quiet by (by eapply Hq, list_elem_of_lookup_2).
  destruct (invoke_run env cb w) as (w1 & Hrun & Hself & _). rewrite Hrun.
  destruct (callback_result env cb (status (self w))) as [[]|e]; [| done].
  rewrite IH; [done |]. by rewrite Hself.
Qed.

(** The bound of the loop is never what ends it: any bound that reaches the
    end of the registry gives the same round. *)
Lemma notify_bound_enough (env : Environment)
    (unsubscribes : Callback → Status → list Callback) (b1 b2 position : nat) (w : World) :
  length (_listeners (self w)) ≤ b1 + position →
  length (_listeners (self w)) ≤ b2 + position →
  Coordinator.notify (Coordinator.invoke_unsubscribing env unsubscribes) b1 position w
  = Coordinator.notify (Coordinator.invoke_unsubscribing env unsubscribes) b2 position w.
Proof.
  revert b2 position w. induction b1 as [|b1 IH]; intros b2 position w H1 H2.
  - destruct b2 as [|b2]; simpl; [done |].
    unfold mbind, M_bind, bind, get_self. simpl.
    by rewrite (proj2 (lookup_ge_None _ _)) by lia.
  - destruct b2 as [|b2]; simpl; unfold mbind, M_bind, bind, get_self; simpl.
    + by rewrite (proj2 (lookup_ge_None _ _)) by lia.
    + destruct (_listeners (self w) !! position) as [cb|] eqn:Hcb; [| done].
      destruct (invoke_unsubscribing_run env unsubscribes cb w)
        as (r & w1 & Hrun & Hst & Hsub).
      rewrite Hrun. destruct r as [[]|e]; [| done].
      apply sublist_length in Hsub.
      rewrite (IH b2 (S position) w1) by lia. done.
Qed.


Lemma observe_body_quiet (env : Environment)
    (unsubscribes : Callback → Status → list Callback) (s : Status) (w : World) :
  (∀ cb, cb ∈ _listeners (self w) → unsubscribes cb s = []) →
  Coordinator.observe_body_unsubscribing env unsubscribes s w
  = Coordinator.observe_body env s w.
Proof.
  intros Hq.
  unfold Coordinator.observe_body_unsubscribing, Coordinator.observe_body,
    Coordinator.observe_round.
  run_m. by rewrite notify_quiet.
Qed.



(** The round of the counterexample: callbacks 0 and 2 are called, callback
    1 is not, and the round returns normally. *)
Lemma scenario_unsubscribe_skips_next :
  let o := Coordinator.observe_body_unsubscribing Examples.calm Examples.leaving
             Examples.status_A Examples.crowded in
  result_of o = Ok tt
  ∧ invoked (trace_of o) = [Foreign 0; Foreign 2]
  ∧ _listeners (self (world_of o)) = [Foreign 1; Foreign 2].
Proof. vm_compute. done. Qed.

(** ** Computations that leave the tasks and the registry alone *)

Lemma same_frame_refl (w : World) : same_frame w w.
Proof. by repeat split. Qed.

Lemma same_frame_trans (w1 w2 w3 : World) :
  same_frame w1 w2 → same_frame w2 w3 → same_frame w1 w3.
Proof.
  unfold same_frame. intros (?&?&?&?&?&?&?) (?&?&?&?&?&?&?).
  repeat split; congruence.
Qed.

Lemma keeps_ret {A} (a : A) : keeps (mret a).
Proof. intros w. apply same_frame_refl. Qed.

Lemma keeps_raise {A} (e : Exn) : keeps (@raise A e).
Proof. intros w. apply same_frame_refl. Qed.

Lemma keeps_lift {A} (r : Result A) : keeps (lift r).
Proof. intros w. apply same_frame_refl. Qed.

Lemma keeps_emit (ev : Event) : keeps (emit ev).
Proof. intros w. apply same_frame_refl. Qed.

Lemma keeps_get_self : keeps get_self.
Proof. intros w. apply same_frame_refl. Qed.

Lemma keeps_bind {A B} (m : M A) (k : A → M B) :
  keeps m → (∀ a, keeps (k a)) → keeps (m ≫= k).
Proof.
  intros Hm Hk w. specialize (Hm w). run_m.
  destruct (m w) as [[[a|e] w1] t1]; simpl in *; [| done].
  specialize (Hk a w1). unfold world_of in Hk.
  destruct (k a w1) as [[r w2] t2]; simpl in *.
  by eapply same_frame_trans.
Qed.

Lemma keeps_set_status (f : Coordinator → Status) :
  keeps (set_self (λ c, with_status (f c) c)).
Proof. intros w. by repeat split. Qed.

Lemma keeps_set_latest_status (x : option Status) :
  keeps (modify (with_latest_status x)).
Proof. intros w. by repeat split. Qed.

Create HintDb keeps discriminated.
#[local] Hint Resolve keeps_ret keeps_raise keeps_lift keeps_emit keeps_get_self
  keeps_set_status keeps_set_latest_status : keeps.
#[local] Hint Extern 2 (keeps (_ ≫= _)) => apply keeps_bind; [| intros ?] : keeps.

Lemma keeps_handle_coordinator_update (env : Environment) (e : EntityId) :
  keeps (Coordinator._handle_coordinator_update env e).
Proof. unfold Coordinator._handle_coordinator_update. auto 10 with keeps. Qed.

Lemma keeps_set_control_value (env : Environment) (k : string) (v : Value) :
  keeps (Fan.set_control_value env k v).
Proof.
  unfold Fan.set_control_value. apply keeps_bind; [auto with keeps |].
  intros c. destruct (client c); auto 10 with keeps.
Qed.

Lemma keeps_set_control_values (env : Environment) (data : Status) :
  keeps (Fan.set_control_values env data).
Proof.
  unfold Fan.set_control_values. apply keeps_bind; [auto with keeps |].
  intros c. destruct (client c); auto 10 with keeps.
Qed.

Lemma keeps_status_setitem (k : string) (v : Value) : keeps (Fan.status_setitem k v).
Proof. unfold Fan.status_setitem. apply (keeps_set_status (λ c, <[k:=v]> (status c))). Qed.

Lemma keeps_status_update (data : Status) : keeps (Fan.status_update data).
Proof. unfold Fan.status_update. apply (keeps_set_status (λ c, data ∪ status c)). Qed.

#[local] Hint Resolve keeps_handle_coordinator_update keeps_set_control_value
  keeps_set_control_values keeps_status_setitem keeps_status_update : keeps.

Lemma keeps_async_turn_off (env : Environment) (fan : Fan.FanBase) :
  keeps (Fan.async_turn_off env fan).
Proof. unfold Fan.async_turn_off. auto 10 with keeps. Qed.

Lemma keeps_async_set_preset_mode (env : Environment) (fan : Fan.FanBase) (pm : string) :
  keeps (Fan.async_set_preset_mode env fan pm).
Proof.
  unfold Fan.async_set_preset_mode.
  destruct (Fan.truthy_pattern _); auto 10 with keeps.
Qed.

Lemma keeps_async_set_percentage (env : Environment)
    (ptoi : list string → Z → Result string) (fan : Fan.FanBase) (p : Z) :
  keeps (Fan.async_set_percentage env ptoi fan p).
Proof.
  unfold Fan.async_set_percentage.
  destruct (decide (p = 0%Z)); [apply keeps_async_turn_off |].
  apply keeps_bind; [auto with keeps |]. intros speed.
  destruct (Fan.truthy_pattern _); auto 10 with keeps.
Qed.

Lemma keeps_run_command (env : Environment)
    (ptoi : list string → Z → Result string) (fan : Fan.FanBase) (cmd : Fan.Command) :
  keeps (Fan.run_command env ptoi fan cmd).
Proof.
  destruct cmd as [percentage preset_mode| |pm|p|b]; simpl.
  - unfold Fan.async_turn_on.
    destruct (Fan.truthy_str preset_mode); [apply keeps_async_set_preset_mode |].
    destruct (Fan.truthy_int percentage); [apply keeps_async_set_percentage |].
    auto 10 with keeps.
  - apply keeps_async_turn_off.
  - apply keeps_async_set_preset_mode.
  - apply keeps_async_set_percentage.
  - unfold Fan.async_oscillate. destruct (Fan.KEY_OSCILLATION fan) as [[[key on] off]|];
      [| auto with keeps].
    apply keeps_bind; [auto with keeps |]. intros on_v.
    destruct b; auto 10 with keeps.
Qed.

(** ** Well-formedness along a history *)

Lemma wf_same_frame (w w' : World) : same_frame w w' → wf w → wf w'.
Proof.
  unfold same_frame, wf. intros (Ht & Hk & Hr & Htm & _) (H1 & H2 & H3).
  by rewrite Ht, Hk, Hr, Htm.
Qed.

Lemma wf_fresh (missed : nat) (cl : CoAPClient) (h : string) (st : Status) :
  wf (Loop.fresh missed cl h st).
Proof.
  unfold wf, wf_kind. simpl. by repeat split.
Qed.

Lemma wf_start_observing (w : World) :
  wf w → wf (world_of (Coordinator._start_observing w)).
Proof.
  intros (Ho & Hr & Ht). rewrite _start_observing_run. unfold wf, world_of. simpl.
  split; [by apply wf_kind_cancel_spawn |].
  split; [| done].
  by apply wf_kind_spawn_other, wf_kind_cancel_opt.
Qed.

Lemma wf_reconnect (w : World) :
  wf w → wf (world_of (Coordinator.reconnect w)).
Proof.
  intros (Ho & Hr & Ht). rewrite reconnect_run. unfold wf, world_of. simpl.
  split; [by apply wf_kind_spawn_other, wf_kind_cancel_opt |].
  split; [| done].
  by apply wf_kind_cancel_spawn.
Qed.

Lemma wf_shutdown (env : Environment) (w : World) :
  wf w → wf (world_of (Coordinator.shutdown env w)).
Proof.
  intros (Ho & Hr & Ht). rewrite shutdown_run. unfold wf, world_of. simpl.
  split; [by apply wf_kind_cancel_opt |].
  split; [by apply wf_kind_cancel_opt | done].
Qed.

Lemma wf_async_add_listener (cb : Callback) (w : World) :
  wf w → wf (world_of (Coordinator.async_add_listener cb w)).
Proof.
  intros (Ho & Hr & Ht). rewrite async_add_listener_run. unfold wf, world_of. simpl.
  destruct (_listeners (self w)); simpl; [| done].
  split; [by apply wf_kind_cancel_spawn |].
  split; [| done].
  by apply wf_kind_spawn_other, wf_kind_cancel_opt.
Qed.

Lemma wf_async_remove_listener (cb : Callback) (w : World) :
  wf w → wf (world_of (Coordinator.async_remove_listener cb w)).
Proof.
  intros (Ho & Hr & Ht).
  destruct (list_remove cb (_listeners (self w))) as [l|] eqn:El.
  - rewrite (async_remove_listener_run cb w l El). unfold wf, world_of. simpl.
    destruct l as [|c l]; [| done].
    destruct (_task (self w)) as [t|] eqn:Et; simpl; [| by rewrite Et].
    split; [apply (wf_kind_cancel_none _ _ (Some t) Ho) |].
    split; [by apply wf_kind_cancel_in | done].
  - apply list_remove_None in El.
    by rewrite (async_remove_listener_absent w cb El).
Qed.

Lemma observe_body_frame (env : Environment) (s : Status) (w : World) :
  self (world_of (Coordinator.observe_body env s w)) = with_status s (self w)
  ∧ tasks (world_of (Coordinator.observe_body env s w)) = tasks w.
Proof.
  rewrite observe_body_run.
  pose proof (for_each_invoke env (_listeners (self w)) (upd_self (with_status s) w)) as H.
  cbv zeta in H. by destruct H as (Hs & Ht & _).
Qed.

Lemma wf_finish (t : TaskId) (w : World) :
  wf w → wf (with_tasks (finish_in t (tasks w)) w).
Proof.
  intros (Ho & Hr & Ht). unfold wf. simpl.
  split; [by apply wf_kind_finish_in |]. split; [by apply wf_kind_finish_in | done].
Qed.

Lemma wf_on_snapshot (env : Environment) (t : TaskId) (s : Status) (w : World) :
  wf w → wf (world_of (Loop.on_snapshot env t s w)).
Proof.
  intros Hwf. unfold Loop.on_snapshot. run_m.
  destruct (Loop.active_coro (tasks w) t) as [[| |]|]; try done.
  pose proof (observe_body_frame env s w) as [Hs Ht]. unfold world_of in *.
  destruct (Coordinator.observe_body env s w) as [[[[]|e] w1] t1]; simpl in *.
  - destruct Hwf as (Ho & Hr & Htm). unfold wf. rewrite Hs, Ht. done.
  - unfold finish_task. run_m. apply wf_finish.
    destruct Hwf as (Ho & Hr & Htm). unfold wf. rewrite Hs, Ht. done.
Qed.

Lemma wf_on_stream_end (t : TaskId) (w : World) :
  wf w → wf (world_of (Loop.on_stream_end t w)).
Proof.
  intros Hwf. unfold Loop.on_stream_end, finish_task. run_m.
  destruct (Loop.active_coro (tasks w) t) as [[| |]|]; try done.
  by apply wf_finish.
Qed.

Lemma _reconnect_shutdown_run (env : Environment) (w : World) :
  ∃ tr, Coordinator._reconnect_shutdown env w = (Ok tt, w, tr).
Proof.
  unfold Coordinator._reconnect_shutdown, Coordinator.await_client_shutdown. run_m.
  destruct (client (self w)) as [cl|]; simpl; [| eauto].
  destruct (client_shutdown env cl) as [[]|]; eauto.
Qed.

(** [_reconnect] after its second [await]: either a new session is in place
    and a new observation has been started, or the world is as it was. *)
Lemma _reconnect_create_run (env : Environment) (w : World) :
  ∃ tr, Coordinator._reconnect_create env w
        = (Ok tt,
           match client_create env (host (self w)) with
           | Ok cl =>
               world_of (Coordinator._start_observing
                           (upd_self (with_client (Some cl)) w))
           | Raise _ => w
           end, tr).
Proof.
  unfold Coordinator._reconnect_create, Coordinator.await_client_create. run_m.
  destruct (client_create env (host (self w))) as [cl|e]; simpl; [| eauto].
  rewrite _start_observing_run. simpl. eauto.
Qed.

(** [_reconnect] run to its end: a new session and a new observation when
    the session can be created, the world as it was when it cannot. *)
Lemma _reconnect_run (env : Environment) (w : World) :
  result_of (Coordinator._reconnect env w) = Ok tt
  ∧ world_of (Coordinator._reconnect env w)
    = match client_create env (host (self w)) with
      | Ok cl =>
          world_of (Coordinator._start_observing (upd_self (with_client (Some cl)) w))
      | Raise _ => w
      end.
Proof.
  destruct (_reconnect_shutdown_run env w) as [tr1 H1].
  destruct (_reconnect_create_run env w) as [tr2 H2].
  unfold Coordinator._reconnect. run_m. rewrite H1, H2. done.
Qed.

Lemma wf_on_resume (env : Environment) (t : TaskId) (w : World) :
  wf w → wf (world_of (Loop.on_resume env t w)).
Proof.
  intros Hwf. unfold Loop.on_resume.
  unfold mbind, M_bind, bind at 1. unfold Loop.get_world at 1.
  destruct (Loop.active_coro (tasks w) t) as [[| |]|] eqn:Hact; try done.
  - destruct (_reconnect_shutdown_run env w) as [tr Hrun].
    unfold suspend_at. run_m. rewrite Hrun. simpl.
    destruct Hwf as (Ho & Hr & Htm). unfold wf. simpl.
    split; [by eapply wf_kind_resuspend |]. split; [by eapply wf_kind_resuspend | done].
  - destruct (_reconnect_create_run env w) as [tr Hrun].
    unfold finish_task. run_m. rewrite Hrun. simpl. apply wf_finish.
    destruct (client_create env (host (self w))) as [cl|e]; [| done].
    apply wf_start_observing. by destruct Hwf as (Ho & Hr & Htm).
Qed.

Lemma on_tick_stopped (w : World) :
  Timer.remaining (_timer_disconnected (self w)) = None →
  Loop.on_tick w = (Ok tt, upd_self (with_timer (_timer_disconnected (self w))) w, []).
Proof.
  intros H. unfold Loop.on_tick, Timer.expires, Timer.count_down. run_m. by rewrite H.
Qed.

Lemma wf_run (env : Environment) (ptoi : list string → Z → Result string)
    (a : Loop.Action) (w : World) :
  wf w → wf (world_of (Loop.run env ptoi a w)).
Proof.
  intros Hwf. destruct a as [cb|cb| | |fan cmd|t s|t|t|]; simpl.
  - pose proof (wf_async_add_listener cb w Hwf) as H. run_m.
    by destruct (Coordinator.async_add_listener cb w) as [[[c|e] w1] t1].
  - by apply wf_async_remove_listener.
  - by apply wf_reconnect.
  - by apply wf_shutdown.
  - eapply wf_same_frame; [apply keeps_run_command | done].
  - by apply wf_on_snapshot.
  - by apply wf_on_stream_end.
  - by apply wf_on_resume.
  - destruct Hwf as (Ho & Hr & Htm). rewrite on_tick_stopped by done.
    unfold wf, world_of. simpl. done.
Qed.

Lemma wf_exec (h : Loop.History) (w : World) : wf w → wf (Loop.exec h w).
Proof.
  revert w. induction h as [|[[env ptoi] a] h IH]; intros w Hwf; simpl; [done |].
  by apply IH, wf_run.
Qed.

(** ** Counting the active tasks *)

Lemma elem_of_active_tasks (kind : Coro → bool) (w : World) (t : TaskId) :
  t ∈ Loop.active_tasks kind w ↔ Loop.runs kind (tasks w) t = true.
Proof.
  unfold Loop.active_tasks. rewrite list_elem_of_filter, elem_of_seq.
  split; [by intros [? _] |]. intros H. split; [done |].
  apply runs_true in H as (c & Hc & _). apply active_coro_Some_lt in Hc. lia.
Qed.

Lemma NoDup_active_tasks (kind : Coro → bool) (w : World) :
  NoDup (Loop.active_tasks kind w).
Proof. apply NoDup_filter, NoDup_seq. Qed.

Lemma NoDup_at_most_one {A} (l : list A) :
  NoDup l → (∀ x y, x ∈ l → y ∈ l → x = y) → length l ≤ 1.
Proof.
  intros Hnd Hall. destruct l as [|x [|y l]]; simpl; [lia | lia |].
  exfalso. apply NoDup_cons in Hnd as [Hx _]. apply Hx.
  rewrite (Hall x y); [left | left | right; left].
Qed.

Lemma NoDup_singleton_eq {A} (l : list A) (n : A) :
  NoDup l → (∀ x, x ∈ l ↔ x = n) → l = [n].
Proof.
  intros Hnd Hall. destruct l as [|x l].
  - exfalso. eapply not_elem_of_nil. by apply Hall.
  - assert (x = n) as -> by (apply Hall; left). f_equal.
    apply elem_of_nil_inv. intros y Hy.
    apply NoDup_cons in Hnd as [Hn _]. apply Hn.
    assert (y = n) as -> by (apply Hall; by right). done.
Qed.

Lemma active_tasks_at_most_one (kind : Coro → bool) (w : World) (f : option TaskId) :
  wf_kind kind (tasks w) f → length (Loop.active_tasks kind w) ≤ 1.
Proof.
  intros [Hact _]. apply NoDup_at_most_one; [apply NoDup_active_tasks |].
  intros x y Hx%elem_of_active_tasks Hy%elem_of_active_tasks.
  apply Hact in Hx, Hy. congruence.
Qed.

Lemma active_tasks_none (kind : Coro → bool) (w : World) :
  wf_kind kind (tasks w) None → Loop.active_tasks kind w = [].
Proof.
  intros [Hact _]. apply elem_of_nil_inv. intros t Ht%elem_of_active_tasks.
  by apply Hact in Ht.
Qed.

Lemma active_tasks_only (kind : Coro → bool) (w : World) (t : TaskId) :
  wf_kind kind (tasks w) (Some t) →
  Loop.runs kind (tasks w) t = true →
  Loop.active_tasks kind w = [t].
Proof.
  intros [Hact _] Hrun. apply NoDup_singleton_eq; [apply NoDup_active_tasks |].
  intros x. rewrite elem_of_active_tasks. split.
  - intros Hx. apply Hact in Hx. congruence.
  - by intros ->.
Qed.

Lemma runs_spawned (kind : Coro → bool) (ts : list Task) (c : Coro) :
  Loop.runs kind (ts ++ [mkTask c Active]) (length ts) = kind c.
Proof. unfold Loop.runs. rewrite active_coro_spawn. by rewrite decide_True. Qed.

Lemma active_after_start_observing (w : World) :
  wf w →
  Loop.active_observers (world_of (Coordinator._start_observing w)) = [length (tasks w)].
Proof.
  intros Hwf. pose proof (wf_start_observing w Hwf) as (Ho & _).
  rewrite _start_observing_run in *. unfold world_of in *. simpl in *.
  apply active_tasks_only; simpl; [done |].
  rewrite <- (length_cancel_opt (_task (self w)) (tasks w)). apply runs_spawned.
Qed.

Lemma active_after_reconnect (w : World) :
  wf w →
  Loop.active_reconnects (world_of (Coordinator.reconnect w)) = [length (tasks w)].
Proof.
  intros Hwf. pose proof (wf_reconnect w Hwf) as (_ & Hr & _).
  rewrite reconnect_run in *. unfold world_of in *. simpl in *.
  apply active_tasks_only; simpl; [done |].
  rewrite <- (length_cancel_opt (_reconnect_task (self w)) (tasks w)). apply runs_spawned.
Qed.

(** C6: in every state a coordinator can reach, at most one observation
    task and at most one reconnect task are active; [reconnect] cancels the
    reconnect task it finds before it creates the new one, which is then the
    only active one, and [_start_observing] does the same for the
    observation task. *)
Theorem at_most_one_observer_and_one_reconnect
    (missed : nat) (cl : CoAPClient) (h0 : string) (st : Status) (h : Loop.History) :
  let w := Loop.exec h (Loop.fresh missed cl h0 st) in
  let after_reconnect := world_of (Coordinator.reconnect w) in
  let after_start := world_of (Coordinator._start_observing w) in
  length (Loop.active_observers w) ≤ 1
  ∧ length (Loop.active_reconnects w) ≤ 1
  ∧ (∀ t, _reconnect_task (self w) = Some t →
          Loop.active_coro (tasks after_reconnect) t = None)
  ∧ _reconnect_task (self after_reconnect) = Some (length (tasks w))
  ∧ Loop.active_reconnects after_reconnect = [length (tasks w)]
  ∧ (∀ t, _task (self w) = Some t → Loop.active_coro (tasks after_start) t = None)
  ∧ _task (self after_start) = Some (length (tasks w))
  ∧ Loop.active_observers after_start = [length (tasks w)].
Proof.
  cbv zeta. set (w := Loop.exec h (Loop.fresh missed cl h0 st)).
  assert (wf w) as Hwf by apply wf_exec, wf_fresh.
  pose proof Hwf as (Ho & Hr & _).
  split; [by eapply active_tasks_at_most_one |].
  split; [by eapply active_tasks_at_most_one |].
  split.
  { intros t Ht. rewrite reconnect_run. unfold world_of. simpl. rewrite Ht. simpl.
    rewrite active_coro_spawn, length_cancel_in.
    destruct (decide (t = length (tasks w))) as [->|Hne].
    - destruct Hr as [_ Hr]. specialize (Hr _ Ht).
      destruct (kind_of (tasks w) (length (tasks w))) eqn:E; [| done].
      apply kind_of_Some_lt in E. lia.
    - rewrite active_coro_cancel_in. by rewrite decide_True. }
  split; [by rewrite reconnect_run |].
  split; [by apply active_after_reconnect |].
  split.
  { intros t Ht. rewrite _start_observing_run. unfold world_of. simpl. rewrite Ht. simpl.
    rewrite active_coro_spawn, length_cancel_in.
    destruct (decide (t = length (tasks w))) as [->|Hne].
    - destruct Ho as [_ Ho]. specialize (Ho _ Ht).
      destruct (kind_of (tasks w) (length (tasks w))) eqn:E; [| done].
      apply kind_of_Some_lt in E. lia.
    - rewrite active_coro_cancel_in. by rewrite decide_True. }
  split; [by rewrite _start_observing_run |].
  by apply active_after_start_observing.
Qed.

(** ** The observation task and the registry *)

Lemma registry_inv_fresh (missed : nat) (cl : CoAPClient) (h : string) (st : Status) :
  registry_inv (Loop.fresh missed cl h st).
Proof. split; [apply wf_fresh | done]. Qed.

Lemma list_remove_Some_cons {A} `{EqDecision A} (x : A) (l r : list A) :
  list_remove x l = Some r → l ≠ [].
Proof. by destruct l. Qed.

Lemma registry_inv_add (cb : Callback) (w : World) :
  registry_inv w → registry_inv (world_of (Coordinator.async_add_listener cb w)).
Proof.
  intros [Hwf Hreg]. split; [by apply wf_async_add_listener |].
  rewrite async_add_listener_run. unfold world_of. simpl.
  destruct (_listeners (self w)) as [|c0 ls] eqn:E; simpl.
  - exists (length (tasks w)). split; [done |].
    rewrite <- (length_cancel_opt (_task (self w)) (tasks w)). apply runs_spawned.
  - exact Hreg.
Qed.

Lemma registry_inv_remove (cb : Callback) (w : World) :
  registry_inv w → registry_inv (world_of (Coordinator.async_remove_listener cb w)).
Proof.
  intros [Hwf Hreg]. split; [by apply wf_async_remove_listener |].
  destruct (list_remove cb (_listeners (self w))) as [l|] eqn:El.
  - rewrite (async_remove_listener_run cb w l El). unfold world_of. simpl.
    pose proof (list_remove_Some_cons _ _ _ El) as Hne.
    destruct (_listeners (self w)) as [|c0 ls] eqn:E; [done |].
    destruct Hreg as (t & Ht & Hrun). rewrite Ht.
    destruct l as [|c l]; simpl; [done |]. eauto.
  - apply list_remove_None in El.
    by rewrite (async_remove_listener_absent w cb El).
Qed.

Lemma registry_inv_call_all (cs : list Loop.ListenerCall) (w : World) :
  registry_inv w → registry_inv (Loop.call_all cs w).
Proof.
  revert w. induction cs as [|[cb|cb] cs IH]; intros w Hinv; simpl; [done | |].
  - apply IH. pose proof (registry_inv_add cb w Hinv) as H. run_m.
    by destruct (Coordinator.async_add_listener cb w) as [[[c|e] w1] t1].
  - by apply IH, registry_inv_remove.
Qed.

Lemma registry_inv_observing (w : World) :
  registry_inv w →
  Loop.active_observers w
  = match _listeners (self w), _task (self w) with
    | _ :: _, Some t => [t]
    | _, _ => []
    end.
Proof.
  intros [(Ho & _) Hreg]. destruct (_listeners (self w)) as [|c0 ls].
  - rewrite Hreg in *. by apply active_tasks_none.
  - destruct Hreg as (t & Ht & Hrun). rewrite Ht in *. by apply active_tasks_only.
Qed.

(** C5: after any sequence of [async_add_listener] and
    [async_remove_listener] calls on a new coordinator, an observation task
    is active exactly when the registry is not empty; adding the first
    listener leaves the new observation task active on return, and removing
    the last one cancels it, leaving none. *)
Theorem observing_iff_registry_not_empty
    (missed : nat) (cl : CoAPClient) (h0 : string) (st : Status)
    (cs : list Loop.ListenerCall) :
  let w := Loop.call_all cs (Loop.fresh missed cl h0 st) in
  (Loop.active_observers w ≠ [] ↔ _listeners (self w) ≠ [])
  ∧ (∀ cb, _listeners (self w) = [] →
           Loop.active_observers (world_of (Coordinator.async_add_listener cb w))
           = [length (tasks w)])
  ∧ (∀ cb, _listeners (self w) = [cb] →
           result_of (Coordinator.async_remove_listener cb w) = Ok tt
           ∧ Loop.active_observers (world_of (Coordinator.async_remove_listener cb w)) = []
           ∧ _task (self (world_of (Coordinator.async_remove_listener cb w))) = None).
Proof.
  cbv zeta. set (w := Loop.call_all cs (Loop.fresh missed cl h0 st)).
  assert (registry_inv w) as Hinv by apply registry_inv_call_all, registry_inv_fresh.
  split; [| split].
  - rewrite (registry_inv_observing w Hinv). destruct Hinv as [_ Hreg].
    destruct (_listeners (self w)) as [|c0 ls]; [done |].
    destruct Hreg as (t & -> & _). done.
  - intros cb Hl. pose proof (registry_inv_add cb w Hinv) as Hinv'.
    rewrite (registry_inv_observing _ Hinv').
    rewrite async_add_listener_run, Hl. unfold world_of. by simpl.
  - intros cb Hl. pose proof (registry_inv_remove cb w Hinv) as Hinv'.
    rewrite (registry_inv_observing _ Hinv').
    assert (list_remove cb (_listeners (self w)) = Some []) as El.
    { rewrite Hl. simpl. by rewrite decide_True. }
    rewrite (async_remove_listener_run cb w [] El). unfold world_of, result_of. simpl.
    destruct (_task (self w)) eqn:Et; simpl; [done | by rewrite Et].
Qed.

(** ** Shutdown *)

Lemma lookup_cancel_in_ne (t t' : TaskId) (ts : list Task) :
  t ≠ t' → cancel_in t ts !! t' = ts !! t'.
Proof.
  intros Hne. unfold cancel_in. destruct (ts !! t) as [tk|]; [| done].
  destruct (state tk); try done. by apply list_lookup_insert_ne.
Qed.

Lemma is_observe_not_reconnect (c : Coro) :
  Loop.is_observe c = negb (Loop.is_reconnect c).
Proof. by destruct c. Qed.

Lemma runs_observe_cancel_reconnect (ts : list Task) (rt : option TaskId) (t : TaskId) :
  wf_kind Loop.is_reconnect ts rt →
  Loop.runs Loop.is_observe (cancel_opt rt ts) t = Loop.runs Loop.is_observe ts t.
Proof.
  intros [_ Hfield]. destruct rt as [t0|]; [| done]. simpl.
  unfold Loop.runs. rewrite active_coro_cancel_in.
  destruct (decide (t = t0)) as [->|Hne]; [| done].
  specialize (Hfield t0 eq_refl).
  destruct (Loop.active_coro ts t0) as [c|] eqn:E; [| done].
  rewrite (active_coro_kind_of ts t0 c E) in Hfield. simpl in Hfield.
  rewrite is_observe_not_reconnect. by injection Hfield as ->.
Qed.

(** C10: [shutdown] cancels the reconnect task, stops the watchdog timer
    and closes the device client, and nothing else: [_task] and the registry
    are as before, every task other than the reconnect task is as before, and
    the observation tasks that were active are still active. *)
Theorem shutdown_leaves_observation_and_registry
    (env : Environment) (missed : nat) (cl : CoAPClient) (h0 : string) (st : Status)
    (h : Loop.History) :
  let w := Loop.exec h (Loop.fresh missed cl h0 st) in
  let o := Coordinator.shutdown env w in
  let w' := world_of o in
  _task (self w') = _task (self w)
  ∧ _listeners (self w') = _listeners (self w)
  ∧ Loop.active_observers w' = Loop.active_observers w
  ∧ (∀ t, _reconnect_task (self w) ≠ Some t → tasks w' !! t = tasks w !! t)
  ∧ Loop.active_reconnects w' = []
  ∧ Timer.running (_timer_disconnected (self w')) = false
  ∧ trace_of o = match client (self w) with
                 | Some c => [EvClientShutdown c]
                 | None => []
                 end
  ∧ status (self w') = status (self w)
  ∧ client (self w') = client (self w)
  ∧ _reconnect_task (self w') = _reconnect_task (self w).
Proof.
  cbv zeta. set (w := Loop.exec h (Loop.fresh missed cl h0 st)).
  assert (wf w) as Hwf by apply wf_exec, wf_fresh.
  pose proof Hwf as (Ho & Hr & _).
  rewrite shutdown_run. unfold world_of, trace_of. simpl.
  split; [done |]. split; [done |].
  split.
  { unfold Loop.active_observers, Loop.active_tasks. simpl.
    rewrite length_cancel_opt. apply list_filter_iff. intros t.
    by rewrite (runs_observe_cancel_reconnect _ _ t Hr). }
  split.
  { intros t Hne. destruct (_reconnect_task (self w)) as [t0|]; [| done].
    simpl. apply lookup_cancel_in_ne. congruence. }
  split.
  { apply elem_of_nil_inv. intros t Ht%elem_of_active_tasks. simpl in Ht.
    by rewrite (wf_kind_cancel_own _ _ _ Hr t) in Ht. }
  by repeat split.
Qed.

(** ** The registry along calm histories *)

Lemma registry_inv_same_frame (w w' : World) :
  same_frame w w' → registry_inv w → registry_inv w'.
Proof.
  intros Hframe [Hwf Hreg]. split; [by eapply wf_same_frame |].
  destruct Hframe as (Ht & Hk & _ & _ & Hl & _). by rewrite Ht, Hk, Hl.
Qed.

(** The equivalence of C5 also holds along the histories in which, besides
    the listener calls, snapshots arrive that no callback raises on, commands
    are carried out, [reconnect] and [shutdown] are called and time passes. *)
Lemma registry_inv_along_calm_history (h : Loop.History) (w : World) :
  Forall calm_step h → registry_inv w → registry_inv (Loop.exec h w).
Proof.
  revert w. induction h as [|[[env ptoi] a] h IH]; intros w Hcalm Hinv; simpl; [done |].
  apply Forall_cons in Hcalm as [Hstep Hcalm]. apply IH; [done |]. clear IH Hcalm.
  destruct a as [cb|cb| | |fan cmd|t s|t|t|]; simpl in *; try done.
  - pose proof (registry_inv_add cb w Hinv) as H. run_m.
    by destruct (Coordinator.async_add_listener cb w) as [[[c|e] w1] t1].
  - by apply registry_inv_remove.
  - destruct Hinv as [Hwf Hreg]. split; [by apply wf_reconnect |].
    rewrite reconnect_run. unfold world_of. simpl.
    destruct (_listeners (self w)); [done |].
    destruct Hreg as (t & Ht & Hrun). exists t. split; [done |].
    destruct Hwf as (_ & Hr & _).
    rewrite <- (runs_observe_cancel_reconnect _ _ t Hr) in Hrun.
    unfold Loop.runs in *. rewrite active_coro_spawn.
    destruct (decide (t = length (cancel_opt (_reconnect_task (self w)) (tasks w))))
      as [->|Hne]; [| done].
    destruct (Loop.active_coro _ _) as [c0|] eqn:E; [| done].
    apply active_coro_Some_lt in E. lia.
  - destruct Hinv as [Hwf Hreg]. split; [by apply wf_shutdown |].
    rewrite shutdown_run. unfold world_of. simpl.
    destruct (_listeners (self w)); [done |].
    destruct Hreg as (t & Ht & Hrun). exists t. split; [done |].
    destruct Hwf as (_ & Hr & _).
    by rewrite (runs_observe_cancel_reconnect _ _ t Hr).
  - eapply registry_inv_same_frame; [apply keeps_run_command | done].
  - unfold Loop.on_snapshot. run_m.
    destruct (Loop.active_coro (tasks w) t) as [[| |]|]; try done.
    destruct (observe_body_ok env s w) as (w1 & Hrun & Hself & Htasks).
    { apply Forall_forall. intros cb _. apply Hstep. }
    rewrite Hrun. simpl. destruct Hinv as [(Ho & Hr & Htm) Hreg].
    unfold registry_inv, wf. rewrite Hself, Htasks. simpl. done.
  - destruct Hinv as [Hwf Hreg]. destruct Hwf as (Ho & Hr & Htm).
    rewrite on_tick_stopped by done. unfold world_of. simpl.
    split; [| done]. unfold wf. simpl. done.
Qed.

(** Where the equivalence ends: when the stream of the observation task
    ends while a listener is registered, no observation task is active until
    the next [reconnect]. *)
Example stream_end_leaves_listeners_unobserved :
  let w := Loop.exec [(Examples.calm, Examples.first_speed, Loop.AddListener (Foreign 0));
                      (Examples.calm, Examples.first_speed, Loop.StreamEnd 0)]
             Examples.purifier in
  _listeners (self w) = [Foreign 0] ∧ Loop.active_observers w = [].
Proof. vm_compute. done. Qed.

(** The scenarios of the specification. *)
Example scenario_observation_tick :
  let w := world_of (Coordinator.async_add_listener (EntityUpdate 0) Examples.purifier) in
  let o := Loop.on_snapshot Examples.calm 0 Examples.status_A w in
  status (self w) = Examples.status_P
  ∧ invocations (EntityUpdate 0) (trace_of o) = 1
  ∧ status (self (world_of o)) = Examples.status_A.
Proof. vm_compute. done. Qed.

Example scenario_reconnect_twice :
  let step a := (Examples.calm, Examples.first_speed, a) in
  let w := Loop.exec [step (Loop.AddListener (EntityUpdate 0));
                      step Loop.Reconnect; step Loop.Reconnect;
                      step (Loop.Resume 1); step (Loop.Resume 2); step (Loop.Resume 2)]
             Examples.purifier in
  Loop.active_observers w = [3]
  ∧ Loop.active_reconnects w = []
  ∧ client (self w) = Some 1.
Proof. vm_compute. done. Qed.

(** ** The watchdog *)

Lemma timer_stopped_along_history
    (missed : nat) (cl : CoAPClient) (h0 : string) (st : Status) (h : Loop.History) :
  Timer.remaining (_timer_disconnected (self (Loop.exec h (Loop.fresh missed cl h0 st))))
  = None.
Proof.
  assert (wf (Loop.exec h (Loop.fresh missed cl h0 st))) as (_ & _ & H)
    by apply wf_exec, wf_fresh.
  exact H.
Qed.

Lemma on_tick_expired (w : World) :
  Timer.expires (_timer_disconnected (self w)) = true →
  trace_of (Loop.on_tick w) = [EvReconnectCalled]
  ∧ _timer_disconnected (self (world_of (Loop.on_tick w)))
    = Timer.fired (_timer_disconnected (self w)).
Proof.
  intros H. unfold Loop.on_tick. run_m. rewrite H.
  destruct (Timer.callback (_timer_disconnected (self w))).
  rewrite reconnect_run. by simpl.
Qed.

(** C1, as the code has it: receiving a snapshot leaves the watchdog timer
    exactly as it was (the reset is disabled in the source).  The timer is
    built stopped, with [reconnect] as its callback and a timeout of 60 times
    the missed-package count, and it is stopped in every state the
    coordinator reaches.  Were it armed and out of time, its expiry would
    call [reconnect] exactly once. *)
Theorem watchdog_untouched_by_observation
    (env : Environment) (missed : nat) (cl : CoAPClient) (h0 : string) (st : Status)
    (h : Loop.History) (snapshot : Status) (any : World) :
  let w := Loop.exec h (Loop.fresh missed cl h0 st) in
  _timer_disconnected (self (world_of (Coordinator.observe_body env snapshot any)))
  = _timer_disconnected (self any)
  ∧ _timer_disconnected (self (Loop.fresh missed cl h0 st))
    = Timer.mkTimer (60 * missed) Timer.CallReconnect true None
  ∧ Timer.running (_timer_disconnected (self w)) = false
  ∧ (Timer.expires (_timer_disconnected (self any)) = true →
     trace_of (Loop.on_tick any) = [EvReconnectCalled]).
Proof.
  cbv zeta. split; [| split; [| split]].
  - destruct (observe_body_frame env snapshot any) as [-> _]. done.
  - done.
  - unfold Timer.running. by rewrite timer_stopped_along_history.
  - intros H. by apply on_tick_expired.
Qed.

(** An armed watchdog that runs out of time calls [reconnect] once, which
    leaves one reconnect task, and arms itself again. *)
Example armed_watchdog_reconnects_once :
  let o := Loop.on_tick Examples.armed in
  Timer.expires (_timer_disconnected (self Examples.armed)) = true
  ∧ trace_of o = [EvReconnectCalled]
  ∧ Loop.active_reconnects (world_of o) = [0]
  ∧ Timer.remaining (_timer_disconnected (self (world_of o))) = Some 180.
Proof. vm_compute. by repeat split. Qed.

(** C1, as the claim states it, fails: a snapshot received by a new
    coordinator does not arm the timer. *)
Lemma watchdog_reset_counterexample :
  ¬ (∀ (env : Environment) (snapshot : Status) (w : World),
       _timer_disconnected (self (world_of (Coordinator.observe_body env snapshot w)))
       = Timer.reset (_timer_disconnected (self w))).
Proof.
  intros H. specialize (H Examples.calm Examples.status_A Examples.purifier).
  destruct (observe_body_frame Examples.calm Examples.status_A Examples.purifier)
    as [Hs _].
  rewrite Hs in H. vm_compute in H. discriminate.
Qed.

(** ** The write commands of the fan entity *)

Lemma write_value_outcome (env : Environment) (own : EntityId) (k : string) (v : Value)
    (w : World) :
  Outcome env own w true
    ((Fan.set_control_value env k v;; Fan.status_setitem k v;;
      Coordinator._handle_coordinator_update env own) w).
Proof.
  unfold Fan.set_control_value, Fan.status_setitem, Coordinator._handle_coordinator_update.
  run_m. destruct (client (self w)) as [cl|]; simpl; [| constructor].
  destruct (client_set_control_value env cl k v) as [[]|e] eqn:E; simpl.
  - pose proof (out_written env own w true (EvSetControlValue cl k v (Ok ()))
             (with_latest_status (Some (<[k:=v]> (status (self w))))
                (upd_self (λ c, with_status (<[k:=v]> (status c)) c) w))) as Hout.
    simpl in Hout. apply Hout.
    + done.
    + simpl. apply lookup_insert_eq.
    + by repeat split.
  - by apply (out_failed env own w true (EvSetControlValue cl k v (Raise e)) e).
Qed.

Lemma write_values_outcome (env : Environment) (own : EntityId) (data : Status)
    (w : World) :
  Outcome env own w true
    ((Fan.set_control_values env data;; Fan.status_update data;;
      Coordinator._handle_coordinator_update env own) w).
Proof.
  unfold Fan.set_control_values, Fan.status_update, Coordinator._handle_coordinator_update.
  run_m. destruct (client (self w)) as [cl|]; simpl; [| constructor].
  destruct (client_set_control_values env cl data) as [[]|e] eqn:E; simpl.
  - pose proof (out_written env own w true (EvSetControlValues cl data (Ok ()))
             (with_latest_status (Some (data ∪ status (self w)))
                (upd_self (λ c, with_status (data ∪ status c) c) w))) as Hout.
    simpl in Hout. apply Hout.
    + done.
    + simpl. apply map_union_subseteq_l.
    + by repeat split.
  - by apply (out_failed env own w true (EvSetControlValues cl data (Raise e)) e).
Qed.

(** The branch of [async_set_percentage] that writes a speed pattern: the
    snapshot is not touched. *)
Lemma write_speed_outcome (env : Environment) (own : EntityId) (data : Status)
    (w : World) :
  Outcome env own w false
    ((Fan.set_control_values env data;;
      Coordinator._handle_coordinator_update env own) w).
Proof.
  unfold Fan.set_control_values, Coordinator._handle_coordinator_update.
  run_m. destruct (client (self w)) as [cl|]; simpl; [| constructor].
  destruct (client_set_control_values env cl data) as [[]|e] eqn:E; simpl.
  - pose proof (out_written env own w false (EvSetControlValues cl data (Ok ()))
             (with_latest_status (Some (status (self w))) w)) as Hout.
    simpl in Hout. apply Hout.
    + done.
    + done.
    + by repeat split.
  - by apply (out_failed env own w false (EvSetControlValues cl data (Raise e)) e).
Qed.

Lemma async_set_preset_mode_outcome (env : Environment) (fan : Fan.FanBase)
    (pm : string) (w : World) :
  Outcome env (Fan.entity fan) w true (Fan.async_set_preset_mode env fan pm w).
Proof.
  unfold Fan.async_set_preset_mode.
  destruct (Fan.truthy_pattern _) as [data|]; [apply write_values_outcome | constructor].
Qed.

Lemma async_set_percentage_outcome (env : Environment)
    (ptoi : list string → Z → Result string) (fan : Fan.FanBase) (p : Z) (w : World) :
  Outcome env (Fan.entity fan) w (bool_decide (p = 0%Z))
    (Fan.async_set_percentage env ptoi fan p w).
Proof.
  unfold Fan.async_set_percentage. destruct (decide (p = 0%Z)) as [->|Hne].
  - apply write_value_outcome.
  - rewrite bool_decide_eq_false_2 by done.
    destruct (ptoi (Fan._speeds fan) p) as [speed|e];
      [rewrite bind_lift_ok | rewrite bind_lift_raise; constructor].
    destruct (Fan.truthy_pattern _) as [data|] eqn:E;
      [apply write_speed_outcome | constructor].
Qed.

Lemma run_command_outcome (env : Environment)
    (ptoi : list string → Z → Result string) (fan : Fan.FanBase) (cmd : Fan.Command)
    (w : World) :
  Outcome env (Fan.entity fan) w (negb (Fan.via_speed_table cmd))
    (Fan.run_command env ptoi fan cmd w).
Proof.
  destruct cmd as [percentage preset_mode| |pm|p|b]; simpl.
  - unfold Fan.async_turn_on.
    destruct (Fan.truthy_str preset_mode) as [pm|];
      [apply async_set_preset_mode_outcome |].
    destruct (Fan.truthy_int percentage) as [p|] eqn:Ep; simpl.
    + pose proof (async_set_percentage_outcome env ptoi fan p w) as H.
      rewrite bool_decide_eq_false_2 in H; [done |].
      unfold Fan.truthy_int in Ep. destruct percentage as [z|]; [| done].
      destruct (decide (z = 0%Z)); congruence.
    + apply write_value_outcome.
  - apply write_value_outcome.
  - apply async_set_preset_mode_outcome.
  - pose proof (async_set_percentage_outcome env ptoi fan p w) as H.
    by destruct (decide (p = 0%Z));
      [rewrite bool_decide_eq_true_2 in H by done;
       rewrite bool_decide_eq_false_2 by (intros Hn; done)
      |rewrite bool_decide_eq_false_2 in H by done;
       rewrite bool_decide_eq_true_2 by done].
  - unfold Fan.async_oscillate.
    destruct (Fan.KEY_OSCILLATION fan) as [[[key on] off]|]; [| constructor].
    destruct (Fan.on_value on) as [on_v|e];
      [rewrite bind_lift_ok | rewrite bind_lift_raise; constructor].
    destruct b; apply write_value_outcome.
Qed.

(** C7: when the write a command hands to the device client fails, the
    command raises that error and the world, the cached snapshot with it, is
    as it was before the call. *)
Theorem failed_write_propagates_and_keeps_snapshot
    (env : Environment) (ptoi : list string → Z → Result string)
    (fan : Fan.FanBase) (cmd : Fan.Command) (w : World) (e : Exn) :
  let o := Fan.run_command env ptoi fan cmd w in
  Exists (write_failed e) (trace_of o) →
  result_of o = Raise e
  ∧ status (self (world_of o)) = status (self w)
  ∧ world_of o = w.
Proof.
  cbv zeta. intros Hfailed.
  destruct (run_command_outcome env ptoi fan cmd w) as [r|ev e' Hev|ev w' Hok _ _];
    unfold result_of, world_of, trace_of in *; simpl in *.
  - by apply Exists_nil in Hfailed.
  - apply Exists_cons in Hfailed as [Hfailed|Hfailed]; [| by apply Exists_nil in Hfailed].
    destruct ev as [| | |c k v [a|e0]|c data [a|e0]|]; simpl in *; try done;
      by subst.
  - apply Exists_cons in Hfailed as [Hfailed|Hfailed].
    + destruct ev as [| | |c k v [a|e0]|c data [a|e0]|]; simpl in *; done.
    + apply Exists_cons in Hfailed as [Hfailed|Hfailed]; [done |].
      by apply Exists_nil in Hfailed.
Qed.

Lemma failed_write_propagates_and_keeps_snapshot_witness :
  let o := Fan.run_command Examples.refusing Examples.first_speed Examples.fan
             Fan.TurnOff Examples.watched in
  result_of o = Raise (DeviceError 5)
  ∧ status (self (world_of o)) = status (self Examples.watched)
  ∧ world_of o = Examples.watched.
Proof.
  apply (failed_write_propagates_and_keeps_snapshot Examples.refusing
           Examples.first_speed Examples.fan Fan.TurnOff Examples.watched
           (DeviceError 5)).
  apply Exists_cons_hd. reflexivity.
Defined.

Lemma invocations_single (cb own : Callback) (evs : list Event) :
  invoked evs = [own] →
  invocations cb evs = if decide (cb = own) then 1 else 0.
Proof.
  unfold invocations. intros ->.
  destruct (decide (cb = own)) as [->|Hne].
  - by rewrite filter_cons_True.
  - by rewrite filter_cons_False by congruence.
Qed.

(** C2, as the code has it: when a write command of the fan entity has its
    write accepted and returns, the entity's own update handler has been
    called exactly once and no other callback has been called (the registry
    of the coordinator is not consulted); and unless the command went
    through the speed table of [async_set_percentage], the cached snapshot
    holds the written value for every written key. *)
Theorem successful_write_updates_snapshot_and_own_entity
    (env : Environment) (ptoi : list string → Z → Result string)
    (fan : Fan.FanBase) (cmd : Fan.Command) (w : World) :
  let o := Fan.run_command env ptoi fan cmd w in
  result_of o = Ok tt →
  Exists write_ok (trace_of o) →
  invoked (trace_of o) = [EntityUpdate (Fan.entity fan)]
  ∧ (∀ cb, invocations cb (trace_of o)
           = if decide (cb = EntityUpdate (Fan.entity fan)) then 1 else 0)
  ∧ _listeners (self (world_of o)) = _listeners (self w)
  ∧ (Fan.via_speed_table cmd = false →
     Forall (reflects (status (self (world_of o)))) (trace_of o)).
Proof.
  cbv zeta. intros Hres Hwritten.
  assert (invoked (trace_of (Fan.run_command env ptoi fan cmd w))
          = [EntityUpdate (Fan.entity fan)]
          ∧ _listeners (self (world_of (Fan.run_command env ptoi fan cmd w)))
            = _listeners (self w)
          ∧ (Fan.via_speed_table cmd = false →
             Forall (reflects (status (self (world_of (Fan.run_command env ptoi fan cmd w)))))
               (trace_of (Fan.run_command env ptoi fan cmd w)))) as (Hinv & Hls & Hrefl).
  { destruct (run_command_outcome env ptoi fan cmd w)
      as [r|ev e' Hev|ev w' Hok Hfaith Hframe];
      unfold result_of, world_of, trace_of in *; simpl in *.
    - by apply Exists_nil in Hwritten.
    - done.
    - split; [| split].
      + destruct ev as [| | |c k v [a|e0]|c data [a|e0]|]; simpl in *; done.
      + by destruct Hframe as (_ & _ & _ & _ & Hl & _).
      + intros Hvia. rewrite Hvia in Hfaith. simpl in Hfaith.
        repeat constructor; done. }
  split; [done |]. split; [| done].
  intros cb. by apply invocations_single.
Qed.

Lemma successful_write_updates_snapshot_and_own_entity_witness :
  let o := Fan.run_command Examples.calm Examples.first_speed Examples.fan
             Fan.TurnOff Examples.watched in
  invoked (trace_of o) = [EntityUpdate 0]
  ∧ (∀ cb, invocations cb (trace_of o) = if decide (cb = EntityUpdate 0) then 1 else 0)
  ∧ _listeners (self (world_of o)) = _listeners (self Examples.watched)
  ∧ (Fan.via_speed_table Fan.TurnOff = false →
     Forall (reflects (status (self (world_of o)))) (trace_of o)).
Proof.
  apply (successful_write_updates_snapshot_and_own_entity Examples.calm
           Examples.first_speed Examples.fan Fan.TurnOff Examples.watched).
  - reflexivity.
  - apply Exists_cons_hd. exact I.
Defined.

(** C2, as the claim states it, fails: with the fan entity and a sensor
    entity registered, a successful [async_turn_off] calls the handler of the
    fan entity only; the callback of the sensor is not called. *)
Lemma successful_write_counterexample :
  ¬ (∀ (env : Environment) (ptoi : list string → Z → Result string)
       (fan : Fan.FanBase) (cmd : Fan.Command) (w : World),
       let o := Fan.run_command env ptoi fan cmd w in
       result_of o = Ok tt →
       Exists write_ok (trace_of o) →
       Forall (reflects (status (self (world_of o)))) (trace_of o)
       ∧ (∀ cb, cb ∈ _listeners (self w) → invocations cb (trace_of o) = 1)).
Proof.
  intros H.
  destruct (H Examples.calm Examples.first_speed Examples.fan Fan.TurnOff
              Examples.watched) as [_ Hall].
  - reflexivity.
  - apply Exists_cons_hd. exact I.
  - specialize (Hall (EntityUpdate 1)).
    assert (invocations (EntityUpdate 1)
              (trace_of (Fan.run_command Examples.calm Examples.first_speed Examples.fan
                           Fan.TurnOff Examples.watched)) = 0) as H0 by reflexivity.
    rewrite H0 in Hall. assert (0 = 1) as Hbad; [| discriminate].
    apply Hall. vm_compute. repeat constructor.
Qed.

(** The branch of [async_set_percentage] that goes through the speed table
    leaves the snapshot as it was: the device is told mode [M], the cached
    snapshot still says [P]. *)
Example set_percentage_leaves_snapshot :
  let o := Fan.run_command Examples.calm Examples.first_speed Examples.fan
             (Fan.SetPercentage 50) Examples.watched in
  result_of o = Ok tt
  ∧ trace_of o
    = [EvSetControlValues 0 {[ "mode" := VStr "M"; "om" := VStr "1" ]} (Ok tt);
       EvInvoke (EntityUpdate 0) Examples.status_P]
  ∧ status (self (world_of o)) !! "mode" = Some (VStr "P").
Proof. vm_compute. by repeat split. Qed.

Example scenario_power_off :
  let o := Fan.run_command Examples.calm Examples.first_speed Examples.fan Fan.TurnOff
             Examples.watched in
  result_of o = Ok tt ∧ status (self (world_of o)) !! "pwr" = Some (VStr "0").
Proof. vm_compute. done. Qed.

(** ** Setup *)

(** C9: the first session is created under a timeout of 25 time units, once;
    when it does not come about in that time the setup raises
    [ConfigEntryNotReady] to its caller, registers nothing and does not try
    again. *)
Theorem setup_timeout_raises_not_ready
    (env : Setup.SetupEnvironment) (missed : nat) (entry : Setup.ConfigEntry)
    (data : gmap string Setup.ConfigEntryData) :
  Setup.create_within env (Setup.CONF_HOST entry) 25 = None →
  let o := Setup.async_setup_entry env missed entry data in
  o.1.1 = Raise ConfigEntryNotReady
  ∧ o.1.2 = data
  ∧ o.2 = [Setup.EvCreateSession (Setup.CONF_HOST entry) 25]
  ∧ Setup.creations o.2 = [(Setup.CONF_HOST entry, 25)].
Proof.
  intros Hlate. cbv zeta. unfold Setup.async_setup_entry, Setup.wait_for.
  rewrite Hlate. by simpl.
Qed.

Lemma setup_timeout_raises_not_ready_witness :
  let o := Setup.async_setup_entry Examples.silent 3 Examples.entry ∅ in
  o.1.1 = Raise ConfigEntryNotReady
  ∧ o.1.2 = ∅
  ∧ o.2 = [Setup.EvCreateSession (Setup.CONF_HOST Examples.entry) 25]
  ∧ Setup.creations o.2 = [(Setup.CONF_HOST Examples.entry, 25)].
Proof.
  apply (setup_timeout_raises_not_ready Examples.silent 3 Examples.entry ∅).
  reflexivity.
Defined.

(** Whatever the device answers, the setup path asks for a session once,
    under the timeout of 25. *)
Lemma setup_creates_once (env : Setup.SetupEnvironment) (missed : nat)
    (entry : Setup.ConfigEntry) (data : gmap string Setup.ConfigEntryData) :
  Setup.creations (Setup.async_setup_entry env missed entry data).2
  = [(Setup.CONF_HOST entry, 25)].
Proof.
  unfold Setup.async_setup_entry.
  destruct (Setup.wait_for _ _) as [c|[]]; try done.
  by destruct (Setup.async_forward_entry_setups env).
Qed.

(** * Further properties *)

(** ** Histories *)

Lemma exec_app (h1 h2 : Loop.History) (w : World) :
  Loop.exec (h1 ++ h2) w = Loop.exec h2 (Loop.exec h1 w).
Proof.
  revert w. induction h1 as [|[[env ptoi] a] h1 IH]; intros w; simpl; [done |].
  apply IH.
Qed.

Lemma on_resume_at_shutdown (env : Environment) (t : TaskId) (w : World) :
  Loop.active_coro (tasks w) t = Some ReconnectAtShutdown →
  world_of (Loop.on_resume env t w)
  = with_tasks (<[t := mkTask ReconnectAtCreate Active]> (tasks w)) w.
Proof.
  intros Hact. destruct (_reconnect_shutdown_run env w) as [tr Hrun].
  unfold Loop.on_resume, suspend_at. run_m. rewrite Hact, Hrun. done.
Qed.

Lemma on_resume_at_create (env : Environment) (t : TaskId) (w : World) :
  Loop.active_coro (tasks w) t = Some ReconnectAtCreate →
  world_of (Loop.on_resume env t w)
  = match client_create env (host (self w)) with
    | Ok cl =>
        let w1 := world_of (Coordinator._start_observing
                              (upd_self (with_client (Some cl)) w)) in
        with_tasks (finish_in t (tasks w1)) w1
    | Raise _ => with_tasks (finish_in t (tasks w)) w
    end.
Proof.
  intros Hact. destruct (_reconnect_create_run env w) as [tr Hrun].
  unfold Loop.on_resume, finish_task. run_m. rewrite Hact, Hrun. simpl.
  by destruct (client_create env (host (self w))).
Qed.

Lemma on_resume_idle (env : Environment) (t : TaskId) (w : World) :
  Loop.runs Loop.is_reconnect (tasks w) t = false →
  Loop.on_resume env t w = (Ok tt, w, []).
Proof.
  unfold Loop.runs, Loop.on_resume. run_m.
  by destruct (Loop.active_coro (tasks w) t) as [[| |]|].
Qed.

(** ** Reconnecting *)

(** X1: in any state the coordinator reaches, a call of [reconnect] whose
    task runs to its end with a session that can be created leaves the new
    session as the client, one active observation task (the new one, whether
    or not a listener is registered), no active reconnect task, and the
    snapshot and the registry as they were. *)
Theorem reconnect_installs_new_session
    (env1 env2 env3 : Environment) (p1 p2 p3 : list string → Z → Result string)
    (missed : nat) (cl : CoAPClient) (h0 : string) (st : Status) (h : Loop.History)
    (cl' : CoAPClient) :
  let w := Loop.exec h (Loop.fresh missed cl h0 st) in
  let n := length (tasks w) in
  client_create env3 (host (self w)) = Ok cl' →
  let w' := Loop.exec [(env1, p1, Loop.Reconnect); (env2, p2, Loop.Resume n);
                       (env3, p3, Loop.Resume n)] w in
  client (self w') = Some cl'
  ∧ _task (self w') = Some (S n)
  ∧ Loop.active_observers w' = [S n]
  ∧ Loop.active_reconnects w' = []
  ∧ status (self w') = status (self w)
  ∧ _listeners (self w') = _listeners (self w).
Proof.
  cbv zeta. set (w := Loop.exec h (Loop.fresh missed cl h0 st)).
  set (n := length (tasks w)). intros Hcreate.
  set (steps := [(env1, p1, Loop.Reconnect); (env2, p2, Loop.Resume n);
                 (env3, p3, Loop.Resume n)]).
  assert (wf (Loop.exec steps w)) as Hwf'.
  { unfold w. rewrite <- exec_app. apply wf_exec, wf_fresh. }
  set (w1 := world_of (Coordinator.reconnect w)).
  set (w2 := world_of (Loop.on_resume env2 n w1)).
  set (w3 := world_of (Loop.on_resume env3 n w2)).
  change (Loop.exec steps w) with w3 in *.
  assert (tasks w1 = cancel_opt (_reconnect_task (self w)) (tasks w)
                     ++ [mkTask ReconnectAtShutdown Active]
          ∧ self w1 = with_reconnect_task (Some n) (self w)) as [Ht1 Hs1].
  { unfold w1. by rewrite reconnect_run. }
  assert (Loop.active_coro (tasks w1) n = Some ReconnectAtShutdown) as Hact1.
  { rewrite Ht1, active_coro_spawn, length_cancel_opt. by rewrite decide_True. }
  assert (w2 = with_tasks (<[n := mkTask ReconnectAtCreate Active]> (tasks w1)) w1) as Hw2.
  { by apply on_resume_at_shutdown. }
  assert (Loop.active_coro (tasks w2) n = Some ReconnectAtCreate) as Hact2.
  { rewrite Hw2. simpl. unfold Loop.active_coro.
    rewrite list_lookup_insert_eq; [done |]. by eapply active_coro_Some_lt. }
  assert (length (tasks w2) = S n) as Hlen2.
  { rewrite Hw2. simpl. rewrite length_insert, Ht1, length_app, length_cancel_opt.
    simpl. lia. }
  pose proof (on_resume_at_create env3 n w2 Hact2) as Hw3. fold w3 in Hw3.
  assert (host (self w2) = host (self w)) as Hhost by (by rewrite Hw2; simpl; rewrite Hs1).
  rewrite Hhost, Hcreate in Hw3. cbv zeta in Hw3.
  rewrite _start_observing_run in Hw3. unfold world_of in Hw3. simpl in Hw3.
  rewrite Hlen2 in Hw3.
  assert (Loop.runs Loop.is_observe (tasks w3) (S n) = true) as Hobs.
  { rewrite Hw3. simpl. unfold Loop.runs. rewrite active_coro_finish_in.
    rewrite decide_False by lia. rewrite active_coro_spawn, length_cancel_opt, Hlen2.
    by rewrite decide_True. }
  destruct Hwf' as (Ho & Hr & _).
  assert (_task (self w3) = Some (S n)) as Htask by (by rewrite Hw3).
  split; [by rewrite Hw3 |]. split; [done |].
  rewrite Htask in Ho.
  split; [by apply active_tasks_only |].
  split.
  { apply elem_of_nil_inv. intros t Ht%elem_of_active_tasks.
    pose proof (proj1 Hr t Ht) as Hfield.
    assert (_reconnect_task (self w3) = Some n) as Hrt.
    { rewrite Hw3. simpl. rewrite Hw2. simpl. by rewrite Hs1. }
    rewrite Hrt in Hfield. injection Hfield as <-.
    apply runs_true in Ht as (c & Hc & _). rewrite Hw3 in Hc. simpl in Hc.
    rewrite active_coro_finish_in in Hc. by rewrite decide_True in Hc. }
  rewrite Hw3. simpl. rewrite Hw2. simpl. rewrite Hs1. done.
Qed.

Lemma reconnect_installs_new_session_witness :
  let w := Loop.exec [] (Loop.fresh 3 0 "192.168.0.17" Examples.status_P) in
  let n := length (tasks w) in
  let w' := Loop.exec [(Examples.calm, Examples.first_speed, Loop.Reconnect);
                       (Examples.calm, Examples.first_speed, Loop.Resume n);
                       (Examples.calm, Examples.first_speed, Loop.Resume n)] w in
  client (self w') = Some 1
  ∧ _task (self w') = Some (S n)
  ∧ Loop.active_observers w' = [S n]
  ∧ Loop.active_reconnects w' = []
  ∧ status (self w') = status (self w)
  ∧ _listeners (self w') = _listeners (self w).
Proof.
  apply (reconnect_installs_new_session Examples.calm Examples.calm Examples.calm
           Examples.first_speed Examples.first_speed Examples.first_speed
           3 0 "192.168.0.17" Examples.status_P [] 1).
  reflexivity.
Defined.

Lemma lookup_finish_in_ne (t t' : TaskId) (ts : list Task) :
  t ≠ t' → finish_in t ts !! t' = ts !! t'.
Proof.
  intros Hne. unfold finish_in. destruct (ts !! t) as [tk|]; [| done].
  by apply list_lookup_insert_ne.
Qed.

Lemma active_tasks_ext (kind : Coro → bool) (w w' : World) :
  length (tasks w') = length (tasks w) →
  (∀ t, Loop.runs kind (tasks w') t = Loop.runs kind (tasks w) t) →
  Loop.active_tasks kind w' = Loop.active_tasks kind w.
Proof.
  intros Hlen Hruns. unfold Loop.active_tasks. rewrite Hlen.
  apply list_filter_iff. intros t. by rewrite Hruns.
Qed.

Lemma length_finish_in (t : TaskId) (ts : list Task) :
  length (finish_in t ts) = length ts.
Proof.
  unfold finish_in. destruct (ts !! t); [apply length_insert | done].
Qed.

Lemma runs_finish_other_kind (kind : Coro → bool) (ts : list Task) (t t' : TaskId) :
  Loop.runs kind ts t = false →
  Loop.runs kind (finish_in t ts) t' = Loop.runs kind ts t'.
Proof.
  intros Hk. unfold Loop.runs in *. rewrite active_coro_finish_in.
  destruct (decide (t' = t)) as [->|Hne]; [| done].
  by destruct (Loop.active_coro ts t).
Qed.

Lemma _reconnect_create_fails (env : Environment) (w : World) (e : Exn) :
  client_create env (host (self w)) = Raise e →
  Coordinator._reconnect_create env w = (Ok tt, w, [EvClientCreate (host (self w))]).
Proof.
  intros H. unfold Coordinator._reconnect_create, Coordinator.await_client_create.
  run_m. by rewrite H.
Qed.

(** X2: when the session cannot be created, [_reconnect] swallows the
    error: the reconnect task ends, every attribute of the coordinator (the
    old client among them) is as before, no observation task is started, and
    the observation tasks that were active stay as they were. *)
Theorem reconnect_failure_is_swallowed
    (env : Environment) (t : TaskId) (w : World) (e : Exn) :
  Loop.active_coro (tasks w) t = Some ReconnectAtCreate →
  client_create env (host (self w)) = Raise e →
  let o := Loop.on_resume env t w in
  result_of o = Ok tt
  ∧ trace_of o = [EvClientCreate (host (self w))]
  ∧ self (world_of o) = self w
  ∧ tasks (world_of o) !! t = Some (mkTask ReconnectAtCreate Finished)
  ∧ (∀ t', t' ≠ t → tasks (world_of o) !! t' = tasks w !! t')
  ∧ length (tasks (world_of o)) = length (tasks w)
  ∧ Loop.active_observers (world_of o) = Loop.active_observers w.
Proof.
  intros Hact Hfail. cbv zeta.
  assert (Loop.on_resume env t w
          = (Ok tt, with_tasks (finish_in t (tasks w)) w,
             [EvClientCreate (host (self w))])) as Hrun.
  { unfold Loop.on_resume, finish_task. run_m.
    rewrite Hact, (_reconnect_create_fails env w e Hfail). done. }
  rewrite Hrun. unfold result_of, world_of, trace_of. simpl.
  split; [done |]. split; [done |]. split; [done |].
  split; [by apply lookup_finish_in |].
  split; [intros t' Hne; apply lookup_finish_in_ne; congruence |].
  split; [apply length_finish_in |].
  apply active_tasks_ext; simpl; [apply length_finish_in |].
  intros t'. apply runs_finish_other_kind. unfold Loop.runs. by rewrite Hact.
Qed.

Lemma reconnect_failure_is_swallowed_witness :
  let refused := mkEnvironment (λ _, Ok tt) (λ _, Raise (DeviceError 9))
                   (λ _ _ _, Ok tt) (λ _ _, Ok tt) (λ _ _, Ok tt) (λ _ _, Ok tt) in
  let w := Loop.exec [(Examples.calm, Examples.first_speed, Loop.Reconnect);
                      (Examples.calm, Examples.first_speed, Loop.Resume 0)]
             Examples.purifier in
  let o := Loop.on_resume refused 0 w in
  result_of o = Ok tt
  ∧ trace_of o = [EvClientCreate (host (self w))]
  ∧ self (world_of o) = self w
  ∧ tasks (world_of o) !! 0 = Some (mkTask ReconnectAtCreate Finished)
  ∧ (∀ t', t' ≠ 0 → tasks (world_of o) !! t' = tasks w !! t')
  ∧ length (tasks (world_of o)) = length (tasks w)
  ∧ Loop.active_observers (world_of o) = Loop.active_observers w.
Proof.
  apply (reconnect_failure_is_swallowed
           (mkEnvironment (λ _, Ok tt) (λ _, Raise (DeviceError 9))
              (λ _ _ _, Ok tt) (λ _ _, Ok tt) (λ _ _, Ok tt) (λ _ _, Ok tt))
           0 _ (DeviceError 9)); reflexivity.
Defined.

(** ** The snapshot during an outage *)

Lemma on_tick_status (w : World) :
  status (self (world_of (Loop.on_tick w))) = status (self w).
Proof.
  unfold Loop.on_tick. run_m.
  destruct (Timer.expires (_timer_disconnected (self w))); [| done].
  destruct (Timer.callback (_timer_disconnected (self w))).
  by rewrite reconnect_run.
Qed.

Lemma on_resume_status (env : Environment) (t : TaskId) (w : World) :
  status (self (world_of (Loop.on_resume env t w))) = status (self w).
Proof.
  destruct (Loop.active_coro (tasks w) t) as [[| |]|] eqn:Hact.
  - rewrite on_resume_idle; [done |]. unfold Loop.runs. by rewrite Hact.
  - by rewrite on_resume_at_shutdown.
  - rewrite on_resume_at_create by done.
    destruct (client_create env (host (self w))); [| done].
    cbv zeta. by rewrite _start_observing_run.
  - rewrite on_resume_idle; [done |]. unfold Loop.runs. by rewrite Hact.
Qed.

Lemma run_status (env : Environment) (ptoi : list string → Z → Result string)
    (a : Loop.Action) (w : World) :
  writes_status a = false →
  status (self (world_of (Loop.run env ptoi a w))) = status (self w).
Proof.
  destruct a as [cb|cb| | |fan cmd|t s|t|t|]; simpl; try done; intros _.
  - run_m. rewrite async_add_listener_run. simpl.
    by destruct (_listeners (self w)).
  - destruct (list_remove cb (_listeners (self w))) as [l|] eqn:El.
    + rewrite (async_remove_listener_run cb w l El). unfold world_of. simpl.
      by destruct l, (_task (self w)).
    + apply list_remove_None in El. by rewrite (async_remove_listener_absent w cb El).
  - by rewrite reconnect_run.
  - by rewrite shutdown_run.
  - unfold Loop.on_stream_end, finish_task. run_m.
    by destruct (Loop.active_coro (tasks w) t) as [[| |]|].
  - apply on_resume_status.
  - apply on_tick_status.
Qed.

(** X3: the cached snapshot is only ever changed by a snapshot from the
    stream or by a write command.  Listener calls, [reconnect] and its task
    (whether it succeeds or fails), [shutdown], a stream that ends and the
    watchdog leave it as it is: an outage never clears it. *)
Theorem snapshot_kept_without_updates (h : Loop.History) (w : World) :
  Forall (λ x, writes_status x.2 = false) h →
  status (self (Loop.exec h w)) = status (self w).
Proof.
  revert w. induction h as [|[[env ptoi] a] h IH]; intros w Hall; simpl; [done |].
  apply Forall_cons in Hall as [Ha Hall]. rewrite IH by done.
  by apply run_status.
Qed.

Lemma snapshot_kept_without_updates_witness :
  let step a := (Examples.faulty, Examples.first_speed, a) in
  status (self (Loop.exec [step (Loop.AddListener (Foreign 1)); step (Loop.StreamEnd 0);
                           step Loop.Reconnect; step (Loop.Resume 1);
                           step (Loop.Resume 1); step Loop.Tick; step Loop.Shutdown;
                           step (Loop.RemoveListener (Foreign 1))]
                  Examples.purifier))
  = status (self Examples.purifier).
Proof.
  apply (snapshot_kept_without_updates
           (map (λ a, (Examples.faulty, Examples.first_speed, a))
              [Loop.AddListener (Foreign 1); Loop.StreamEnd 0; Loop.Reconnect;
               Loop.Resume 1; Loop.Resume 1; Loop.Tick; Loop.Shutdown;
               Loop.RemoveListener (Foreign 1)])
           Examples.purifier).
  repeat constructor.
Defined.

(** ** Registering and unregistering *)

Lemma list_remove_app_last {A} `{EqDecision A} (x : A) (l : list A) :
  ∃ l', list_remove x (l ++ [x]) = Some l' ∧ l' ≡ₚ l ∧ (x ∉ l → l' = l).
Proof.
  induction l as [|y l IH]; simpl.
  - rewrite decide_True by done. eauto.
  - destruct (decide (x = y)) as [->|Hne].
    + exists (l ++ [y]). split; [done |]. split.
      * by rewrite <- Permutation_cons_append.
      * intros Hn. exfalso. apply Hn. left.
    + destruct IH as (l' & -> & Hperm & Heq). exists (y :: l').
      split; [done |]. split; [by rewrite Hperm |].
      intros Hn. rewrite Heq; [done |]. intros Hin. apply Hn. by right.
Qed.

(** X4: the handle [async_add_listener] returns undoes the registration, in
    any state the coordinator reaches.  Adding a callback and calling the
    handle never raises and leaves the registry holding the same callbacks
    as before (in the same order when the callback was not registered
    already).  With other listeners registered, the tasks and the
    observation are as they were.  With no other listener, the observation
    task started for the callback is cancelled again and no observation
    task is left active: also not one that a reconnect had started before
    without listeners. *)
Theorem add_then_remove_restores_registry
    (missed : nat) (cl : CoAPClient) (h0 : string) (st : Status)
    (h : Loop.History) (cb : Callback) :
  let w := Loop.exec h (Loop.fresh missed cl h0 st) in
  let added := Coordinator.async_add_listener cb w in
  let removed := Coordinator.async_remove_listener cb (world_of added) in
  let w' := world_of removed in
  result_of added = Ok cb
  ∧ result_of removed = Ok tt
  ∧ _listeners (self w') ≡ₚ _listeners (self w)
  ∧ (cb ∉ _listeners (self w) → _listeners (self w') = _listeners (self w))
  ∧ (_listeners (self w) ≠ [] →
     tasks w' = tasks w
     ∧ _task (self w') = _task (self w)
     ∧ Loop.active_observers w' = Loop.active_observers w)
  ∧ (_listeners (self w) = [] →
     _task (self w') = None ∧ Loop.active_observers w' = []).
Proof.
  cbv zeta. set (w := Loop.exec h (Loop.fresh missed cl h0 st)).
  assert (wf w) as Hwf by apply wf_exec, wf_fresh.
  pose proof (wf_async_remove_listener cb _ (wf_async_add_listener cb w Hwf)) as Hwf2.
  set (w1 := world_of (Coordinator.async_add_listener cb w)) in *.
  assert (_listeners (self w1) = _listeners (self w) ++ [cb]) as Hl1.
  { unfold w1. rewrite async_add_listener_run. unfold world_of. simpl.
    by destruct (_listeners (self w)). }
  destruct (list_remove_app_last cb (_listeners (self w))) as (l' & Hrem & Hperm & Heq).
  rewrite <- Hl1 in Hrem.
  pose proof (async_remove_listener_run cb w1 l' Hrem) as Hrun.
  set (w2 := world_of (Coordinator.async_remove_listener cb w1)) in *.
  assert (_listeners (self w2) = l') as Hl2.
  { unfold w2. rewrite Hrun. unfold world_of. simpl.
    by destruct l', (_task (self w1)). }
  split; [by rewrite async_add_listener_run |].
  split; [by rewrite Hrun |].
  split; [by rewrite Hl2 |]. split; [by rewrite Hl2 |]. split.
  - intros Hne.
    assert (w1 = upd_self (with_listeners (_listeners (self w) ++ [cb])) w) as Hw1.
    { unfold w1. rewrite async_add_listener_run. unfold world_of. simpl.
      by destruct (_listeners (self w)). }
    assert (w2 = upd_self (with_listeners l') w1) as Hw2.
    { unfold w2. rewrite Hrun. unfold world_of. simpl.
      destruct l' as [|c l']; [| done].
      apply Permutation_nil_l in Hperm. by rewrite Hperm in Hne. }
    assert (tasks w2 = tasks w ∧ _task (self w2) = _task (self w)) as [Ht Htask].
    { rewrite Hw2, Hw1. done. }
    split; [done |]. split; [done |].
    apply active_tasks_ext; by rewrite Ht.
  - intros Hnil.
    assert (_task (self w2) = None) as Htask.
    { assert (l' = []) as -> by (rewrite Hnil in Hperm; by apply Permutation_nil_r).
      unfold w2. rewrite Hrun. unfold world_of. simpl.
      assert (∃ t, _task (self w1) = Some t) as [t ->]; [| done].
      unfold w1. rewrite async_add_listener_run. unfold world_of. simpl.
      rewrite Hnil. simpl. eauto. }
    split; [done |]. apply active_tasks_none.
    destruct Hwf2 as [Hobs _]. fold w1 w2 in Hobs. by rewrite Htask in Hobs.
Qed.

(** ** How often a listener is called *)

Lemma registrations_app (cb : Callback) (l1 l2 : list Callback) :
  registrations cb (l1 ++ l2) = registrations cb l1 + registrations cb l2.
Proof. unfold registrations. by rewrite filter_app, length_app. Qed.

Lemma invocations_map (cb : Callback) (st : Status) (l : list Callback) :
  invocations cb (map (λ c, EvInvoke c st) l) = registrations cb l.
Proof. unfold invocations, registrations. by rewrite invoked_map. Qed.

Lemma round_calls_each_listener_bound
    (env : Environment) (snapshot : Status) (w : World) (cb : Callback) :
  invocations cb (trace_of (Coordinator.observe_body env snapshot w))
  ≤ registrations cb (_listeners (self w))
  ∧ (result_of (Coordinator.observe_body env snapshot w) = Ok tt →
     invocations cb (trace_of (Coordinator.observe_body env snapshot w))
     = registrations cb (_listeners (self w))).
Proof.
  rewrite observe_body_run.
  pose proof (for_each_invoke env (_listeners (self w))
                (upd_self (with_status snapshot) w)) as H.
  cbv zeta in H. destruct (for_each _ _ _) as [[r w1] t1].
  unfold result_of, world_of, trace_of in *. simpl in *.
  destruct H as (_ & _ & H).
  destruct H as [(Hr & -> & _)|(pre & c & post & e & Hl & _ & _ & -> & ->)].
  - rewrite invocations_map. split; [lia | done].
  - rewrite invocations_map, Hl.
    replace (pre ++ c :: post) with ((pre ++ [c]) ++ post)
      by (by rewrite <- app_assoc).
    rewrite (registrations_app cb (pre ++ [c]) post). split; [lia | done].
Qed.

Lemma registrations_sublist (cb : Callback) (l1 l2 : list Callback) :
  l1 `sublist_of` l2 → registrations cb l1 ≤ registrations cb l2.
Proof.
  unfold registrations. induction 1 as [|x l1 l2 _ IH|x l1 l2 _ IH]; [done | |].
  - destruct (decide (x = cb)).
    + rewrite !filter_cons_True by done. simpl. lia.
    + by rewrite !filter_cons_False by done.
  - destruct (decide (x = cb)).
    + rewrite filter_cons_True by done. simpl. lia.
    + by rewrite filter_cons_False by done.
Qed.

(** X5: in one round of the observation loop a callback is never called
    more often than it was registered when the round began, whatever the
    callbacks raise or unsubscribe during the round, and a callback that
    was not registered is not called.  When no registered callback raises
    or unsubscribes anything, the round returns and has called every
    callback exactly as often as it is registered: once if registered once,
    twice if registered twice. *)
Theorem round_calls_each_listener_as_registered
    (env : Environment) (unsubscribes : Callback → Status → list Callback)
    (snapshot : Status) (w : World) (cb : Callback) :
  let o := Coordinator.observe_body_unsubscribing env unsubscribes snapshot w in
  let registered := _listeners (self w) in
  invocations cb (trace_of o) ≤ registrations cb registered
  ∧ (cb ∉ registered → invocations cb (trace_of o) = 0)
  ∧ ((∀ c, c ∈ registered → unsubscribes c snapshot = []) →
     Forall (λ c, callback_result env c snapshot = Ok tt) registered →
     result_of o = Ok tt
     ∧ invocations cb (trace_of o) = registrations cb registered).
Proof.
  cbv zeta.
  assert (invoked (trace_of (Coordinator.observe_body_unsubscribing env unsubscribes
                               snapshot w))
          `sublist_of` _listeners (self w)) as Hsub.
  { unfold Coordinator.observe_body_unsubscribing, Coordinator.observe_round. run_m.
    pose proof (notify_unsubscribing env unsubscribes (length (_listeners (self w))) 0
                  (upd_self (with_status snapshot) w)) as H.
    cbv zeta in H. destruct (Coordinator.notify _ _ _ _) as [[r w1] t1].
    unfold trace_of in H. simpl in *. by destruct H as (_ & _ & _ & H). }
  assert (invocations cb (trace_of (Coordinator.observe_body_unsubscribing env
                                      unsubscribes snapshot w))
          ≤ registrations cb (_listeners (self w))) as Hle.
  { by apply registrations_sublist. }
  split; [done |]. split.
  - intros Hn.
    assert (registrations cb (_listeners (self w)) = 0) as Hz; [| lia].
    unfold registrations. apply length_zero_iff_nil, elem_of_nil_inv.
    intros x [-> Hin]%list_elem_of_filter. done.
  - intros Hq Hall. rewrite (observe_body_quiet env unsubscribes snapshot w Hq).
    destruct (observe_body_ok env snapshot w Hall) as (w1 & -> & _).
    unfold result_of, trace_of. simpl. split; [done | apply invocations_map].
Qed.


Lemma list_remove_registrations (cb : Callback) (l l' : list Callback) :
  list_remove cb l = Some l' →
  registrations cb l = S (registrations cb l')
  ∧ (∀ cb', cb' ≠ cb → registrations cb' l' = registrations cb' l).
Proof.
  revert l'. induction l as [|y l IH]; intros l' Hrem; simpl in Hrem; [done |].
  unfold registrations in *.
  destruct (decide (cb = y)) as [->|Hne].
  - injection Hrem as <-. split.
    + by rewrite filter_cons_True.
    + intros cb' Hne'. by rewrite filter_cons_False by congruence.
  - destruct (list_remove cb l) as [r|] eqn:E; [| done]. injection Hrem as <-.
    destruct (IH r eq_refl) as [Hcb Hother]. split.
    + rewrite !filter_cons_False by congruence. done.
    + intros cb' Hne'. destruct (decide (y = cb')) as [->|Hy].
      * rewrite !filter_cons_True by done. simpl. f_equal. by apply Hother.
      * rewrite !filter_cons_False by done. by apply Hother.
Qed.

(** X6: [async_remove_listener] takes away one registration of the callback
    and none of any other callback.  A callback that was registered once is
    not called again; in general it is called less often in any later round
    than it was registered before. *)
Theorem removed_listener_is_called_less
    (cb : Callback) (w : World) :
  result_of (Coordinator.async_remove_listener cb w) = Ok tt →
  let w' := world_of (Coordinator.async_remove_listener cb w) in
  registrations cb (_listeners (self w)) = S (registrations cb (_listeners (self w')))
  ∧ (∀ cb', cb' ≠ cb →
       registrations cb' (_listeners (self w')) = registrations cb' (_listeners (self w)))
  ∧ (∀ env snapshot,
       invocations cb (trace_of (Coordinator.observe_body env snapshot w'))
       < registrations cb (_listeners (self w))).
Proof.
  intros Hok. cbv zeta.
  destruct (list_remove cb (_listeners (self w))) as [l|] eqn:El.
  - assert (_listeners (self (world_of (Coordinator.async_remove_listener cb w))) = l)
      as Hl.
    { rewrite (async_remove_listener_run cb w l El). unfold world_of. simpl.
      by destruct l, (_task (self w)). }
    destruct (list_remove_registrations cb _ l El) as [Hcb Hother].
    rewrite Hl. split; [done |]. split; [done |].
    intros env snapshot.
    pose proof (round_calls_each_listener_bound env snapshot
                  (world_of (Coordinator.async_remove_listener cb w)) cb) as [Hle _].
    rewrite Hl in Hle. lia.
  - apply list_remove_None in El.
    by rewrite (async_remove_listener_absent w cb El) in Hok.
Qed.

Lemma removed_listener_is_called_less_witness :
  let w' := world_of (Coordinator.async_remove_listener (Foreign 1) Examples.crowded) in
  registrations (Foreign 1) (_listeners (self Examples.crowded))
  = S (registrations (Foreign 1) (_listeners (self w')))
  ∧ (∀ cb', cb' ≠ Foreign 1 →
       registrations cb' (_listeners (self w'))
       = registrations cb' (_listeners (self Examples.crowded)))
  ∧ (∀ env snapshot,
       invocations (Foreign 1) (trace_of (Coordinator.observe_body env snapshot w'))
       < registrations (Foreign 1) (_listeners (self Examples.crowded))).
Proof.
  apply (removed_listener_is_called_less (Foreign 1) Examples.crowded).
  reflexivity.
Defined.

(** ** After shutdown *)

Lemma cancel_in_idem (t : TaskId) (ts : list Task) :
  cancel_in t (cancel_in t ts) = cancel_in t ts.
Proof.
  destruct (ts !! t) as [tk|] eqn:E.
  - destruct (state tk) eqn:Es.
    + assert (cancel_in t ts = <[t := mkTask (coro tk) Cancelled]> ts) as ->
        by (unfold cancel_in; by rewrite E, Es).
      unfold cancel_in.
      by rewrite list_lookup_insert_eq by (by eapply lookup_lt_Some).
    + assert (cancel_in t ts = ts) as -> by (unfold cancel_in; by rewrite E, Es).
      unfold cancel_in. by rewrite E, Es.
    + assert (cancel_in t ts = ts) as -> by (unfold cancel_in; by rewrite E, Es).
      unfold cancel_in. by rewrite E, Es.
  - assert (cancel_in t ts = ts) as -> by (unfold cancel_in; by rewrite E).
    unfold cancel_in. by rewrite E.
Qed.

(** X7: [shutdown] may be called again: the second call asks the client to
    shut down once more and leaves the coordinator and the tasks exactly as
    the first call left them. *)
Theorem shutdown_twice_changes_nothing_more (env1 env2 : Environment) (w : World) :
  let once := Coordinator.shutdown env1 w in
  let twice := Coordinator.shutdown env2 (world_of once) in
  world_of twice = world_of once
  ∧ trace_of twice = trace_of once
  ∧ result_of twice = match client (self w) with
                      | Some c => client_shutdown env2 c
                      | None => Ok tt
                      end.
Proof.
  cbv zeta. rewrite !shutdown_run. unfold world_of, trace_of, result_of. simpl.
  split; [| done].
  destruct (_reconnect_task (self w)) as [t|]; simpl; [| done].
  by rewrite cancel_in_idem.
Qed.

(** ** After the shutdown *)

Lemma runs_cancel_in_false (kind : Coro → bool) (ts : list Task) (t t' : TaskId) :
  Loop.runs kind ts t' = false → Loop.runs kind (cancel_in t ts) t' = false.
Proof.
  unfold Loop.runs. rewrite active_coro_cancel_in. by destruct (decide (t' = t)).
Qed.

Lemma runs_cancel_opt_false (kind : Coro → bool) (ts : list Task) (o : option TaskId)
    (t' : TaskId) :
  Loop.runs kind ts t' = false → Loop.runs kind (cancel_opt o ts) t' = false.
Proof. destruct o; simpl; [apply runs_cancel_in_false | done]. Qed.

Lemma runs_finish_in_false (kind : Coro → bool) (ts : list Task) (t t' : TaskId) :
  Loop.runs kind ts t' = false → Loop.runs kind (finish_in t ts) t' = false.
Proof.
  unfold Loop.runs. rewrite active_coro_finish_in. by destruct (decide (t' = t)).
Qed.

Lemma runs_reconnect_spawn_observer (ts : list Task) (t' : TaskId) :
  Loop.runs Loop.is_reconnect ts t' = false →
  Loop.runs Loop.is_reconnect (ts ++ [mkTask ObserveStatus Active]) t' = false.
Proof.
  unfold Loop.runs. rewrite active_coro_spawn. by destruct (decide (t' = length ts)).
Qed.

(** A step other than a call of [reconnect], taken while no reconnect task
    is active and the watchdog is stopped: no reconnect task becomes
    active, the client stays, and neither [reconnect] is entered nor a
    session created. *)
Lemma run_without_reconnect (env : Environment)
    (ptoi : list string → Z → Result string) (a : Loop.Action) (w : World) :
  calls_reconnect a = false →
  wf w →
  (∀ t, Loop.runs Loop.is_reconnect (tasks w) t = false) →
  let o := Loop.run env ptoi a w in
  (∀ t, Loop.runs Loop.is_reconnect (tasks (world_of o)) t = false)
  ∧ client (self (world_of o)) = client (self w)
  ∧ Forall (λ ev, reconnecting ev = false) (trace_of o).
Proof.
  intros Ha Hwf Hnone. cbv zeta.
  destruct a as [cb|cb| | |fan cmd|t s|t|t|]; simpl in *; try done.
  - run_m. rewrite async_add_listener_run. simpl.
    split; [| by destruct (_listeners (self w))].
    intros t. destruct (_listeners (self w)); simpl; [| done].
    by apply runs_reconnect_spawn_observer, runs_cancel_opt_false.
  - destruct (list_remove cb (_listeners (self w))) as [l|] eqn:El.
    + rewrite (async_remove_listener_run cb w l El). unfold world_of, trace_of. simpl.
      split; [| by destruct l, (_task (self w))].
      intros t. destruct l, (_task (self w)); simpl; try done.
      by apply runs_cancel_in_false.
    + apply list_remove_None in El. by rewrite (async_remove_listener_absent w cb El).
  - rewrite shutdown_run. unfold world_of, trace_of. simpl.
    split; [intros t; by apply runs_cancel_opt_false |]. split; [done |].
    destruct (client (self w)); by repeat constructor.
  - destruct (keeps_run_command env ptoi fan cmd w) as (Ht & _ & _ & _ & _ & Hc & _).
    split; [intros t; by rewrite Ht |]. split; [done |].
    pose proof (run_command_outcome env ptoi fan cmd w) as Hout.
    inversion Hout as [r Hr|ev e Hev Hr|ev w' Hev Hst Hfr Hr]; unfold trace_of; simpl.
    + done.
    + apply Forall_singleton. by destruct ev.
    + repeat constructor. by destruct ev.
  - unfold Loop.on_snapshot. run_m.
    destruct (Loop.active_coro (tasks w) t) as [[| |]|] eqn:Hact; simpl; try done.
    pose proof (observe_body_frame env s w) as [Hself Htasks].
    pose proof (observe_body_run env s w) as Hrun.
    pose proof (for_each_invoke env (_listeners (self w))
                  (upd_self (with_status s) w)) as Hcalls.
    cbv zeta in Hcalls. rewrite <- Hrun in Hcalls. clear Hrun.
    destruct (Coordinator.observe_body env s w) as [[r w1] t1].
    unfold result_of, world_of, trace_of, finish_task in *. simpl in *.
    assert (Forall (λ ev, reconnecting ev = false) t1) as Htr.
    { destruct Hcalls as (_ & _ & [(_ & -> & _)|(pre & c & post & e & _ & _ & _ & _ & ->)]);
        apply Forall_forall; intros ev (c0 & -> & _)%list_elem_of_fmap; done. }
    destruct r as [[]|e]; simpl.
    + split; [intros t'; by rewrite Htasks |]. split; [by rewrite Hself | done].
    + rewrite app_nil_r. rewrite Htasks.
      split; [intros t'; by apply runs_finish_in_false |].
      split; [by rewrite Hself | done].
  - unfold Loop.on_stream_end, finish_task. run_m.
    destruct (Loop.active_coro (tasks w) t) as [[| |]|]; simpl; try done.
    split; [intros t'; by apply runs_finish_in_false | done].
  - by rewrite on_resume_idle.
  - destruct Hwf as (_ & _ & Htm). by rewrite on_tick_stopped.
Qed.

Lemma exec_without_reconnect (h : Loop.History) (w : World) :
  Forall (λ x, calls_reconnect x.2 = false) h →
  wf w →
  (∀ t, Loop.runs Loop.is_reconnect (tasks w) t = false) →
  (∀ t, Loop.runs Loop.is_reconnect (tasks (Loop.exec h w)) t = false)
  ∧ client (self (Loop.exec h w)) = client (self w)
  ∧ Forall (λ ev, reconnecting ev = false) (history_trace h w).
Proof.
  revert w. induction h as [|[[env ptoi] a] h IH]; intros w Hall Hwf Hnone; simpl;
    [done |].
  apply Forall_cons in Hall as [Ha Hall]. simpl in Ha.
  destruct (run_without_reconnect env ptoi a w Ha Hwf Hnone) as (Hnone1 & Hc1 & Htr1).
  destruct (IH _ Hall (wf_run env ptoi a w Hwf) Hnone1) as (Hnone2 & Hc2 & Htr2).
  split; [done |]. split; [congruence |]. by apply Forall_app.
Qed.

(** X8: once [shutdown] has been called in a state the coordinator reaches,
    and as long as [reconnect] is not called again from outside, no
    reconnect task is ever active, the client is never replaced, and neither
    is [reconnect] entered nor a session created, whatever else happens:
    listeners come and go, commands are sent, snapshots arrive, tasks are
    resumed and time passes.  So a reconnect that was pending at the
    shutdown never completes, and the cancelled watchdog starts none. *)
Theorem no_reconnect_after_shutdown
    (env : Environment) (missed : nat) (cl : CoAPClient) (h0 : string)
    (st : Status) (h later : Loop.History) :
  let w := world_of (Coordinator.shutdown env
                       (Loop.exec h (Loop.fresh missed cl h0 st))) in
  Forall (λ x, calls_reconnect x.2 = false) later →
  Loop.active_reconnects (Loop.exec later w) = []
  ∧ client (self (Loop.exec later w)) = client (self w)
  ∧ Forall (λ ev, reconnecting ev = false) (history_trace later w).
Proof.
  cbv zeta. set (w0 := Loop.exec h (Loop.fresh missed cl h0 st)). intros Hlater.
  assert (wf w0) as Hwf by apply wf_exec, wf_fresh.
  assert (∀ t', Loop.runs Loop.is_reconnect
                  (tasks (world_of (Coordinator.shutdown env w0))) t' = false) as Hnone.
  { intros t'. rewrite shutdown_run. unfold world_of. simpl.
    destruct Hwf as (_ & Hr & _). apply (wf_kind_cancel_own _ _ _ Hr). }
  destruct (exec_without_reconnect later _ Hlater (wf_shutdown env w0 Hwf) Hnone)
    as (Hnone' & Hc & Htr).
  split; [| done].
  apply elem_of_nil_inv. intros t' Ht'%elem_of_active_tasks. by rewrite Hnone' in Ht'.
Qed.

Lemma no_reconnect_after_shutdown_witness :
  let w := world_of (Coordinator.shutdown Examples.calm
                       (Loop.exec
                          [(Examples.calm, Examples.first_speed,
                            Loop.AddListener (Foreign 0));
                           (Examples.calm, Examples.first_speed, Loop.Reconnect)]
                          (Loop.fresh 3 0 "192.168.0.17" Examples.status_P))) in
  let later :=
    map (λ a, (Examples.calm, Examples.first_speed, a))
      [Loop.Resume 1; Loop.Snapshot 0 Examples.status_A; Loop.Tick; Loop.Resume 1;
       Loop.RemoveListener (Foreign 0); Loop.AddListener (Foreign 1); Loop.Shutdown] in
  Loop.active_reconnects (Loop.exec later w) = []
  ∧ client (self (Loop.exec later w)) = client (self w)
  ∧ Forall (λ ev, reconnecting ev = false) (history_trace later w).
Proof.
  apply (no_reconnect_after_shutdown Examples.calm 3 0 "192.168.0.17" Examples.status_P
           [(Examples.calm, Examples.first_speed, Loop.AddListener (Foreign 0));
            (Examples.calm, Examples.first_speed, Loop.Reconnect)]).
  repeat constructor.
Defined.

(** ** Setting an entry up and unloading it *)


(** X10: when the creation of the session fails in time, nothing is
    registered and nothing is forwarded; a [TimeoutError] reaches the caller
    as [ConfigEntryNotReady], any other exception as it is. *)
Theorem setup_creation_error_propagates
    (env : Setup.SetupEnvironment) (missed : nat) (entry : Setup.ConfigEntry)
    (data : gmap string Setup.ConfigEntryData) (e : Exn) :
  Setup.create_within env (Setup.CONF_HOST entry) 25 = Some (Raise e) →
  Setup.async_setup_entry env missed entry data
  = (Raise (if decide (e = TimeoutError) then ConfigEntryNotReady else e), data,
     [Setup.EvCreateSession (Setup.CONF_HOST entry) 25]).
Proof.
  intros Hcreate. unfold Setup.async_setup_entry, Setup.wait_for. rewrite Hcreate.
  by destruct e.
Qed.


Lemma setup_creation_error_propagates_witness :
  Setup.async_setup_entry Samples.unreachable 3 Examples.entry ∅
  = (Raise (if decide (DeviceError 3 = TimeoutError) then ConfigEntryNotReady
            else DeviceError 3), ∅,
     [Setup.EvCreateSession (Setup.CONF_HOST Examples.entry) 25]).
Proof.
  apply (setup_creation_error_propagates Samples.unreachable 3 Examples.entry ∅
           (DeviceError 3)).
  reflexivity.
Defined.


Lemma unload_platforms_raise (env : Unload.UnloadEnvironment) (ps : list string)
    (e : Exn) :
  (Unload.unload_platforms env ps).1 = Raise e →
  ∃ p, p ∈ ps ∧ Unload.async_forward_entry_unload env p = Raise e.
Proof.
  induction ps as [|p ps IH]; simpl; [done |].
  destruct (Unload.async_forward_entry_unload env p) as [b|e'] eqn:Ep.
  - destruct (Unload.unload_platforms env ps) as [r evs]. simpl. intros Hr.
    destruct (IH Hr) as (q & Hq & Hfail). exists q. split; [by right | done].
  - simpl. intros [= ->]. exists p. split; [left | done].
Qed.


(** Platforms that answer [False] do not stop the unloading: the coordinator
    is shut down, the entry is removed and the result is [True]. *)
Lemma scenario_unload_ignores_refusal :
  let data := (Setup.async_setup_entry Samples.welcoming 3 Examples.entry ∅).1.2 in
  let o := Unload.async_unload_entry Samples.reluctant Examples.entry data
             Examples.purifier in
  is_Some (data !! "entry-1")
  ∧ o.1.1.1 = Returned true
  ∧ o.1.1.2 = ∅
  ∧ o.2 = map Unload.EvForwardEntryUnload Unload.PLATFORMS
          ++ [Unload.EvCoordinator (EvClientShutdown 0)].
Proof. cbv zeta. split; [by eexists |]. by vm_compute. Qed.

(** X12: setting an entry up and unloading it again gives [hass.data] back
    as it was before the setup, whatever the coordinator went through in
    between, provided the entry was not registered before and both calls
    succeed. *)
Theorem setup_then_unload_restores_data
    (senv : Setup.SetupEnvironment) (uenv : Unload.UnloadEnvironment) (missed : nat)
    (entry : Setup.ConfigEntry) (data : gmap string Setup.ConfigEntryData) (w : World) :
  let s := Setup.async_setup_entry senv missed entry data in
  let u := Unload.async_unload_entry uenv entry s.1.2 w in
  data !! Setup.entry_id entry = None →
  s.1.1 = Ok true →
  u.1.1.1 = Returned true →
  u.1.1.2 = data.
Proof.
  cbv zeta. intros Hfree Hs Hu.
  assert ((Setup.async_setup_entry senv missed entry data).1.2
          !! Setup.entry_id entry ≠ None
          ∧ ∀ k, k ≠ Setup.entry_id entry →
                 (Setup.async_setup_entry senv missed entry data).1.2 !! k = data !! k)
    as [_ Hother].
  { revert Hs. unfold Setup.async_setup_entry.
    destruct (Setup.wait_for _ _) as [cl|[]]; simpl; try done.
    destruct (Setup.async_forward_entry_setups senv); simpl; [| done].
    intros _. split; [by rewrite lookup_insert_eq |].
    intros k Hk. by apply lookup_insert_ne. }
  set (registered := (Setup.async_setup_entry senv missed entry data).1.2) in *.
  revert Hu. unfold Unload.async_unload_entry.
  destruct (Unload.unload_platforms uenv Unload.PLATFORMS) as [[[]|e] evs];
    simpl; [| done].
  destruct (registered !! Setup.entry_id entry) as [ced|]; simpl; [| done].
  destruct (Coordinator.shutdown (Unload.device uenv) w) as [[[[]|e] w'] evs'];
    simpl; [| done].
  intros _. apply map_eq. intros k.
  destruct (decide (k = Setup.entry_id entry)) as [->|Hne].
  - by rewrite lookup_delete_eq.
  - rewrite lookup_delete_ne by done. by apply Hother.
Qed.

Lemma setup_then_unload_restores_data_witness :
  let s := Setup.async_setup_entry Samples.welcoming 3 Examples.entry ∅ in
  let u := Unload.async_unload_entry Samples.orderly Examples.entry s.1.2
             Examples.watched in
  u.1.1.2 = ∅.
Proof.
  apply (setup_then_unload_restores_data Samples.welcoming Samples.orderly 3
           Examples.entry ∅ Examples.watched); reflexivity.
Defined.

(** ** Ordered dicts *)

Section DictFacts.

Context {K V : Type} `{EqDecision K}.
Implicit Types (d o : list (K * V)) (k : K) (v : V).

Lemma get_setitem_eq k v d : Dict.get k (Dict.setitem k v d) = Some v.
Proof.
  induction d as [|[k' v'] d IH]; simpl.
  - by rewrite decide_True.
  - destruct (decide (k = k')) as [->|Hne]; simpl.
    + by rewrite decide_True.
    + by rewrite decide_False.
Qed.

Lemma get_setitem_ne k k' v d :
  k ≠ k' → Dict.get k (Dict.setitem k' v d) = Dict.get k d.
Proof.
  intros Hne. induction d as [|[k0 v0] d IH]; simpl.
  - by rewrite decide_False.
  - destruct (decide (k' = k0)) as [->|Hne0]; simpl.
    + by rewrite !decide_False.
    + destruct (decide (k = k0)); [done | apply IH].
Qed.

Lemma get_None_keys k d : Dict.get k d = None ↔ k ∉ Dict.keys d.
Proof.
  induction d as [|[k' v'] d IH]; simpl.
  - split; [intros _; apply not_elem_of_nil | done].
  - destruct (decide (k = k')) as [->|Hne].
    + split; [done |]. intros Hn. exfalso. apply Hn. left.
    + rewrite IH. split.
      * intros Hn Hin. apply elem_of_cons in Hin as [?|?]; done.
      * intros Hn Hin. apply Hn. by right.
Qed.

Lemma keys_setitem_old k v d :
  k ∈ Dict.keys d → Dict.keys (Dict.setitem k v d) = Dict.keys d.
Proof.
  induction d as [|[k' v'] d IH]; simpl; intros Hin.
  - by apply elem_of_nil in Hin.
  - destruct (decide (k = k')) as [->|Hne]; simpl; [done |].
    f_equal. apply IH. apply elem_of_cons in Hin as [?|?]; done.
Qed.

Lemma keys_setitem_new k v d :
  k ∉ Dict.keys d → Dict.keys (Dict.setitem k v d) = Dict.keys d ++ [k].
Proof.
  induction d as [|[k' v'] d IH]; simpl; intros Hn; [done |].
  destruct (decide (k = k')) as [->|Hne]; simpl.
  - exfalso. apply Hn. left.
  - f_equal. apply IH. intros Hin. apply Hn. by right.
Qed.

Lemma NoDup_keys_setitem k v d :
  NoDup (Dict.keys d) → NoDup (Dict.keys (Dict.setitem k v d)).
Proof.
  intros Hnd. destruct (decide (k ∈ Dict.keys d)) as [Hin|Hn].
  - by rewrite keys_setitem_old.
  - rewrite keys_setitem_new by done. apply NoDup_app. split; [done |].
    split; [| apply NoDup_singleton].
    intros x Hx Hx'. apply list_elem_of_singleton in Hx'. by subst.
Qed.

Lemma NoDup_keys_update d o :
  NoDup (Dict.keys d) → NoDup (Dict.keys (Dict.update d o)).
Proof.
  unfold Dict.update. revert d. induction o as [|[k v] o IH]; intros d Hnd; simpl;
    [done |].
  by apply IH, NoDup_keys_setitem.
Qed.

(** After [d.update(o)] a key of [o] has the value [o] gives it, and any
    other key has the value it had in [d]. *)
Lemma get_update k d o :
  NoDup (Dict.keys o) →
  Dict.get k (Dict.update d o)
  = match Dict.get k o with
    | Some v => Some v
    | None => Dict.get k d
    end.
Proof.
  unfold Dict.update. revert d. induction o as [|[k' v'] o IH]; intros d Hnd; simpl;
    [done |].
  apply NoDup_cons in Hnd as [Hk' Hnd]. rewrite (IH _ Hnd).
  destruct (decide (k = k')) as [->|Hne].
  - assert (Dict.get k' o = None) as -> by (by apply get_None_keys).
    apply get_setitem_eq.
  - destruct (Dict.get k o); [done |]. by apply get_setitem_ne.
Qed.

End DictFacts.

(** ** The tables of an entity *)

Lemma get_fold_update_None (k : string)
    (ts : list (list (string * Entity.Pattern))) (d : list (string * Entity.Pattern)) :
  Forall (λ t, NoDup (Dict.keys t)) ts →
  Dict.get k (fold_left Dict.update ts d) = None
  ↔ Dict.get k d = None ∧ Forall (λ t, Dict.get k t = None) ts.
Proof.
  revert d. induction ts as [|t ts IH]; intros d Hnd; simpl.
  - split; [by intros ? | by intros [? _]].
  - apply Forall_cons in Hnd as [Ht Hnd]. rewrite (IH _ Hnd), (get_update k d t Ht).
    rewrite Forall_cons. destruct (Dict.get k t).
    + split; [by intros [? _] | by intros [_ [? _]]].
    + split; [by intros [? ?] | by intros [? [_ ?]]].
Qed.

Lemma get_fold_update_skip (k : string)
    (ts : list (list (string * Entity.Pattern))) (d : list (string * Entity.Pattern)) :
  Forall (λ t, NoDup (Dict.keys t)) ts →
  Forall (λ t, Dict.get k t = None) ts →
  Dict.get k (fold_left Dict.update ts d) = Dict.get k d.
Proof.
  revert d. induction ts as [|t ts IH]; intros d Hnd Hnone; simpl; [done |].
  apply Forall_cons in Hnd as [Ht Hnd]. apply Forall_cons in Hnone as [Hk Hnone].
  rewrite (IH _ Hnd Hnone), (get_update k d t Ht). by rewrite Hk.
Qed.

Lemma NoDup_keys_fold_update
    (ts : list (list (string * Entity.Pattern))) (d : list (string * Entity.Pattern)) :
  NoDup (Dict.keys d) → NoDup (Dict.keys (fold_left Dict.update ts d)).
Proof.
  revert d. induction ts as [|t ts IH]; intros d Hnd; simpl; [done |].
  by apply IH, NoDup_keys_update.
Qed.

(** A later table that agrees on a name does not change its pattern. *)
Lemma get_fold_update_agree (k : string) (pattern : Entity.Pattern)
    (ts : list (list (string * Entity.Pattern))) (d : list (string * Entity.Pattern)) :
  Forall (λ t, NoDup (Dict.keys t)) ts →
  Forall (λ t, Dict.get k t = None ∨ Dict.get k t = Some pattern) ts →
  Dict.get k d = Some pattern →
  Dict.get k (fold_left Dict.update ts d) = Some pattern.
Proof.
  revert d. induction ts as [|t ts IH]; intros d Hnd Hagree Hd; simpl; [done |].
  apply Forall_cons in Hnd as [Ht Hnd]. apply Forall_cons in Hagree as [Hk Hagree].
  apply IH; try done. rewrite (get_update k d t Ht).
  by destruct Hk as [->| ->].
Qed.

Section ClassFacts.
Context (own : string → option (list (string * Entity.Pattern))).
Context (mro : string → list string).

(** The table attribute lookup finds on a class is the one of a class of
    its [__mro__] that assigns one, or the empty default. *)
Lemma getattr_own (cls : string) :
  Entity.getattr own mro cls = []
  ∨ ∃ c, c ∈ mro cls ∧ own c = Some (Entity.getattr own mro cls).
Proof.
  unfold Entity.getattr. induction (mro cls) as [|c l IH]; simpl; [by left |].
  destruct (own c) as [t|] eqn:Hc; simpl.
  - right. exists c. split; [left | done].
  - destruct IH as [?|(c' & Hin & Hown)]; [by left |].
    right. exists c'. split; [by right | done].
Qed.

(** A class that assigns the table is found first on itself. *)
Lemma getattr_self (cls : string) (t : list (string * Entity.Pattern)) :
  head (mro cls) = Some cls → own cls = Some t → Entity.getattr own mro cls = t.
Proof.
  unfold Entity.getattr. destruct (mro cls) as [|c l]; [done |].
  intros [= ->] Hown. simpl. by rewrite Hown.
Qed.

(** Along a chain of single inheritance that leads to a class assigning the
    table, lookup finds a table assigned on the chain. *)
Lemma getattr_chain (chain : list string) (c cls : string)
    (t : list (string * Entity.Pattern)) :
  (chain ++ [c]) `prefix_of` mro cls →
  own c = Some t →
  Entity.getattr own mro cls = t
  ∨ ∃ c', c' ∈ chain ∧ own c' = Some (Entity.getattr own mro cls).
Proof.
  intros [rest Hmro] Hc. unfold Entity.getattr. rewrite Hmro. clear Hmro.
  induction chain as [|c0 chain IH]; simpl.
  - rewrite Hc. by left.
  - destruct (own c0) as [t0|] eqn:H0; simpl.
    + right. exists c0. split; [left | done].
    + destruct IH as [?|(c' & Hin & Hown)]; [by left |].
      right. exists c'. split; [by right | done].
Qed.

(** X13: the tables of an entity are merged along [reversed(__mro__)],
    each class contributing the table attribute lookup finds on it, its own
    or an inherited one.  Each name is listed once, and a name is known
    exactly if a class of the [__mro__] assigns a table that has it.  The
    names of the table found on the class of the entity itself have the
    pattern of that table.  A name has the pattern of the most derived
    class assigning it when the classes from the class of the entity down to
    that one inherit singly, each from the next; across multiple
    inheritance a class without a table of its own applies an inherited
    one again, after the tables of more derived classes.

    The hypotheses are what Python grants: a dict has each key once, a
    class comes first in its own [__mro__], and the [__mro__] of a base is
    part of that of the derived class. *)
Theorem collect_merges_by_override (cls : string) :
  (∀ c t, own c = Some t → NoDup (Dict.keys t)) →
  (∀ c, c ∈ mro cls → head (mro c) = Some c) →
  (∀ c, c ∈ mro cls → mro c ⊆ mro cls) →
  let merged := Entity._collect_available own mro cls in
  NoDup (Dict.keys merged)
  ∧ (∀ k, Dict.get k merged = None
          ↔ ∀ c t, c ∈ mro cls → own c = Some t → Dict.get k t = None)
  ∧ (∀ k pattern,
       head (mro cls) = Some cls →
       Dict.get k (Entity.getattr own mro cls) = Some pattern →
       Dict.get k merged = Some pattern)
  ∧ (∀ derived c bases t k pattern,
       mro cls = derived ++ c :: bases →
       own c = Some t →
       Dict.get k t = Some pattern →
       (∀ c' t', c' ∈ derived → own c' = Some t' → Dict.get k t' = None) →
       (∀ i c', derived !! i = Some c' →
                (drop i derived ++ [c]) `prefix_of` mro c') →
       Dict.get k merged = Some pattern).
Proof.
  intros Hkeys Hhead Hsub. cbv zeta.
  assert (∀ c, NoDup (Dict.keys (Entity.getattr own mro c))) as Hnd.
  { intros c. destruct (getattr_own c) as [->|(c' & _ & Hown)]; [constructor |].
    by eapply Hkeys. }
  assert (∀ l, Forall (λ t, NoDup (Dict.keys t)) (map (Entity.getattr own mro) l)) as Hnds.
  { intros l. apply Forall_forall. intros t (c & -> & _)%list_elem_of_fmap. apply Hnd. }
  unfold Entity._collect_available, Entity.class_tables, Entity.collect.
  split; [| split; [| split]].
  - apply NoDup_keys_fold_update. constructor.
  - intros k. rewrite (get_fold_update_None k _ [] (Hnds _)). split.
    + intros [_ Hall] c t Hin Hown.
      rewrite Forall_forall in Hall. apply Hall.
      apply list_elem_of_fmap. exists c. split; [| by apply elem_of_reverse].
      symmetry. apply getattr_self; [by apply Hhead | done].
    + intros Hall. split; [done |]. apply Forall_forall.
      intros t (c & -> & Hin)%list_elem_of_fmap. rewrite elem_of_reverse in Hin.
      destruct (getattr_own c) as [->|(c' & Hc' & Hown)]; [done |].
      eapply Hall; [| exact Hown]. by apply (Hsub c Hin).
  - intros k pattern Hcls Hk.
    destruct (mro cls) as [|c0 rest] eqn:Hmro; [done |]. injection Hcls as ->.
    rewrite reverse_cons, map_app, fold_left_app. simpl.
    rewrite (get_update k _ _ (Hnd cls)). by rewrite Hk.
  - intros derived c bases t k pattern Hmro Hown Hk Hderived Hchain.
    rewrite Hmro, reverse_app, reverse_cons, map_app, fold_left_app, map_app,
      fold_left_app.
    simpl.
    assert (Entity.getattr own mro c = t) as Hc.
    { apply getattr_self; [| done]. apply Hhead. rewrite Hmro.
      apply elem_of_app. right. left. }
    apply get_fold_update_agree; [apply Hnds | |].
    + apply Forall_forall.
      intros t' (c' & -> & Hin)%list_elem_of_fmap. rewrite elem_of_reverse in Hin.
      apply list_elem_of_lookup in Hin as [i Hi].
      destruct (getattr_chain (drop i derived) c c' t (Hchain i c' Hi) Hown)
        as [->|(c'' & Hc'' & Hown'')].
      * by right.
      * left. eapply Hderived; [| exact Hown''].
        by eapply (sublist_subseteq _ _ (sublist_drop derived i)).
    + rewrite (get_update k _ _ (Hnd c)), Hc. by rewrite Hk.
Qed.
End ClassFacts.

Lemma collect_merges_by_override_witness :
  let own := Samples.preset_modes_of in
  let mro := Samples.mro_of in
  let cls := "PhilipsAC2936" in
  let merged := Entity._collect_available own mro cls in
  merged = [("auto", [("pwr", VStr "1"); ("mode", VStr "AG")]);
            ("sleep", [("pwr", VStr "1"); ("mode", VStr "S")]);
            ("turbo", [("pwr", VStr "1"); ("mode", VStr "T")])]
  ∧ NoDup (Dict.keys merged)
  ∧ (∀ k, Dict.get k merged = None
          ↔ ∀ c t, c ∈ mro cls → own c = Some t → Dict.get k t = None)
  ∧ (∀ k pattern,
       head (mro cls) = Some cls →
       Dict.get k (Entity.getattr own mro cls) = Some pattern →
       Dict.get k merged = Some pattern)
  ∧ (∀ derived c bases t k pattern,
       mro cls = derived ++ c :: bases →
       own c = Some t →
       Dict.get k t = Some pattern →
       (∀ c' t', c' ∈ derived → own c' = Some t' → Dict.get k t' = None) →
       (∀ i c', derived !! i = Some c' →
                (drop i derived ++ [c]) `prefix_of` mro c') →
       Dict.get k merged = Some pattern).
Proof.
  cbv zeta. split; [reflexivity |].
  apply (collect_merges_by_override Samples.preset_modes_of Samples.mro_of
           "PhilipsAC2936").
  - intros c t. unfold Samples.preset_modes_of.
    repeat case_decide; intros [= <-]; try constructor;
      apply (bool_decide_unpack _); vm_compute; exact I.
  - apply Forall_forall. apply (bool_decide_unpack _). vm_compute. exact I.
  - apply Forall_forall. apply (bool_decide_unpack _). vm_compute. exact I.
Defined.

(** Across multiple inheritance the merge is not by the most derived class:
    the mixin, which assigns no table, applies the table of the base again
    after the generic class has overridden it, and the model does not
    mention the name. *)
Lemma scenario_mixin_applies_base_again :
  let merged := Entity._collect_available Samples.diamond_tables Samples.diamond_mro
                  "Model" in
  Samples.diamond_mro "Model" = ["Model"; "Mixin"; "Generic"; "Base"; "object"]
  ∧ Samples.diamond_tables "Generic" = Some [("sleep", [("mode", VStr "S")])]
  ∧ Dict.get "sleep" merged = Some [("mode", VStr "N")]
  ∧ Dict.get "auto" merged = Some [("mode", VStr "P")].
Proof. by vm_compute. Qed.

(** ** Reading back what a command wrote *)

Lemma write_value_snapshot (env : Environment) (own : EntityId) (k : string)
    (v : Value) (w : World) :
  let o := (Fan.set_control_value env k v;; Fan.status_setitem k v;;
            Coordinator._handle_coordinator_update env own) w in
  result_of o = Ok tt →
  status (self (world_of o)) = <[k := v]> (status (self w)).
Proof.
  cbv zeta.
  unfold Fan.set_control_value, Fan.status_setitem, Coordinator._handle_coordinator_update.
  run_m. destruct (client (self w)) as [cl|]; simpl; [| done].
  by destruct (client_set_control_value env cl k v) as [[]|e].
Qed.

Lemma write_values_snapshot (env : Environment) (own : EntityId) (data : Status)
    (w : World) :
  let o := (Fan.set_control_values env data;; Fan.status_update data;;
            Coordinator._handle_coordinator_update env own) w in
  result_of o = Ok tt →
  status (self (world_of o)) = data ∪ status (self w).
Proof.
  cbv zeta.
  unfold Fan.set_control_values, Fan.status_update, Coordinator._handle_coordinator_update.
  run_m. destruct (client (self w)) as [cl|]; simpl; [| done].
  by destruct (client_set_control_values env cl data) as [[]|e].
Qed.

(** X14: after [async_turn_on] without preset and percentage has returned,
    [is_on] is true; after [async_turn_off] has returned, [is_on] is false
    (the two power states being different); and a call that raises leaves
    [is_on] as it was. *)
Theorem power_commands_set_is_on
    (env : Environment) (ptoi : list string → Z → Result string)
    (fan : Fan.FanBase) (w : World) :
  let on := Fan.async_turn_on env ptoi fan None None w in
  let off := Fan.async_turn_off env fan w in
  (result_of on = Ok tt → Entity.is_on fan (status (self (world_of on))) = true)
  ∧ (result_of off = Ok tt →
     Fan.STATE_POWER_ON fan ≠ Fan.STATE_POWER_OFF fan →
     Entity.is_on fan (status (self (world_of off))) = false)
  ∧ (∀ e, Exists (write_failed e) (trace_of on) →
          Entity.is_on fan (status (self (world_of on)))
          = Entity.is_on fan (status (self w)))
  ∧ (∀ e, Exists (write_failed e) (trace_of off) →
          Entity.is_on fan (status (self (world_of off)))
          = Entity.is_on fan (status (self w))).
Proof.
  cbv zeta. unfold Fan.async_turn_on, Fan.async_turn_off, Entity.is_on. simpl.
  split; [| split; [| split]].
  - intros Hok. rewrite (write_value_snapshot env _ _ _ w Hok).
    rewrite lookup_insert_eq. by apply bool_decide_eq_true_2.
  - intros Hok Hne. rewrite (write_value_snapshot env _ _ _ w Hok).
    rewrite lookup_insert_eq. apply bool_decide_eq_false_2. congruence.
  - intros e Hfailed.
    destruct (write_value_outcome env (Fan.entity fan) (Fan.KEY_PHILIPS_POWER fan)
                (Fan.STATE_POWER_ON fan) w) as [r|ev e' Hev|ev w' Hok _ _];
      unfold world_of, trace_of in *; simpl in *; try done.
    apply Exists_cons in Hfailed as [Hf|Hf].
    + by destruct ev as [| | |c k v [a|e0]|c data [a|e0]|].
    + apply Exists_cons in Hf as [Hf|Hf]; [done | by apply Exists_nil in Hf].
  - intros e Hfailed.
    destruct (write_value_outcome env (Fan.entity fan) (Fan.KEY_PHILIPS_POWER fan)
                (Fan.STATE_POWER_OFF fan) w) as [r|ev e' Hev|ev w' Hok _ _];
      unfold world_of, trace_of in *; simpl in *; try done.
    apply Exists_cons in Hfailed as [Hf|Hf].
    + by destruct ev as [| | |c k v [a|e0]|c data [a|e0]|].
    + apply Exists_cons in Hf as [Hf|Hf]; [done | by apply Exists_nil in Hf].
Qed.

Lemma lookup_list_to_map_get {V} (l : list (string * V)) (k : string) :
  (list_to_map l : gmap string V) !! k = Dict.get k l.
Proof.
  induction l as [|[k' v] l IH]; simpl; [done |].
  destruct (decide (k = k')) as [->|Hne].
  - apply lookup_insert_eq.
  - rewrite lookup_insert_ne by done. apply IH.
Qed.

Lemma lookup_as_map (d : list (string * Entity.Pattern)) (k : string) :
  Entity.as_map d !! k = list_to_map <$> Dict.get k d.
Proof.
  unfold Entity.as_map. induction d as [|[k' p] d IH]; simpl; [done |].
  destruct (decide (k = k')) as [->|Hne].
  - apply lookup_insert_eq.
  - rewrite lookup_insert_ne by done. apply IH.
Qed.

Lemma matches_true (replace : option (string * string)) (st : Status)
    (pattern : Entity.Pattern) :
  Entity.matches replace st pattern = true
  ↔ ∀ k v, (k, v) ∈ pattern → st !! Entity.replaced replace k = Some v.
Proof.
  unfold Entity.matches. rewrite forallb_forall. split.
  - intros H k v Hin. apply list_elem_of_In in Hin.
    specialize (H (k, v) Hin). by apply bool_decide_eq_true_1 in H.
  - intros H [k v] Hin. apply list_elem_of_In in Hin.
    apply bool_decide_eq_true_2. by apply H.
Qed.

Lemma get_Some_elem_of {V} (l : list (string * V)) (k : string) (v : V) :
  NoDup (Dict.keys l) → (k, v) ∈ l → Dict.get k l = Some v.
Proof.
  induction l as [|[k' v'] l IH]; simpl; intros Hnd Hin.
  - by apply elem_of_nil in Hin.
  - apply NoDup_cons in Hnd as [Hk' Hnd].
    apply elem_of_cons in Hin as [[= -> ->]|Hin].
    + by rewrite decide_True.
    + rewrite decide_False; [by apply IH |].
      intros ->. apply Hk'. apply list_elem_of_fmap. by exists (k', v).
Qed.

Lemma get_elem_of {V} (l : list (string * V)) (k : string) (v : V) :
  Dict.get k l = Some v →
  ∃ before after, l = before ++ (k, v) :: after ∧ k ∉ Dict.keys before.
Proof.
  induction l as [|[k' v'] l IH]; simpl; [done |].
  destruct (decide (k = k')) as [->|Hne].
  - intros [= ->]. exists [], l. split; [done | apply not_elem_of_nil].
  - intros Hget. destruct (IH Hget) as (before & after & -> & Hn).
    exists ((k', v') :: before), after. split; [done |].
    simpl. intros Hin. apply elem_of_cons in Hin as [?|?]; done.
Qed.

Lemma async_set_preset_mode_snapshot (env : Environment) (fan : Fan.FanBase)
    (pm : string) (data : Status) (w : World) :
  Fan._available_preset_modes fan !! pm = Some data →
  result_of (Fan.async_set_preset_mode env fan pm w) = Ok tt →
  status (self (world_of (Fan.async_set_preset_mode env fan pm w)))
  = data ∪ status (self w).
Proof.
  intros Hget. unfold Fan.async_set_preset_mode, Fan.truthy_pattern. rewrite Hget.
  destruct (decide (data = ∅)) as [->|Hne].
  - intros _. unfold world_of. simpl. by rewrite (left_id_L ∅ (∪)).
  - apply write_values_snapshot.
Qed.

Lemma find_first_match {A} (f : A → bool) (before after : list A) (x : A) :
  Forall (λ y, f y = false) before → f x = true →
  find f (before ++ x :: after) = Some x.
Proof.
  induction before as [|y before IH]; simpl; intros Hall Hx.
  - by rewrite Hx.
  - apply Forall_cons in Hall as [Hy Hall]. rewrite Hy. by apply IH.
Qed.

Lemma find_is_Some {A} (f : A → bool) (l : list A) (x : A) :
  x ∈ l → f x = true → is_Some (find f l).
Proof.
  induction l as [|y l IH]; simpl; intros Hin Hx.
  - by apply elem_of_nil in Hin.
  - destruct (f y) eqn:Hy; [eauto |].
    apply elem_of_cons in Hin as [->|Hin]; [congruence | by apply IH].
Qed.

(** X15: after [async_set_preset_mode] has returned for a known preset
    (without [REPLACE_PRESET]), the cached snapshot satisfies the pattern of
    that preset, so [preset_mode] reads some preset; it reads the one that
    was set unless a preset listed before it has a pattern the snapshot
    satisfies too. *)
Theorem set_preset_mode_then_read
    (env : Environment) (entity : EntityId) (key : string) (on off : Value)
    (osc : option (string * Fan.OnValue * Value)) (tb : Entity.Tables)
    (pm : string) (pattern : Entity.Pattern) (w : World) :
  let fan := Entity.fan_base entity key on off osc tb in
  let o := Fan.async_set_preset_mode env fan pm w in
  let st' := status (self (world_of o)) in
  Entity.REPLACE_PRESET tb = None →
  Dict.get pm (Entity._available_preset_modes tb) = Some pattern →
  NoDup (Dict.keys pattern) →
  result_of o = Ok tt →
  Entity.matches None st' pattern = true
  ∧ is_Some (Entity.preset_mode tb st')
  ∧ (∀ before after,
       Entity._available_preset_modes tb = before ++ (pm, pattern) :: after →
       Forall (λ kp, Entity.matches None st' kp.2 = false) before →
       Entity.preset_mode tb st' = Some pm).
Proof.
  cbv zeta. intros Hrep Hget Hnd Hok.
  assert (status (self (world_of (Fan.async_set_preset_mode env
            (Entity.fan_base entity key on off osc tb) pm w)))
          = list_to_map pattern ∪ status (self w)) as Hst.
  { apply async_set_preset_mode_snapshot; [| done].
    simpl. by rewrite lookup_as_map, Hget. }
  rewrite Hst.
  assert (Entity.matches None (list_to_map pattern ∪ status (self w)) pattern = true)
    as Hm.
  { apply matches_true. intros k v Hin. simpl. apply lookup_union_Some_l.
    rewrite lookup_list_to_map_get. by apply get_Some_elem_of. }
  split; [done |]. unfold Entity.preset_mode. rewrite Hrep. split.
  - destruct (get_elem_of _ _ _ Hget) as (before & after & Hl & _).
    assert (is_Some (find (λ kp, Entity.matches None
                             (list_to_map pattern ∪ status (self w)) kp.2)
                       (Entity._available_preset_modes tb))) as [x ->]; [| by eexists].
    apply (find_is_Some _ _ (pm, pattern)); [| done].
    rewrite Hl. apply elem_of_app. right. left.
  - intros before after -> Hbefore.
    by rewrite (find_first_match _ before after (pm, pattern)).
Qed.

Lemma set_preset_mode_then_read_witness :
  let fan := Entity.fan_base 0 "pwr" (VStr "1") (VStr "0") None Samples.tables in
  let o := Fan.async_set_preset_mode Examples.calm fan "allergen" Examples.watched in
  let st' := status (self (world_of o)) in
  Entity.matches None st' [("mode", VStr "A")] = true
  ∧ is_Some (Entity.preset_mode Samples.tables st')
  ∧ (∀ before after,
       Entity._available_preset_modes Samples.tables
       = before ++ ("allergen", [("mode", VStr "A")]) :: after →
       Forall (λ kp, Entity.matches None st' kp.2 = false) before →
       Entity.preset_mode Samples.tables st' = Some "allergen").
Proof.
  apply (set_preset_mode_then_read Examples.calm 0 "pwr" (VStr "1") (VStr "0") None
           Samples.tables "allergen" [("mode", VStr "A")] Examples.watched).
  - reflexivity.
  - reflexivity.
  - apply (bool_decide_unpack _). vm_compute. exact I.
  - reflexivity.
Defined.

(** X16: [async_set_percentage] with a percentage other than 0 never changes
    the cached snapshot, whether the device accepts the new speed or not and
    whatever the call returns; so [percentage], [preset_mode] and [is_on]
    read afterwards what they read before.  The same holds for
    [async_turn_on] with a percentage and no preset. *)
Theorem set_percentage_never_updates_snapshot
    (env : Environment) (ptoi : list string → Z → Result string)
    (fan : Fan.FanBase) (p : Z) (w : World) :
  p ≠ 0%Z →
  let o := Fan.async_set_percentage env ptoi fan p w in
  let o' := Fan.async_turn_on env ptoi fan (Some p) None w in
  status (self (world_of o)) = status (self w)
  ∧ status (self (world_of o')) = status (self w)
  ∧ (∀ oltp tb, Entity.percentage oltp tb (status (self (world_of o)))
                = Entity.percentage oltp tb (status (self w)))
  ∧ (∀ tb, Entity.preset_mode tb (status (self (world_of o)))
           = Entity.preset_mode tb (status (self w))).
Proof.
  intros Hp. cbv zeta.
  assert (status (self (world_of (Fan.async_set_percentage env ptoi fan p w)))
          = status (self w)) as Hst.
  { pose proof (async_set_percentage_outcome env ptoi fan p w) as H.
    rewrite bool_decide_eq_false_2 in H by done.
    by destruct H as [r|ev e' Hev|ev w' Hok Hsame _]. }
  assert (Fan.async_turn_on env ptoi fan (Some p) None w
          = Fan.async_set_percentage env ptoi fan p w) as ->.
  { unfold Fan.async_turn_on. simpl. by rewrite decide_False. }
  rewrite Hst. done.
Qed.

Lemma set_percentage_never_updates_snapshot_witness :
  let o := Fan.async_set_percentage Examples.calm Examples.first_speed Examples.fan
             50 Examples.watched in
  let o' := Fan.async_turn_on Examples.calm Examples.first_speed Examples.fan
              (Some 50%Z) None Examples.watched in
  status (self (world_of o)) = status (self Examples.watched)
  ∧ status (self (world_of o')) = status (self Examples.watched)
  ∧ (∀ oltp tb, Entity.percentage oltp tb (status (self (world_of o)))
                = Entity.percentage oltp tb (status (self Examples.watched)))
  ∧ (∀ tb, Entity.preset_mode tb (status (self (world_of o)))
           = Entity.preset_mode tb (status (self Examples.watched))).
Proof.
  apply (set_percentage_never_updates_snapshot Examples.calm Examples.first_speed
           Examples.fan 50 Examples.watched).
  discriminate.
Defined.

(** X17: [async_oscillate] and [oscillating] fit together.  After
    [async_oscillate(True)] has returned, [oscillating] is true; after
    [async_oscillate(False)] has returned it is false, provided the off
    value is not among the on values.  An entity without [KEY_OSCILLATION]
    makes no call and reads [None]; an empty list of on values raises
    [IndexError] before anything is sent. *)
Theorem oscillate_then_read
    (env : Environment) (fan : Fan.FanBase) (b : bool) (w : World) :
  let o := Fan.async_oscillate env fan b w in
  let st' := status (self (world_of o)) in
  (∀ key on off, Fan.KEY_OSCILLATION fan = Some (key, on, off) →
     result_of o = Ok tt →
     (b = true → Entity.oscillating fan st' = Some true)
     ∧ (b = false →
        match on with
        | Fan.OnInt z => off ≠ VInt z
        | Fan.OnList l => off ∉ l
        end →
        Entity.oscillating fan st' = Some false))
  ∧ (Fan.KEY_OSCILLATION fan = None →
     o = (Ok tt, w, []) ∧ Entity.oscillating fan st' = None)
  ∧ (∀ key off, Fan.KEY_OSCILLATION fan = Some (key, Fan.OnList [], off) →
     o = (Raise IndexError, w, [])).
Proof.
  cbv zeta. unfold Fan.async_oscillate, Entity.oscillating.
  split; [| split].
  - intros key on off Hosc. rewrite Hosc.
    destruct (Fan.on_value on) as [on_v|e] eqn:Hon;
      [rewrite bind_lift_ok | by rewrite bind_lift_raise].
    intros Hok. destruct b.
    + pose proof (write_value_snapshot env (Fan.entity fan) key on_v w Hok) as Hst.
      split; [intros _ | done]. rewrite Hst, lookup_insert_eq.
      destruct on as [z|[|v l]]; simpl in Hon; simplify_eq.
      * by rewrite bool_decide_eq_true_2.
      * rewrite bool_decide_eq_true_2; [done | left].
    + pose proof (write_value_snapshot env (Fan.entity fan) key off w Hok) as Hst.
      split; [done | intros _ Hoff]. rewrite Hst, lookup_insert_eq.
      destruct on as [z|l]; by rewrite bool_decide_eq_false_2.
  - by intros ->.
  - intros key off ->. simpl. by rewrite bind_lift_raise.
Qed.

(** ** Building the fan entity *)

Lemma first_truthy_Ok (st : Status) (keys : list string) (v : Value) :
  Platform.first_truthy st keys = Ok v →
  ∃ before k after,
    keys = before ++ k :: after
    ∧ st !! k = Some v ∧ Platform.truthy v = true
    ∧ Forall (λ k', ∀ v', st !! k' = Some v' → Platform.truthy v' = false) before.
Proof.
  unfold Platform.first_truthy. induction keys as [|k keys IH]; simpl; [done |].
  destruct (st !! k) as [v0|] eqn:Hk; simpl.
  - destruct (Platform.truthy v0) eqn:Ht.
    + rewrite filter_cons_True by done. intros [= ->].
      exists [], k, keys. by repeat split.
    + rewrite filter_cons_False by congruence. intros H.
      destruct (IH H) as (before & k' & after & -> & Hk' & Hv & Hall).
      exists (k :: before), k', after. repeat split; try done.
      apply Forall_cons. split; [| done]. intros v' Hv'. congruence.
  - intros H. destruct (IH H) as (before & k' & after & -> & Hk' & Hv & Hall).
    exists (k :: before), k', after. repeat split; try done.
    apply Forall_cons. split; [| done]. intros v' Hv'. congruence.
Qed.

Lemma first_truthy_is_ok (st : Status) (keys : list string) :
  (∃ v, Platform.first_truthy st keys = Ok v) ↔ Platform.has_truthy st keys.
Proof.
  split.
  - intros [v Hv]. destruct (first_truthy_Ok st keys v Hv)
      as (before & k & after & -> & Hk & Ht & _).
    exists k, v. split; [| done]. apply elem_of_app. right. left.
  - intros (k & v & Hin & Hk & Ht). unfold Platform.first_truthy.
    assert (v ∈ filter (λ v, Platform.truthy v = true) (omap (λ k, st !! k) keys))
      as Hv.
    { apply list_elem_of_filter. split; [done |].
      apply list_elem_of_omap. by exists k. }
    destruct (filter _ _) as [|v0 l]; [by apply elem_of_nil in Hv | eauto].
Qed.

Lemma first_truthy_raises (st : Status) (keys : list string) (e : Exn) :
  Platform.first_truthy st keys = Raise e → e = IndexError.
Proof. unfold Platform.first_truthy. destruct (filter _ _); congruence. Qed.

Section PlatformFacts.

Context (NAME NEW_NAME NEW2_NAME MODEL_ID NEW_MODEL_ID NEW2_MODEL_ID DEVICE_ID : string).
Context (MANUFACTURER DOMAIN : string) (slugify : string → string).

#[local] Abbreviation init :=
  (Platform.GenericFan__init__ NAME NEW_NAME NEW2_NAME MODEL_ID NEW_MODEL_ID
     NEW2_MODEL_ID DEVICE_ID MANUFACTURER DOMAIN slugify).
#[local] Abbreviation complete :=
  (Platform.complete NAME NEW_NAME NEW2_NAME MODEL_ID NEW_MODEL_ID NEW2_MODEL_ID
     DEVICE_ID).

Lemma generic_fan_init_complete (di : Setup.DeviceInformation) (st : Status) :
  (∃ fan, init di st = Returned fan) ↔ complete st.
Proof.
  unfold Platform.GenericFan__init__, Platform.complete.
  rewrite <- !first_truthy_is_ok.
  destruct (Platform.first_truthy st [NAME; NEW_NAME; NEW2_NAME]) as [n|e1].
  - destruct (Platform.first_truthy st [MODEL_ID; NEW_MODEL_ID; NEW2_MODEL_ID])
      as [m|e2].
    + destruct (st !! "WifiVersion") as [wv|].
      * destruct (st !! DEVICE_ID) as [d|].
        -- split; [intros _ | eauto]. repeat split; eauto.
        -- split; [by intros [? ?] | intros (_ & _ & _ & [? ?]); done].
      * split; [by intros [? ?] | intros (_ & _ & [? ?] & _); done].
    + split; [by intros [? ?] | intros (_ & [? ?] & _); done].
  - split; [by intros [? ?] | intros ([? ?] & _); done].
Qed.

(** X18: [PhilipsGenericFan.__init__] succeeds exactly when the status holds
    a name and a model id under one of their three keys each (with a value
    Python takes for true), the key "WifiVersion" and the device id.  The
    name is then the value under the first of the three keys that has one,
    and the software version and the serial number are the values under
    "WifiVersion" and the device id.  Without a name or without a model id
    the constructor raises [IndexError]; with both but without the wifi
    version it raises [KeyError] for "WifiVersion"; with these but without
    the device id it raises [KeyError] for the device id. *)
Theorem generic_fan_needs_complete_status
    (di : Setup.DeviceInformation) (st : Status) :
  let named := Platform.has_truthy st [NAME; NEW_NAME; NEW2_NAME] in
  let modelled := Platform.has_truthy st [MODEL_ID; NEW_MODEL_ID; NEW2_MODEL_ID] in
  ((∃ fan, init di st = Returned fan) ↔ complete st)
  ∧ (∀ fan, init di st = Returned fan →
       (∃ before k after,
          [NAME; NEW_NAME; NEW2_NAME] = before ++ k :: after
          ∧ st !! k = Some (Platform._attr_name fan)
          ∧ Forall (λ k', ∀ v', st !! k' = Some v' → Platform.truthy v' = false) before)
       ∧ st !! "WifiVersion" = Some (Platform.sw_version (Platform._attr_device_info fan))
       ∧ st !! DEVICE_ID = Some (Platform.serial_number (Platform._attr_device_info fan)))
  ∧ (¬ named ∨ ¬ modelled → init di st = Failed (Exception IndexError))
  ∧ (named → modelled → st !! "WifiVersion" = None →
     init di st = Failed (KeyError "WifiVersion"))
  ∧ (named → modelled → is_Some (st !! "WifiVersion") → st !! DEVICE_ID = None →
     init di st = Failed (KeyError DEVICE_ID)).
Proof.
  cbv zeta. split; [apply generic_fan_init_complete |].
  pose proof (first_truthy_is_ok st [NAME; NEW_NAME; NEW2_NAME]) as Hnamed.
  pose proof (first_truthy_is_ok st [MODEL_ID; NEW_MODEL_ID; NEW2_MODEL_ID]) as Hmodelled.
  unfold Platform.GenericFan__init__.
  destruct (Platform.first_truthy st [NAME; NEW_NAME; NEW2_NAME]) as [n|e1] eqn:Hn.
  - destruct (Platform.first_truthy st [MODEL_ID; NEW_MODEL_ID; NEW2_MODEL_ID])
      as [m|e2] eqn:Hm.
    + assert (Platform.has_truthy st [NAME; NEW_NAME; NEW2_NAME]) as Hyes1
        by (apply Hnamed; eauto).
      assert (Platform.has_truthy st [MODEL_ID; NEW_MODEL_ID; NEW2_MODEL_ID]) as Hyes2
        by (apply Hmodelled; eauto).
      destruct (st !! "WifiVersion") as [wv|] eqn:Hw.
      * destruct (st !! DEVICE_ID) as [d|] eqn:Hd.
        -- split; [| split; [| split; [done |]; by intros _ _ _ ?]].
           ++ intros fan [= <-]. simpl. split; [| done].
              destruct (first_truthy_Ok _ _ _ Hn)
                as (before & k & after & Hl & Hk & _ & Hall).
              by exists before, k, after.
           ++ by intros [?|?].
        -- split; [done |]. split; [by intros [?|?] |]. split; [done | done].
      * split; [done |]. split; [by intros [?|?] |]. split; [done |].
        by intros _ _ [? ?].
    + apply first_truthy_raises in Hm as ->. split; [done |]. split; [done |].
      split; intros _ Hyes; apply Hmodelled in Hyes as [? ?]; done.
  - apply first_truthy_raises in Hn as ->. split; [done |]. split; [done |].
    split; intros Hyes; apply Hnamed in Hyes as [? ?]; done.
Qed.

(** X19: the fan platform adds at most one entity.  It adds one exactly
    when the model of the entry is in [model_to_class] and the status the
    coordinator was built with is complete; for a model that is not in the
    table it adds none and does not raise. *)
Theorem fan_platform_adds_supported_complete
    (model_to_class : list (string * Platform.ModelClass))
    (entry : Setup.ConfigEntry) (data : gmap string Setup.ConfigEntryData)
    (ced : Setup.ConfigEntryData) :
  data !! Setup.entry_id entry = Some ced →
  let r := Platform.async_setup_entry NAME NEW_NAME NEW2_NAME MODEL_ID NEW_MODEL_ID
             NEW2_MODEL_ID DEVICE_ID MANUFACTURER DOMAIN slugify
             model_to_class entry data in
  let model := Setup.di_model (Setup.device_information ced) in
  (∀ es, r = Returned es → length es ≤ 1)
  ∧ ((∃ e, r = Returned [e])
     ↔ is_Some (Dict.get model model_to_class)
       ∧ complete (status (Setup.coordinator ced)))
  ∧ (Dict.get model model_to_class = None → r = Returned []).
Proof.
  intros Hced. cbv zeta. unfold Platform.async_setup_entry. rewrite Hced.
  destruct (Dict.get _ model_to_class) as [cls|] eqn:Hcls.
  - unfold Platform.CoAPFanBase__init__.
    pose proof (generic_fan_init_complete (Setup.device_information ced)
                  (status (Setup.coordinator ced))) as Hiff.
    destruct (init _ _) as [g|f].
    + split; [intros es [= <-]; simpl; lia |]. split; [| done].
      split; [intros _ | eauto]. split; [eauto |]. apply Hiff. eauto.
    + split; [done |]. split; [| done].
      split; [by intros [? ?] |]. intros [_ Hc]. apply Hiff in Hc as [? ?]. done.
  - split; [intros es [= <-]; simpl; lia |]. split; [| done].
    split; [by intros [? ?] | by intros [[? ?] _]].
Qed.

End PlatformFacts.

Lemma fan_platform_adds_supported_complete_witness :
  let data := (Setup.async_setup_entry Samples.welcoming 3 Samples.full_entry ∅).1.2 in
  ∃ ced, data !! "entry-2" = Some ced ∧
  let r := Platform.async_setup_entry "name" "D01-03" "D01S03" "modelid" "D01-05"
             "D01S05" "DeviceId" "Philips" "philips_airpurifier_coap" id
             Samples.model_to_class Samples.full_entry data in
  let model := Setup.di_model (Setup.device_information ced) in
  (∀ es, r = Returned es → length es ≤ 1)
  ∧ ((∃ e, r = Returned [e])
     ↔ is_Some (Dict.get model Samples.model_to_class)
       ∧ Platform.complete "name" "D01-03" "D01S03" "modelid" "D01-05" "D01S05"
           "DeviceId" (status (Setup.coordinator ced)))
  ∧ (Dict.get model Samples.model_to_class = None → r = Returned []).
Proof.
  eexists. split; [reflexivity |].
  apply (fan_platform_adds_supported_complete "name" "D01-03" "D01S03" "modelid"
           "D01-05" "D01S05" "DeviceId" "Philips" "philips_airpurifier_coap" id
           Samples.model_to_class Samples.full_entry).
  reflexivity.
Defined.

(** ** The state attributes *)

Lemma elem_of_keys_setitem {V : Type} (k k' : string) (v : V) (d : list (string * V)) :
  k ∈ Dict.keys (Dict.setitem k' v d) ↔ k = k' ∨ k ∈ Dict.keys d.
Proof.
  destruct (decide (k' ∈ Dict.keys d)) as [Hin|Hn].
  - rewrite keys_setitem_old by done. split; [by right |].
    intros [->|?]; done.
  - rewrite keys_setitem_new by done. rewrite elem_of_app, list_elem_of_singleton.
    split; intros [?|?]; auto.
Qed.

Lemma append_all_app (st : Status) (a b : list Attributes.Attribute)
    (acc : list (string * Value)) :
  Attributes.append_all st (a ++ b) acc
  = match Attributes.append_all st a acc with
    | Ok mid => Attributes.append_all st b mid
    | Raise e => Raise e
    end.
Proof.
  revert acc. induction a as [|[[k pk] vm] a IH]; intros acc; simpl; [done |].
  destruct (Attributes.append st acc k pk vm); [apply IH | done].
Qed.

Lemma append_all_keys (st : Status) (available : list Attributes.Attribute)
    (acc out : list (string * Value)) :
  Attributes.append_all st available acc = Ok out →
  (NoDup (Dict.keys acc) → NoDup (Dict.keys out))
  ∧ (∀ k, k ∈ Dict.keys out
          ↔ k ∈ Dict.keys acc
            ∨ ∃ pk vm, (k, pk, vm) ∈ available
                       ∧ is_Some (st !! Attributes.partition_head pk)).
Proof.
  revert acc. induction available as [|[[k0 pk0] vm0] rest IH]; intros acc Hrun;
    simpl in Hrun.
  - injection Hrun as <-. split; [done |]. intros k. split; [by left |].
    intros [?|(pk & vm & Hin & _)]; [done | by apply elem_of_nil in Hin].
  - unfold Attributes.append in Hrun.
    destruct (st !! Attributes.partition_head pk0) as [raw|] eqn:Hraw.
    + destruct (Attributes.shown vm0 raw st) as [v|e]; [| done].
      destruct (IH _ Hrun) as [Hnd Hkeys]. split.
      * intros Hacc. by apply Hnd, NoDup_keys_setitem.
      * intros k. rewrite Hkeys, elem_of_keys_setitem. split.
        -- intros [[->|?]|(pk & vm & Hin & Hsome)].
           ++ right. exists pk0, vm0. split; [left | by rewrite Hraw].
           ++ by left.
           ++ right. exists pk, vm. split; [by right | done].
        -- intros [?|(pk & vm & Hin & Hsome)]; [left; by right |].
           apply elem_of_cons in Hin as [Heq|Hin].
           ++ injection Heq as -> -> ->. left. by left.
           ++ right. by exists pk, vm.
    + destruct (IH _ Hrun) as [Hnd Hkeys]. split; [done |].
      intros k. rewrite Hkeys. split.
      * intros [?|(pk & vm & Hin & Hsome)]; [by left |].
        right. exists pk, vm. split; [by right | done].
      * intros [?|(pk & vm & Hin & Hsome)]; [by left |].
        apply elem_of_cons in Hin as [Heq|Hin].
        -- injection Heq as -> -> ->. rewrite Hraw in Hsome. by destruct Hsome.
        -- right. by exists pk, vm.
Qed.

Lemma append_all_skip (st : Status) (k : string)
    (available : list Attributes.Attribute) (acc out : list (string * Value)) :
  Attributes.append_all st available acc = Ok out →
  (∀ pk vm, (k, pk, vm) ∈ available → st !! Attributes.partition_head pk = None) →
  Dict.get k out = Dict.get k acc.
Proof.
  revert acc. induction available as [|[[k0 pk0] vm0] rest IH]; intros acc Hrun Hskip;
    simpl in Hrun.
  - by injection Hrun as <-.
  - assert (∀ pk vm, (k, pk, vm) ∈ rest →
                     st !! Attributes.partition_head pk = None) as Hrest.
    { intros pk vm Hin. apply (Hskip pk vm). by right. }
    unfold Attributes.append in Hrun.
    destruct (st !! Attributes.partition_head pk0) as [raw|] eqn:Hraw.
    + destruct (Attributes.shown vm0 raw st) as [v|e]; [| done].
      rewrite (IH _ Hrun Hrest). apply get_setitem_ne. intros ->.
      specialize (Hskip pk0 vm0). rewrite Hraw in Hskip.
      by discriminate Hskip; left.
    + by apply IH.
Qed.

(** X20: when [extra_state_attributes] returns, every key is listed once,
    and a key is listed exactly if some available attribute has it and the
    status holds the key of the device with its suffix from "#" on cut
    off.  The value listed is the one of the last such attribute, passed
    through its value map; a value that a dict used as value map does not
    hold is listed as it is, never as "unknown". *)
Theorem extra_state_attributes_lists_known_keys
    (st : Status) (available : list Attributes.Attribute)
    (out : list (string * Value)) :
  Attributes.extra_state_attributes st available = Ok out →
  NoDup (Dict.keys out)
  ∧ (∀ k, k ∈ Dict.keys out
          ↔ ∃ pk vm, (k, pk, vm) ∈ available
                     ∧ is_Some (st !! Attributes.partition_head pk))
  ∧ (∀ before k pk vm after raw,
       available = before ++ (k, pk, vm) :: after →
       st !! Attributes.partition_head pk = Some raw →
       (∀ pk' vm', (k, pk', vm') ∈ after →
                   st !! Attributes.partition_head pk' = None) →
       ∃ v, Attributes.shown vm raw st = Ok v ∧ Dict.get k out = Some v
            ∧ (∀ d, vm = Attributes.MapDict d → Dict.get raw d = None → v = raw)
            ∧ (vm = Attributes.NoMap → v = raw)).
Proof.
  unfold Attributes.extra_state_attributes. intros Hrun.
  destruct (append_all_keys _ _ _ _ Hrun) as [Hnd Hkeys]. split; [| split].
  - apply Hnd. apply NoDup_nil_2.
  - intros k. rewrite Hkeys. split; [| by right].
    intros [Hin|?]; [by apply elem_of_nil in Hin | done].
  - intros before k pk vm after raw -> Hraw Hafter.
    rewrite append_all_app in Hrun.
    destruct (Attributes.append_all st before []) as [mid|e]; [| done].
    simpl in Hrun. unfold Attributes.append in Hrun. rewrite Hraw in Hrun.
    destruct (Attributes.shown vm raw st) as [v|e] eqn:Hshown; [| done].
    exists v. split; [done |]. split; [| split].
    + rewrite (append_all_skip _ k _ _ _ Hrun Hafter). apply get_setitem_eq.
    + intros d -> Hnone. unfold Attributes.shown in Hshown. rewrite Hnone in Hshown.
      rewrite bool_decide_eq_false_2 in Hshown by (by intros [? ?]).
      by injection Hshown.
    + intros ->. by injection Hshown.
Qed.

Lemma extra_state_attributes_lists_known_keys_witness :
  ∃ out,
    Attributes.extra_state_attributes Samples.attribute_status Samples.attributes = Ok out
    ∧ out = [("name", VStr "bedroom");
             ("preferred_index", VStr "Indoor Allergen Index");
             ("runtime", VInt 3600000); ("filter", VInt 120)]
    ∧ NoDup (Dict.keys out)
    ∧ (∀ k, k ∈ Dict.keys out
            ↔ ∃ pk vm, (k, pk, vm) ∈ Samples.attributes
                       ∧ is_Some (Samples.attribute_status
                                    !! Attributes.partition_head pk)).
Proof.
  eexists. split; [reflexivity |]. split; [reflexivity |].
  pose proof (extra_state_attributes_lists_known_keys Samples.attribute_status
                Samples.attributes _ eq_refl) as (Hnd & Hkeys & _).
  split; [exact Hnd | exact Hkeys].
Defined.

Lemma append_all_plain (st : Status) (available : list Attributes.Attribute)
    (acc : list (string * Value)) :
  Forall (λ a, a.2 = Attributes.NoMap) available →
  ∃ out, Attributes.append_all st available acc = Ok out
         ∧ ∀ k v, Dict.get k out = Some v →
                  Dict.get k acc = Some v
                  ∨ ∃ pk, (k, pk, Attributes.NoMap) ∈ available
                          ∧ st !! Attributes.partition_head pk = Some v.
Proof.
  revert acc. induction available as [|[[k0 pk0] vm0] rest IH]; intros acc Hplain;
    simpl.
  - exists acc. split; [done |]. intros k v ?. by left.
  - apply Forall_cons in Hplain as [Hvm Hplain]. simpl in Hvm. subst vm0.
    unfold Attributes.append.
    destruct (st !! Attributes.partition_head pk0) as [raw|] eqn:Hraw; simpl.
    + destruct (IH (Dict.setitem k0 raw acc) Hplain) as (out & Hrun & Hout).
      exists out. split; [done |]. intros k v Hget.
      destruct (Hout k v Hget) as [Hacc|(pk & Hin & Hst)].
      * destruct (decide (k = k0)) as [->|Hne].
        -- rewrite get_setitem_eq in Hacc. injection Hacc as ->.
           right. exists pk0. split; [left | done].
        -- rewrite get_setitem_ne in Hacc by done. by left.
      * right. exists pk. split; [by right | done].
    + destruct (IH acc Hplain) as (out & Hrun & Hout).
      exists out. split; [done |]. intros k v Hget.
      destruct (Hout k v Hget) as [?|(pk & Hin & Hst)]; [by left |].
      right. exists pk. split; [by right | done].
Qed.

(** X21: with attributes that have no value map, [extra_state_attributes]
    never raises, whatever the status holds, and every value it lists is
    the value the status holds for an attribute of that key. *)
Theorem plain_attributes_never_raise
    (st : Status) (available : list Attributes.Attribute) :
  Forall (λ a, a.2 = Attributes.NoMap) available →
  ∃ out, Attributes.extra_state_attributes st available = Ok out
         ∧ ∀ k v, Dict.get k out = Some v →
                  ∃ pk, (k, pk, Attributes.NoMap) ∈ available
                        ∧ st !! Attributes.partition_head pk = Some v.
Proof.
  intros Hplain. destruct (append_all_plain st available [] Hplain) as (out & Hrun & Hout).
  exists out. split; [done |]. intros k v Hget.
  destruct (Hout k v Hget) as [Hnil|?]; [done | done].
Qed.

Lemma plain_attributes_never_raise_witness :
  ∃ out,
    Attributes.extra_state_attributes Samples.attribute_status
      [("filter", "fltsts0#1", Attributes.NoMap); ("error", "err", Attributes.NoMap)]
    = Ok out
    ∧ ∀ k v, Dict.get k out = Some v →
             ∃ pk, (k, pk, Attributes.NoMap)
                     ∈ [("filter", "fltsts0#1", Attributes.NoMap);
                        ("error", "err", Attributes.NoMap)]
                   ∧ Samples.attribute_status !! Attributes.partition_head pk = Some v.
Proof.
  apply (plain_attributes_never_raise Samples.attribute_status
           [("filter", "fltsts0#1", Attributes.NoMap); ("error", "err", Attributes.NoMap)]).
  repeat constructor.
Defined.
